(** * skrl PPO agent (JAX backend): advantage estimation, losses, update cycle

    A shallow embedding of [skrl/agents/jax/ppo/ppo.py].

    - Numeric arrays are modelled along their leading axis (time step for a
      trajectory, environment for the arrays of one step, sample for a
      mini-batch) as [list F], where the carrier [F] is any type providing
      the arithmetic the code uses (class [Num]). The tensors of the rollout
      memory, of shape (T, N, 1), are lists of rows: one row of [N] numbers
      for each of the [T] time steps. The structural results hold for every
      carrier; results that need field or order reasoning are stated for the
      reals.
    - Python exceptions are values of [exn] carried by the [result] monad.
    - Python dictionaries are [gmap string _]; objects that are shared by
      reference live in an explicit store. *)

From Stdlib Require Import ZArith QArith Reals Lra Lia.
From stdpp Require Import gmap strings list.


(** ** Exceptions and the result monad *)

Inductive exn : Type :=
  | IndexError
  | ValueError
  | TypeError
  | ZeroDivisionError
  | AttributeError
  | NotImplementedError.

Inductive result (A : Type) : Type :=
  | Ok (a : A)
  | Raise (e : exn).
Arguments Ok {A} a.
Arguments Raise {A} e.

Definition bind {A B : Type} (m : result A) (k : A -> result B) : result B :=
  match m with
  | Ok a => k a
  | Raise e => Raise e
  end.

Notation "'let?' x ':=' m 'in' k" := (bind m (fun x => k))
  (at level 10, x name, m at level 100, k at level 200,
   format "'[v' 'let?'  x  ':='  m  'in' '/' k ']'").
Notation "'let?' ' p ':=' m 'in' k" := (bind m (fun x => let 'p := x in k))
  (at level 10, p strict pattern, m at level 100, k at level 200,
   format "'[v' 'let?'  ' p  ':='  m  'in' '/' k ']'").

(** [for x in xs: s = body(x, s)] where the body may raise. *)
Fixpoint for_each {A S : Type} (body : A -> S -> result S) (xs : list A) (s : S)
  : result S :=
  match xs with
  | [] => Ok s
  | x :: xs' => let? s' := body x s in for_each body xs' s'
  end.

(** [a[i]] for [0 <= i]: an [IndexError] outside the array. *)
Definition index {A : Type} (a : list A) (i : nat) : result A :=
  match a !! i with
  | Some x => Ok x
  | None => Raise IndexError
  end.

(** ** Arithmetic carrier *)

Class Num (F : Type) : Type := {
  num_zero : F;
  num_one : F;
  num_add : F -> F -> F;
  num_sub : F -> F -> F;
  num_mul : F -> F -> F
}.

(** The batch statistics of numpy ([ndarray.mean], [ndarray.std]), division,
    and the literal [1e-8]. *)
Class NumStats (F : Type) `{Num F} : Type := {
  num_div : F -> F -> F;
  np_mean : list F -> F;
  np_std : list F -> F;
  num_1e_8 : F
}.

(** Coercion of a numpy boolean in an arithmetic expression. *)
Definition of_bool {F : Type} `{Num F} (b : bool) : F :=
  if b then num_one else num_zero.

(** Element-wise binary operation on two one-dimensional arrays with numpy's
    broadcasting: equal shapes combine pointwise, a length-one operand is
    stretched, any other pair of shapes is a [ValueError]. ([jax.numpy]
    broadcasts by the same rule; the class of the exception it raises for
    incompatible shapes depends on its version.) *)
Definition broadcast {A : Type} (f : A -> A -> A) (xs ys : list A)
  : result (list A) :=
  if decide (length xs = length ys) then Ok (zip_with f xs ys)
  else match xs, ys with
       | [x], _ => Ok (map (f x) ys)
       | _, [y] => Ok (map (fun x => f x y) xs)
       | _, _ => Raise ValueError
       end.

(** ** Generalized Advantage Estimator *)

Section GAE.
Context {F : Type} `{Num F}.

Local Notation "x + y" := (num_add x y).
Local Notation "x - y" := (num_sub x y).
Local Notation "x * y" := (num_mul x y).

(** The variables the loop of [compute_gae] assigns. *)
Record gae_state : Type := {
  gs_next_values : F;
  gs_advantage : F;
  gs_advantages : list F
}.

Section Loop.
Variables (rewards : list F) (dones : list bool) (values : list F).
Variables (discount_factor lambda_coefficient : F).

Definition not_dones : list bool := map negb dones.
Definition memory_size : nat := length rewards.

(** One iteration, lines 99-101. *)
Definition gae_step (i : nat) (st : gae_state) : result gae_state :=
  let? next_values :=
    if (i <? memory_size - 1)%nat then index values (i + 1)%nat
    else Ok (gs_next_values st) in
  let? r := index rewards i in
  let? v := index values i in
  let? nd := index not_dones i in
  let advantage :=
    r - v + discount_factor * of_bool nd
            * (next_values + lambda_coefficient * gs_advantage st) in
  Ok {| gs_next_values := next_values;
        gs_advantage := advantage;
        gs_advantages := <[i := advantage]> (gs_advantages st) |}.

(** Lines 92-101: initialisation and the loop over
    [reversed(range(memory_size))]. *)
Definition gae_loop (next_values : F) : result gae_state :=
  for_each gae_step (rev (seq 0 memory_size))
    {| gs_next_values := next_values;
       gs_advantage := num_zero;
       gs_advantages := replicate memory_size num_zero |}.
End Loop.

(** Lines 92-107. *)
Definition compute_gae `{!NumStats F}
    (rewards : list F) (dones : list bool) (values : list F) (next_values : F)
    (discount_factor lambda_coefficient : F) : result (list F * list F) :=
  let? st := gae_loop rewards dones values discount_factor lambda_coefficient
               next_values in
  let advantages := gs_advantages st in
  let? returns := broadcast num_add advantages values in
  let mean := np_mean advantages in
  let std := np_std advantages in
  let advantages :=
    map (fun x => num_div (x - mean) (std + num_1e_8)) advantages in
  Ok (returns, advantages).

(** Lines 110-135: the jitted variant has no body. *)
Definition _compute_gae
    (rewards : list F) (dones : list bool) (values : list F) (next_values : F)
    (discount_factor lambda_coefficient : F) : result (list F * list F) :=
  Raise NotImplementedError.

(** The recurrence the estimator is meant to follow, in the words of its
    description: the value of one step from the reward, termination flag
    and value of that step, the value of the following step and the
    accumulator. *)
Definition gae_recurrence (discount_factor lambda_coefficient : F)
    (reward : F) (done : bool) (value next_value advantage : F) : F :=
  reward - value
  + discount_factor * (num_one - of_bool done)
    * (next_value + lambda_coefficient * advantage).
End GAE.

(** ** The estimator on the tensors of the rollout memory

    [_update] calls [compute_gae] with the tensors of the memory, of shape
    (T, N, 1) for [T] time steps of [N] environments, and with bootstrap
    values of shape (N, 1). The same lines 92-107 then run on rows:
    [rewards[i]], [values[i]] and [not_dones[i]] are rows of [N] entries, and
    every arithmetic operation of line 100 broadcasts. The Python scalar
    [advantage = 0] of line 92 broadcasts as a row of length one does. A
    tensor without time steps is the empty list. *)

Module Rollout.
Section GAE.
Context {F : Type} `{Num F}.

Local Notation "x + y" := (num_add x y).
Local Notation "x - y" := (num_sub x y).
Local Notation "x * y" := (num_mul x y).

(** The variables the loop of [compute_gae] assigns. *)
Record gae_state : Type := {
  gs_next_values : list F;
  gs_advantage : list F;
  gs_advantages : list (list F)
}.

(** The results of a list of computations, or the first exception. *)
Fixpoint collect {A : Type} (rs : list (result A)) : result (list A) :=
  match rs with
  | [] => Ok []
  | r :: rs' => let? x := r in let? xs := collect rs' in Ok (x :: xs)
  end.

(** Element-wise binary operation on two tensors: numpy's broadcasting along
    the time axis, and along the environments within each time step. *)
Definition broadcast_rows (f : F -> F -> F) (xss yss : list (list F))
  : result (list (list F)) :=
  if decide (length xss = length yss)
  then collect (zip_with (broadcast f) xss yss)
  else match xss, yss with
       | [xs], _ => collect (map (broadcast f xs) yss)
       | _, [ys] => collect (map (fun xs => broadcast f xs ys) xss)
       | _, _ => Raise ValueError
       end.

(** [a[i] = x] for a row [a[i]]: [x] is stored when it has the shape of the
    row, stretched over the row when it has length one, and a [ValueError]
    otherwise. The result is the new row. *)
Definition assign_row (row x : list F) : result (list F) :=
  if decide (length x = length row) then Ok x
  else match x with
       | [v] => Ok (replicate (length row) v)
       | _ => Raise ValueError
       end.

Section Loop.
Variables (rewards : list (list F)) (dones : list (list bool)).
Variables (values : list (list F)).
Variables (discount_factor lambda_coefficient : F).

Definition not_dones : list (list bool) := map (map negb) dones.
Definition memory_size : nat := length rewards.

(** One iteration, lines 99-101. *)
Definition gae_step (i : nat) (st : gae_state) : result gae_state :=
  let? next_values :=
    if (i <? memory_size - 1)%nat then index values (i + 1)%nat
    else Ok (gs_next_values st) in
  let? r := index rewards i in
  let? v := index values i in
  let? delta := broadcast num_sub r v in
  let? nd := index not_dones i in
  let mask := map (fun b => discount_factor * of_bool b) nd in
  let? continuation :=
    broadcast num_add next_values
      (map (fun a => lambda_coefficient * a) (gs_advantage st)) in
  let? discounted := broadcast num_mul mask continuation in
  let? advantage := broadcast num_add delta discounted in
  let? row := index (gs_advantages st) i in
  let? row := assign_row row advantage in
  Ok {| gs_next_values := next_values;
        gs_advantage := advantage;
        gs_advantages := <[i := row]> (gs_advantages st) |}.

(** Lines 92-101: initialisation and the loop over
    [reversed(range(memory_size))]. *)
Definition gae_loop (next_values : list F) : result gae_state :=
  for_each gae_step (rev (seq 0 memory_size))
    {| gs_next_values := next_values;
       gs_advantage := [num_zero];
       gs_advantages := map (map (fun _ => num_zero)) rewards |}.
End Loop.

(** Lines 92-107; the mean and the standard deviation of line 105 are taken
    over all the entries of the tensor. *)
Definition compute_gae `{!NumStats F}
    (rewards : list (list F)) (dones : list (list bool))
    (values : list (list F)) (next_values : list F)
    (discount_factor lambda_coefficient : F)
  : result (list (list F) * list (list F)) :=
  let? st := gae_loop rewards dones values discount_factor lambda_coefficient
               next_values in
  let advantages := gs_advantages st in
  let? returns := broadcast_rows num_add advantages values in
  let mean := np_mean (concat advantages) in
  let std := np_std (concat advantages) in
  let advantages :=
    map (map (fun x => num_div (x - mean) (std + num_1e_8))) advantages in
  Ok (returns, advantages).
End GAE.
End Rollout.

(** ** Carriers *)

(** Integers: exact, used to run the loop on small inputs. *)
#[export] Instance Z_num : Num Z :=
  {| num_zero := 0%Z; num_one := 1%Z;
     num_add := Z.add; num_sub := Z.sub; num_mul := Z.mul |}.

(** Rationals, kept in lowest terms so that equal numbers are equal terms. *)
#[export] Instance Q_num : Num Q :=
  {| num_zero := 0%Q; num_one := 1%Q;
     num_add := fun x y => Qred (x + y)%Q;
     num_sub := fun x y => Qred (x - y)%Q;
     num_mul := fun x y => Qred (x * y)%Q |}.

(** Reals: the idealisation of the floating-point arrays. *)
Definition Rsum (xs : list R) : R := foldr Rplus 0%R xs.

(** [ndarray.mean()]: the sum divided by the number of elements. *)
Definition Rmean (xs : list R) : R := (Rsum xs / INR (length xs))%R.

(** [ndarray.std()]: the square root of the mean squared deviation from the
    mean (population standard deviation, [ddof = 0]). *)
Definition Rstd (xs : list R) : R :=
  sqrt (Rmean (map (fun x => Rsqr (x - Rmean xs)) xs)).

#[export] Instance R_num : Num R :=
  {| num_zero := 0%R; num_one := 1%R;
     num_add := Rplus; num_sub := Rminus; num_mul := Rmult |}.

#[export] Instance R_stats : NumStats R :=
  {| num_div := Rdiv; np_mean := Rmean; np_std := Rstd; num_1e_8 := 1e-8%R |}.

(** Python truthiness of a number. *)
Definition truthy (x : R) : bool := if Req_dec_T x 0 then false else true.

(** [x > y] on floats. *)
Definition Rgtb (x y : R) : bool := if Rgt_dec x y then true else false.

(** [jnp.clip(x, a_min, a_max)]: [minimum(a_max, maximum(a_min, x))]. *)
Definition clip (x a_min a_max : R) : R := Rmin a_max (Rmax a_min x).

(** ** Collaborators

    The models, the automatic differentiation, the optimizers, the scheduler,
    the preprocessors and the rollout memory are used through their
    interfaces only. *)

(** The keyword arguments of [Memory.add_samples]. *)
Record samples (States Actions : Type) : Type := {
  smp_states : States;
  smp_actions : Actions;
  smp_rewards : list R;
  smp_next_states : States;
  smp_terminated : list bool;
  smp_truncated : list bool;
  smp_log_prob : option (list R);
  smp_values : list R
}.
Arguments smp_states {_ _} _.
Arguments smp_actions {_ _} _.
Arguments smp_rewards {_ _} _.
Arguments smp_next_states {_ _} _.
Arguments smp_terminated {_ _} _.
Arguments smp_truncated {_ _} _.
Arguments smp_log_prob {_ _} _.
Arguments smp_values {_ _} _.

Class Collaborators : Type := {
  States : Type;
  Actions : Type;
  Outputs : Type;
  ModelParams : Type;
  Grad : Type;
  RandomActions : Type;
  PolicyModel : Type;
  ValueModel : Type;
  Optimizer : Type;
  Scheduler : Type;
  StatePreprocessor : Type;
  ValuePreprocessor : Type;
  Memory : Type;
  (** [Model.act(params, {"states": ..., "taken_actions": ...}, role)];
      [params = None] selects the parameters the model holds. *)
  policy_act :
    PolicyModel -> option ModelParams -> States -> option Actions ->
    Actions * list R * Outputs;
  policy_random_act : PolicyModel -> States -> RandomActions;
  policy_params : PolicyModel -> ModelParams;
  policy_get_entropy : PolicyModel -> list R;
  value_act : ValueModel -> option ModelParams -> States -> list R;
  (** [None] where states are expected: what [_current_next_states] holds
      until a transition is recorded. *)
  none_states : States;
  value_params : ValueModel -> ModelParams;
  value_set_training : ValueModel -> bool -> ValueModel;
  (** [jax.grad]: the gradient of a scalar function of the parameters. *)
  jax_grad : (ModelParams -> result R) -> ModelParams -> Grad;
  (** [Adam.step(grad, model, lr)]: the new optimizer, and the model it
      updated. *)
  policy_optimizer_step :
    Optimizer -> Grad -> PolicyModel -> option R -> Optimizer * PolicyModel;
  value_optimizer_step :
    Optimizer -> Grad -> ValueModel -> option R -> Optimizer * ValueModel;
  (** [KLAdaptiveRL.step(kl)] and [KLAdaptiveRL._lr]. *)
  scheduler_step : Scheduler -> R -> Scheduler;
  scheduler_lr : Scheduler -> R;
  (** Preprocessors, called as [(x, train, inverse)]. *)
  state_preprocess :
    StatePreprocessor -> States -> bool -> States * StatePreprocessor;
  value_preprocess :
    ValuePreprocessor -> list R -> bool -> bool -> list R * ValuePreprocessor;
  (** The value preprocessor called on a tensor of the memory. *)
  value_preprocess_rollout :
    ValuePreprocessor -> list (list R) -> bool -> bool ->
    list (list R) * ValuePreprocessor;
  (** Memory: [get_tensor_by_name] for a tensor of numbers and for a tensor
      of booleans, [set_tensor_by_name]. *)
  add_samples : Memory -> samples States Actions -> Memory;
  get_tensor_by_name : Memory -> string -> list (list R);
  get_flags_by_name : Memory -> string -> list (list bool);
  set_tensor_by_name : Memory -> string -> list (list R) -> Memory;
  sample_all :
    Memory -> list string -> Z ->
    list (States * Actions * list R * list R * list R * list R);
  (** [jax.device_get], on any value. *)
  device_get : forall {A : Type}, A -> A;
  (** The rewards shaper is a callable [(rewards, timestep, timesteps)]. *)
  RewardsShaper : Type;
  shape_rewards : RewardsShaper -> list R -> Z -> Z -> list R;
  (** The state of the base class [Agent]: [track_data(label, value)] and
      the bookkeeping of [Agent.record_transition]. *)
  Infos : Type;
  Tracker : Type;
  track_data : Tracker -> string -> R -> Tracker;
  base_record_transition :
    Tracker -> States -> Actions -> list R -> States -> list bool ->
    list bool -> Infos -> Z -> Z -> Tracker
}.

(** ** Policy and value losses *)

Section Losses.
Context `{Collaborators}.
Local Open Scope R_scope.

(** Lines 146-158, the function that is differentiated. *)
Definition _policy_loss
    (policy_act : ModelParams -> States -> Actions -> Actions * list R * Outputs)
    (sampled_states : States) (sampled_actions : Actions)
    (sampled_log_prob sampled_advantages : list R) (ratio_clip : R)
    (params : ModelParams) : result (R * R) :=
  let '(_, next_log_prob, _) :=
    policy_act params sampled_states sampled_actions in
  let? ratio := broadcast Rminus next_log_prob sampled_log_prob in
  let kl_divergence := Rmean (map (fun r => (exp r - 1) - r) ratio) in
  let? ratio := broadcast Rminus next_log_prob sampled_log_prob in
  let ratio := map exp ratio in
  let? surrogate := broadcast Rmult sampled_advantages ratio in
  let? surrogate_clipped :=
    broadcast Rmult sampled_advantages
      (map (fun r => clip r (1 - ratio_clip) (1 + ratio_clip)) ratio) in
  let? lower := broadcast Rmin surrogate surrogate_clipped in
  Ok (- Rmean lower, kl_divergence).

(** Lines 137-162. *)
Definition _update_policy
    (policy_act : ModelParams -> States -> Actions -> Actions * list R * Outputs)
    (policy_state_dict : ModelParams)
    (sampled_states : States) (sampled_actions : Actions)
    (sampled_log_prob sampled_advantages : list R) (ratio_clip : R)
  : result (Grad * R * R) :=
  let loss :=
    _policy_loss policy_act sampled_states sampled_actions sampled_log_prob
      sampled_advantages ratio_clip in
  let? '(policy_loss, kl_divergence) := loss policy_state_dict in
  let grad :=
    jax_grad (fun params => let? '(l, _) := loss params in Ok l)
      policy_state_dict in
  Ok (grad, policy_loss, kl_divergence).

(** The clipping of line 176. *)
Definition clip_predicted (value_clip : R) (sampled_values predicted_values : list R)
  : result (list R) :=
  let? delta := broadcast Rminus predicted_values sampled_values in
  broadcast Rplus sampled_values
    (map (fun d => clip d (- value_clip) value_clip) delta).

(** Lines 173-177 once the model has produced [predicted_values]. *)
Definition value_loss_of
    (sampled_values sampled_returns : list R) (value_loss_scale : R)
    (clip_predicted_values : bool) (value_clip : R)
    (predicted_values : list R) : result R :=
  let? predicted_values :=
    if clip_predicted_values
    then clip_predicted value_clip sampled_values predicted_values
    else Ok predicted_values in
  let? err := broadcast Rminus sampled_returns predicted_values in
  Ok (value_loss_scale * Rmean (map (fun e => e ^ 2) err)).

(** Lines 173-177. *)
Definition _value_loss
    (value_act : ModelParams -> States -> list R)
    (sampled_states : States) (sampled_values sampled_returns : list R)
    (value_loss_scale : R) (clip_predicted_values : bool) (value_clip : R)
    (params : ModelParams) : result R :=
  value_loss_of sampled_values sampled_returns value_loss_scale
    clip_predicted_values value_clip (value_act params sampled_states).

(** Lines 164-181. *)
Definition _update_value
    (value_act : ModelParams -> States -> list R)
    (value_state_dict : ModelParams)
    (sampled_states : States) (sampled_values sampled_returns : list R)
    (value_loss_scale : R) (clip_predicted_values : bool) (value_clip : R)
  : result (Grad * R) :=
  let loss :=
    _value_loss value_act sampled_states sampled_values sampled_returns
      value_loss_scale clip_predicted_values value_clip in
  let? value_loss := loss value_state_dict in
  Ok (jax_grad loss value_state_dict, value_loss).

(** *** The gradient that reaches the predictions

    [jax.grad] differentiates [_value_loss] by the chain rule through lines
    173-177; what it propagates to the output of the value model is the
    derivative of the loss with respect to [predicted_values]. JAX
    differentiates [maximum(a, x)] with respect to [x] as 1 where [x] is the
    larger operand, 0 where it is the smaller, and 1/2 where both are equal;
    [minimum] likewise. *)
Definition maximum_grad (a x : R) : R :=
  if Rlt_dec a x then 1 else if Rlt_dec x a then 0 else 1 / 2.

Definition minimum_grad (a x : R) : R :=
  if Rlt_dec x a then 1 else if Rlt_dec a x then 0 else 1 / 2.

(** The derivative of [jnp.clip(x, a_min, a_max)], that is of
    [minimum(a_max, maximum(a_min, x))], with respect to [x]. *)
Definition clip_grad (x a_min a_max : R) : R :=
  minimum_grad a_max (Rmax a_min x) * maximum_grad a_min x.

(** The cotangent of an operand of length [n] that broadcasting may have
    stretched from length one: the sum over the stretched axis. *)
Definition unbroadcast (n : nat) (g : list R) : list R :=
  if decide (length g = n) then g else [Rsum g].

(** The derivative of the loss of lines 173-177 with respect to
    [predicted_values], by reverse accumulation: through the mean and the
    square, the subtraction from the returns, and with clipping through the
    addition to the sampled values, [jnp.clip] and the subtraction of the
    sampled values. *)
Definition value_loss_prediction_grad
    (sampled_values sampled_returns : list R) (value_loss_scale : R)
    (clip_predicted_values : bool) (value_clip : R)
    (predicted_values : list R) : result (list R) :=
  let? clipped :=
    if clip_predicted_values
    then clip_predicted value_clip sampled_values predicted_values
    else Ok predicted_values in
  let? err := broadcast Rminus sampled_returns clipped in
  let n := INR (length err) in
  let g_err := map (fun e => value_loss_scale * (2 * e / n)) err in
  let g_clipped := unbroadcast (length clipped) (map Ropp g_err) in
  if clip_predicted_values then
    let? delta := broadcast Rminus predicted_values sampled_values in
    let g_delta :=
      zip_with (fun g d => g * clip_grad d (- value_clip) value_clip)
        g_clipped delta in
    Ok (unbroadcast (length predicted_values) g_delta)
  else Ok g_clipped.
End Losses.

(** ** The agent *)

Inductive scheduler_class : Type :=
  | KLAdaptiveRL
  | OtherScheduler.

Section Agent.
Context `{Collaborators}.
Local Open Scope R_scope.

(** The attributes [__init__] reads from the configuration (lines 235-262)
    and the backend flag (line 224); nothing assigns them afterwards. *)
Record hyperparameters : Type := {
  _learning_epochs : Z;
  _mini_batches : Z;
  _rollouts : Z;
  _grad_norm_clip : R;
  _ratio_clip : R;
  _value_clip : R;
  _clip_predicted_values : bool;
  _value_loss_scale : R;
  _entropy_loss_scale : R;
  _kl_threshold : R;
  _learning_rate_scheduler : option scheduler_class;
  _discount_factor : R;
  _lambda : R;
  _random_timesteps : Z;
  _learning_starts : Z;
  _rewards_shaper : option RewardsShaper;
  _jax : bool
}.

(** The attributes that change while the agent runs. Both models are
    present; an absent preprocessor is [_empty_preprocessor], the identity. *)
Record ppo : Type := {
  policy : PolicyModel;
  value : ValueModel;
  policy_optimizer : Optimizer;
  value_optimizer : Optimizer;
  scheduler : option Scheduler;
  memory : option Memory;
  secondary_memories : list Memory;
  _state_preprocessor : option StatePreprocessor;
  _value_preprocessor : option ValuePreprocessor;
  _current_log_prob : option (list R);
  _current_next_states : option States;
  tracker : Tracker
}.

Definition set_policy (x : PolicyModel) (a : ppo) : ppo :=
  {| policy := x;
     value := value a;
     policy_optimizer := policy_optimizer a;
     value_optimizer := value_optimizer a;
     scheduler := scheduler a;
     memory := memory a;
     secondary_memories := secondary_memories a;
     _state_preprocessor := _state_preprocessor a;
     _value_preprocessor := _value_preprocessor a;
     _current_log_prob := _current_log_prob a;
     _current_next_states := _current_next_states a;
     tracker := tracker a |}.

Definition set_value (x : ValueModel) (a : ppo) : ppo :=
  {| policy := policy a;
     value := x;
     policy_optimizer := policy_optimizer a;
     value_optimizer := value_optimizer a;
     scheduler := scheduler a;
     memory := memory a;
     secondary_memories := secondary_memories a;
     _state_preprocessor := _state_preprocessor a;
     _value_preprocessor := _value_preprocessor a;
     _current_log_prob := _current_log_prob a;
     _current_next_states := _current_next_states a;
     tracker := tracker a |}.

Definition set_policy_optimizer (x : Optimizer) (a : ppo) : ppo :=
  {| policy := policy a;
     value := value a;
     policy_optimizer := x;
     value_optimizer := value_optimizer a;
     scheduler := scheduler a;
     memory := memory a;
     secondary_memories := secondary_memories a;
     _state_preprocessor := _state_preprocessor a;
     _value_preprocessor := _value_preprocessor a;
     _current_log_prob := _current_log_prob a;
     _current_next_states := _current_next_states a;
     tracker := tracker a |}.

Definition set_value_optimizer (x : Optimizer) (a : ppo) : ppo :=
  {| policy := policy a;
     value := value a;
     policy_optimizer := policy_optimizer a;
     value_optimizer := x;
     scheduler := scheduler a;
     memory := memory a;
     secondary_memories := secondary_memories a;
     _state_preprocessor := _state_preprocessor a;
     _value_preprocessor := _value_preprocessor a;
     _current_log_prob := _current_log_prob a;
     _current_next_states := _current_next_states a;
     tracker := tracker a |}.

Definition set_scheduler (x : option Scheduler) (a : ppo) : ppo :=
  {| policy := policy a;
     value := value a;
     policy_optimizer := policy_optimizer a;
     value_optimizer := value_optimizer a;
     scheduler := x;
     memory := memory a;
     secondary_memories := secondary_memories a;
     _state_preprocessor := _state_preprocessor a;
     _value_preprocessor := _value_preprocessor a;
     _current_log_prob := _current_log_prob a;
     _current_next_states := _current_next_states a;
     tracker := tracker a |}.

Definition set_memory (x : option Memory) (a : ppo) : ppo :=
  {| policy := policy a;
     value := value a;
     policy_optimizer := policy_optimizer a;
     value_optimizer := value_optimizer a;
     scheduler := scheduler a;
     memory := x;
     secondary_memories := secondary_memories a;
     _state_preprocessor := _state_preprocessor a;
     _value_preprocessor := _value_preprocessor a;
     _current_log_prob := _current_log_prob a;
     _current_next_states := _current_next_states a;
     tracker := tracker a |}.

Definition set__state_preprocessor (x : option StatePreprocessor) (a : ppo) : ppo :=
  {| policy := policy a;
     value := value a;
     policy_optimizer := policy_optimizer a;
     value_optimizer := value_optimizer a;
     scheduler := scheduler a;
     memory := memory a;
     secondary_memories := secondary_memories a;
     _state_preprocessor := x;
     _value_preprocessor := _value_preprocessor a;
     _current_log_prob := _current_log_prob a;
     _current_next_states := _current_next_states a;
     tracker := tracker a |}.

Definition set__value_preprocessor (x : option ValuePreprocessor) (a : ppo) : ppo :=
  {| policy := policy a;
     value := value a;
     policy_optimizer := policy_optimizer a;
     value_optimizer := value_optimizer a;
     scheduler := scheduler a;
     memory := memory a;
     secondary_memories := secondary_memories a;
     _state_preprocessor := _state_preprocessor a;
     _value_preprocessor := x;
     _current_log_prob := _current_log_prob a;
     _current_next_states := _current_next_states a;
     tracker := tracker a |}.

Definition set__current_log_prob (x : option (list R)) (a : ppo) : ppo :=
  {| policy := policy a;
     value := value a;
     policy_optimizer := policy_optimizer a;
     value_optimizer := value_optimizer a;
     scheduler := scheduler a;
     memory := memory a;
     secondary_memories := secondary_memories a;
     _state_preprocessor := _state_preprocessor a;
     _value_preprocessor := _value_preprocessor a;
     _current_log_prob := x;
     _current_next_states := _current_next_states a;
     tracker := tracker a |}.

Definition set__current_next_states (x : option States) (a : ppo) : ppo :=
  {| policy := policy a;
     value := value a;
     policy_optimizer := policy_optimizer a;
     value_optimizer := value_optimizer a;
     scheduler := scheduler a;
     memory := memory a;
     secondary_memories := secondary_memories a;
     _state_preprocessor := _state_preprocessor a;
     _value_preprocessor := _value_preprocessor a;
     _current_log_prob := _current_log_prob a;
     _current_next_states := x;
     tracker := tracker a |}.

Definition set_tracker (x : Tracker) (a : ppo) : ppo :=
  {| policy := policy a;
     value := value a;
     policy_optimizer := policy_optimizer a;
     value_optimizer := value_optimizer a;
     scheduler := scheduler a;
     memory := memory a;
     secondary_memories := secondary_memories a;
     _state_preprocessor := _state_preprocessor a;
     _value_preprocessor := _value_preprocessor a;
     _current_log_prob := _current_log_prob a;
     _current_next_states := _current_next_states a;
     tracker := x |}.

(** [self._state_preprocessor(x, train=train)]. *)
Definition apply_state_preprocessor (a : ppo) (x : States) (train : bool)
  : States * ppo :=
  match _state_preprocessor a with
  | None => (x, a)
  | Some p =>
      let '(y, p') := state_preprocess p x train in
      (y, set__state_preprocessor (Some p') a)
  end.

(** [self._value_preprocessor(x, train=train, inverse=inverse)]. *)
Definition apply_value_preprocessor (a : ppo) (x : list R) (train inverse : bool)
  : list R * ppo :=
  match _value_preprocessor a with
  | None => (x, a)
  | Some p =>
      let '(y, p') := value_preprocess p x train inverse in
      (y, set__value_preprocessor (Some p') a)
  end.

(** The same call on a tensor of the memory. *)
Definition apply_value_preprocessor_rollout (a : ppo) (x : list (list R))
    (train inverse : bool) : list (list R) * ppo :=
  match _value_preprocessor a with
  | None => (x, a)
  | Some p =>
      let '(y, p') := value_preprocess_rollout p x train inverse in
      (y, set__value_preprocessor (Some p') a)
  end.

(** What [act] returns: the result of [random_act], or the triple of the
    stochastic policy. *)
Inductive act_result : Type :=
  | RandomAct (r : RandomActions)
  | PolicyAct (actions : Actions) (log_prob : list R) (outputs : Outputs).

(** Lines 337-350. *)
Definition act (h : hyperparameters) (a : ppo) (states : States)
    (timestep timesteps : Z) : act_result * ppo :=
  if (timestep <? _random_timesteps h)%Z then
    let '(states, a) := apply_state_preprocessor a states false in
    (RandomAct (policy_random_act (policy a) states), a)
  else
    let '(states, a) := apply_state_preprocessor a states false in
    let '(actions, log_prob, outputs) :=
      policy_act (policy a) None states None in
    let actions := if _jax h then actions else device_get actions in
    let log_prob := if _jax h then log_prob else device_get log_prob in
    let a := set__current_log_prob (Some log_prob) a in
    (PolicyAct actions log_prob outputs, a).

(** Lines 383-403. *)
Definition record_transition (h : hyperparameters) (a : ppo)
    (states : States) (actions : Actions) (rewards : list R)
    (next_states : States) (terminated truncated : list bool) (infos : Infos)
    (timestep timesteps : Z) : ppo :=
  let a :=
    set_tracker
      (base_record_transition (tracker a) states actions rewards next_states
         terminated truncated infos timestep timesteps) a in
  match memory a with
  | None => a
  | Some mem =>
      let a := set__current_next_states (Some next_states) a in
      let rewards :=
        match _rewards_shaper h with
        | Some shaper => shape_rewards shaper rewards timestep timesteps
        | None => rewards
        end in
      let '(pre, a) := apply_state_preprocessor a states false in
      let values := value_act (value a) None pre in
      let '(values, a) := apply_value_preprocessor a values false true in
      let values := if _jax h then values else device_get values in
      let smp :=
        {| smp_states := states; smp_actions := actions;
           smp_rewards := rewards; smp_next_states := next_states;
           smp_terminated := terminated; smp_truncated := truncated;
           smp_log_prob := _current_log_prob a; smp_values := values |} in
      {| policy := policy a;
         value := value a;
         policy_optimizer := policy_optimizer a;
         value_optimizer := value_optimizer a;
         scheduler := scheduler a;
         memory := Some (add_samples mem smp);
         secondary_memories :=
           map (fun memory => add_samples memory smp) (secondary_memories a);
         _state_preprocessor := _state_preprocessor a;
         _value_preprocessor := _value_preprocessor a;
         _current_log_prob := _current_log_prob a;
         _current_next_states := _current_next_states a;
         tracker := tracker a |}
  end.
(** *** The update cycle *)

(** The collaborator calls of one update, in order. This log is not an
    attribute of the agent: it is kept to state how often, and with what
    arguments, the optimizers and the scheduler are invoked. *)
Inductive call : Type :=
  | PolicyOptimizerStep (grad : Grad) (lr : option R)
  | ValueOptimizerStep (grad : Grad) (lr : option R)
  | SchedulerStep (kl : R).

(** The agent together with the local variables of [_update]. *)
Record update_state : Type := {
  us_agent : ppo;
  us_kl_divergences : list R;
  us_cumulative_policy_loss : R;
  us_cumulative_entropy_loss : R;
  us_cumulative_value_loss : R;
  us_calls : list call
}.

(** Line 313. *)
Definition _tensors_names : list string :=
  ["states"; "actions"; "log_prob"; "values"; "returns"; "advantages"]%string.

(** [self.scheduler._lr if self.scheduler else None], lines 499 and 512. *)
Definition current_lr (a : ppo) : option R :=
  match scheduler a with
  | Some s => Some (scheduler_lr s)
  | None => None
  end.

(** Lines 474-489: the start of the body of the mini-batches loop, up to the
    early-stopping test. The result is the state after line 485, the
    gradient and loss of the policy, the preprocessed states, and whether
    line 489 breaks out of the loop. *)
Definition mini_batch_policy (h : hyperparameters) (epoch : nat)
    (sampled_states : States) (sampled_actions : Actions)
    (sampled_log_prob sampled_advantages : list R) (u : update_state)
  : result (update_state * Grad * R * States * bool) :=
  let '(sampled_states, a) :=
    apply_state_preprocessor (us_agent u) sampled_states (epoch =? 0)%nat in
  let? '(grad, policy_loss, kl_divergence) :=
    _update_policy
      (fun params states actions =>
         policy_act (policy a) (Some params) states (Some actions))
      (policy_params (policy a))
      sampled_states sampled_actions sampled_log_prob sampled_advantages
      (_ratio_clip h) in
  let u :=
    {| us_agent := a;
       us_kl_divergences := us_kl_divergences u ++ [kl_divergence];
       us_cumulative_policy_loss := us_cumulative_policy_loss u;
       us_cumulative_entropy_loss := us_cumulative_entropy_loss u;
       us_cumulative_value_loss := us_cumulative_value_loss u;
       us_calls := us_calls u |} in
  Ok (u, grad, policy_loss, sampled_states,
      truthy (_kl_threshold h) && Rgtb kl_divergence (_kl_threshold h)).

(** Lines 491-528: the rest of the body, run when line 489 does not break. *)
Definition mini_batch_rest (h : hyperparameters)
    (grad : Grad) (policy_loss : R) (sampled_states : States)
    (sampled_values sampled_returns : list R) (u : update_state)
  : result update_state :=
  let a := us_agent u in
  let entropy_loss :=
    if truthy (_entropy_loss_scale h)
    then - _entropy_loss_scale h * Rmean (policy_get_entropy (policy a))
    else 0 in
  let lr := current_lr a in
  let '(opt, model) :=
    policy_optimizer_step (policy_optimizer a) grad (policy a) lr in
  let a := set_policy model (set_policy_optimizer opt a) in
  let calls := us_calls u ++ [PolicyOptimizerStep grad lr] in
  let? '(grad, value_loss) :=
    _update_value
      (fun params states => value_act (value a) (Some params) states)
      (value_params (value a))
      sampled_states sampled_values sampled_returns
      (_value_loss_scale h) (_clip_predicted_values h) (_value_clip h) in
  let lr := current_lr a in
  let '(opt, model) :=
    value_optimizer_step (value_optimizer a) grad (value a) lr in
  let a := set_value model (set_value_optimizer opt a) in
  let calls := calls ++ [ValueOptimizerStep grad lr] in
  Ok {| us_agent := a;
        us_kl_divergences := us_kl_divergences u;
        us_cumulative_policy_loss := us_cumulative_policy_loss u + policy_loss;
        us_cumulative_entropy_loss :=
          if truthy (_entropy_loss_scale h)
          then us_cumulative_entropy_loss u + entropy_loss
          else us_cumulative_entropy_loss u;
        us_cumulative_value_loss := us_cumulative_value_loss u + value_loss;
        us_calls := calls |}.

(** Lines 472-528: the mini-batches loop of one epoch; [break] ends it. *)
Fixpoint mini_batches_loop (h : hyperparameters) (epoch : nat)
    (sampled_batches :
       list (States * Actions * list R * list R * list R * list R))
    (u : update_state) : result update_state :=
  match sampled_batches with
  | [] => Ok u
  | (sampled_states, sampled_actions, sampled_log_prob, sampled_values,
     sampled_returns, sampled_advantages) :: rest =>
      let? '(u, grad, policy_loss, sampled_states, stop) :=
        mini_batch_policy h epoch sampled_states sampled_actions
          sampled_log_prob sampled_advantages u in
      if stop : bool then Ok u
      else
        let? u :=
          mini_batch_rest h grad policy_loss sampled_states sampled_values
            sampled_returns u in
        mini_batches_loop h epoch rest u
  end.

(** Lines 530-533. *)
Definition update_learning_rate (h : hyperparameters) (u : update_state)
  : update_state :=
  match _learning_rate_scheduler h, scheduler (us_agent u) with
  | Some _, Some s =>
      let kl := Rmean (us_kl_divergences u) in
      {| us_agent := set_scheduler (Some (scheduler_step s kl)) (us_agent u);
         us_kl_divergences := us_kl_divergences u;
         us_cumulative_policy_loss := us_cumulative_policy_loss u;
         us_cumulative_entropy_loss := us_cumulative_entropy_loss u;
         us_cumulative_value_loss := us_cumulative_value_loss u;
         us_calls := us_calls u ++ [SchedulerStep kl] |}
  | _, _ => u
  end.

(** Line 469: [kl_divergences = []]. *)
Definition start_epoch (u : update_state) : update_state :=
  {| us_agent := us_agent u;
     us_kl_divergences := [];
     us_cumulative_policy_loss := us_cumulative_policy_loss u;
     us_cumulative_entropy_loss := us_cumulative_entropy_loss u;
     us_cumulative_value_loss := us_cumulative_value_loss u;
     us_calls := us_calls u |}.

(** Lines 469-533: one learning epoch. *)
Definition learning_epoch (h : hyperparameters)
    (sampled_batches :
       list (States * Actions * list R * list R * list R * list R))
    (epoch : nat) (u : update_state) : result update_state :=
  let u := start_epoch u in
  let? u := mini_batches_loop h epoch sampled_batches u in
  Ok (update_learning_rate h u).

(** [x / n] for a float and an integer. *)
Definition py_div (x : R) (n : Z) : result R :=
  if (n =? 0)%Z then Raise ZeroDivisionError else Ok (x / IZR n).

(** Lines 536-539. *)
Definition record_losses (h : hyperparameters) (u : update_state)
  : result Tracker :=
  let n := (_learning_epochs h * _mini_batches h)%Z in
  let? policy_loss := py_div (us_cumulative_policy_loss u) n in
  let t := track_data (tracker (us_agent u)) "Loss / Policy loss" policy_loss in
  let? value_loss := py_div (us_cumulative_value_loss u) n in
  let t := track_data t "Loss / Value loss" value_loss in
  if truthy (_entropy_loss_scale h) then
    let? entropy_loss := py_div (us_cumulative_entropy_loss u) n in
    Ok (track_data t "Loss / Entropy loss" entropy_loss)
  else Ok t.

(** Lines 543-544: with a learning rate scheduler configured,
    [self.scheduler._lr] is tracked as "Learning / Learning rate"; reading
    [_lr] from a scheduler that is [None] is an [AttributeError]. *)
Definition record_learning_rate (h : hyperparameters) (a : ppo) (t : Tracker)
  : result Tracker :=
  match _learning_rate_scheduler h with
  | None => Ok t
  | Some _ =>
      match scheduler a with
      | Some s => Ok (track_data t "Learning / Learning rate" (scheduler_lr s))
      | None => Raise AttributeError
      end
  end.

(** Lines 441-458: the bootstrap values, the estimator, and the tensors
    written back. [self._current_next_states] is passed on as it is, [None]
    included; [self.memory.get_tensor_by_name] on a memory that is [None] is
    an [AttributeError]. *)
Definition compute_returns_and_advantages (h : hyperparameters) (a : ppo)
  : result (ppo * Memory) :=
  let a := set_value (value_set_training (value a) false) a in
  let next_states :=
    match _current_next_states a with
    | Some s => s
    | None => none_states
    end in
  let '(next_states, a) := apply_state_preprocessor a next_states false in
  let last_values := value_act (value a) None next_states in
  let a := set_value (value_set_training (value a) true) a in
  let '(last_values, a) := apply_value_preprocessor a last_values false true in
  let last_values := if _jax h then last_values else device_get last_values in
  let? mem :=
    match memory a with
    | Some m => Ok m
    | None => Raise AttributeError
    end in
  let values := get_tensor_by_name mem "values" in
  let? '(returns, advantages) :=
    Rollout.compute_gae (get_tensor_by_name mem "rewards")
      (get_flags_by_name mem "terminated") values last_values
      (_discount_factor h) (_lambda h) in
  let '(values, a) := apply_value_preprocessor_rollout a values true false in
  let mem := set_tensor_by_name mem "values" values in
  let '(returns, a) := apply_value_preprocessor_rollout a returns true false in
  let mem := set_tensor_by_name mem "returns" returns in
  let mem := set_tensor_by_name mem "advantages" advantages in
  Ok (set_memory (Some mem) a, mem).

(** Lines 440-544. The result is the agent and the log of collaborator
    calls. *)
Definition _update (h : hyperparameters) (a : ppo) (timestep timesteps : Z)
  : result (ppo * list call) :=
  let? '(a, mem) := compute_returns_and_advantages h a in
  let sampled_batches := sample_all mem _tensors_names (_mini_batches h) in
  let u :=
    {| us_agent := a;
       us_kl_divergences := [];
       us_cumulative_policy_loss := 0;
       us_cumulative_entropy_loss := 0;
       us_cumulative_value_loss := 0;
       us_calls := [] |} in
  let? u :=
    for_each (learning_epoch h sampled_batches)
      (seq 0 (Z.to_nat (_learning_epochs h))) u in
  let? t := record_losses h u in
  let? t := record_learning_rate h (us_agent u) t in
  Ok (set_tracker t (us_agent u), us_calls u).
End Agent.

(** ** Configuration dictionaries

    Dictionaries are objects: a name holds a reference into the store, and
    two names may hold the same reference. *)

Module Config.

Definition loc : Type := nat.

Inductive pyval : Type :=
  | VNone
  | VBool (b : bool)
  | VInt (n : Z)
  | VFloat (q : Q)
  | VStr (s : string)
  | VDict (l : loc).

Definition store : Type := gmap loc (gmap string pyval).

(** The module-level name [PPO_DEFAULT_CONFIG], and the dictionaries nested
    in the object it refers to. *)
Definition PPO_DEFAULT_CONFIG : loc := 0.
Definition learning_rate_scheduler_kwargs : loc := 1.
Definition state_preprocessor_kwargs : loc := 2.
Definition value_preprocessor_kwargs : loc := 3.
Definition experiment : loc := 4.
Definition wandb_kwargs : loc := 5.

(** Lines 54-64. *)
Definition experiment_defaults : gmap string pyval :=
  list_to_map
    [("directory", VStr "");
     ("experiment_name", VStr "");
     ("write_interval", VInt 250);
     ("checkpoint_interval", VInt 1000);
     ("store_separately", VBool false);
     ("wandb", VBool false);
     ("wandb_kwargs", VDict wandb_kwargs)]%string.

(** Lines 22-65. *)
Definition defaults : gmap string pyval :=
  list_to_map
    [("rollouts", VInt 16);
     ("learning_epochs", VInt 8);
     ("mini_batches", VInt 2);
     ("discount_factor", VFloat 0.99);
     ("lambda", VFloat 0.95);
     ("learning_rate", VFloat 0.001);
     ("learning_rate_scheduler", VNone);
     ("learning_rate_scheduler_kwargs", VDict learning_rate_scheduler_kwargs);
     ("state_preprocessor", VNone);
     ("state_preprocessor_kwargs", VDict state_preprocessor_kwargs);
     ("value_preprocessor", VNone);
     ("value_preprocessor_kwargs", VDict value_preprocessor_kwargs);
     ("random_timesteps", VInt 0);
     ("learning_starts", VInt 0);
     ("grad_norm_clip", VFloat 0.5);
     ("ratio_clip", VFloat 0.2);
     ("value_clip", VFloat 0.2);
     ("clip_predicted_values", VBool false);
     ("entropy_loss_scale", VFloat 0.0);
     ("value_loss_scale", VFloat 1.0);
     ("kl_threshold", VInt 0);
     ("rewards_shaper", VNone);
     ("experiment", VDict experiment)]%string.

(** The store once the module is imported. *)
Definition module_store : store :=
  list_to_map
    [(PPO_DEFAULT_CONFIG, defaults);
     (learning_rate_scheduler_kwargs, ∅);
     (state_preprocessor_kwargs, ∅);
     (value_preprocessor_kwargs, ∅);
     (experiment, experiment_defaults);
     (wandb_kwargs, ∅)].

(** [d[key]] for the dictionary a reference points to. *)
Definition getitem (σ : store) (d : loc) (key : string) : option pyval :=
  match σ !! d with
  | Some m => m !! key
  | None => None
  end.

(** [d.update(other)]: every key of [other] is written into the object [d]
    refers to. *)
Definition dict_update (d : loc) (other : gmap string pyval) (σ : store)
  : store :=
  match σ !! d with
  | Some m => <[d := other ∪ m]> σ
  | None => σ
  end.

(** Lines 214-222 of [PPO.__init__]: the reference handed to the constructor
    of the base class as [cfg], and the store afterwards. *)
Definition PPO_init (cfg : option (gmap string pyval)) (σ : store)
  : loc * store :=
  let _cfg := PPO_DEFAULT_CONFIG in
  let σ :=
    dict_update _cfg (match cfg with Some c => c | None => ∅ end) σ in
  (_cfg, σ).

End Config.

(** ** A small instance of the collaborators

    Constant models, counting optimizers and a memory that keeps the samples
    it is given and serves the rewards, values and termination flags of its
    samples as tensors, used to run the agent on concrete inputs. *)

Module Demo.

#[export] Instance collaborators : Collaborators :=
  {| States := nat;
     Actions := unit;
     Outputs := unit;
     ModelParams := R;
     Grad := unit;
     RandomActions := nat;
     PolicyModel := R;
     ValueModel := R;
     Optimizer := nat;
     Scheduler := R;
     StatePreprocessor := unit;
     ValuePreprocessor := unit;
     Memory := list (samples nat unit);
     policy_act := fun _ _ _ _ => (tt, [2%R], tt);
     policy_random_act := fun _ s => s;
     policy_params := fun m => m;
     policy_get_entropy := fun _ => [];
     value_act := fun _ _ _ => [0%R];
     none_states := 0;
     value_params := fun m => m;
     value_set_training := fun m _ => m;
     jax_grad := fun _ _ => tt;
     policy_optimizer_step := fun o _ m _ => (S o, m);
     value_optimizer_step := fun o _ m _ => (S o, m);
     scheduler_step := fun _ kl => kl;
     scheduler_lr := fun s => s;
     state_preprocess := fun p x _ => (x, p);
     value_preprocess := fun p x _ _ => (x, p);
     value_preprocess_rollout := fun p x _ _ => (x, p);
     add_samples := fun m s => m ++ [s];
     get_tensor_by_name := fun m name =>
       if String.eqb name "rewards" then map smp_rewards m
       else if String.eqb name "values" then map smp_values m
       else [];
     get_flags_by_name := fun m name =>
       if String.eqb name "terminated" then map smp_terminated m else [];
     set_tensor_by_name := fun m _ _ => m;
     sample_all := fun _ _ _ => [];
     device_get := fun _ x => x;
     RewardsShaper := unit;
     shape_rewards := fun _ r _ _ => r;
     Infos := unit;
     Tracker := list (string * R);
     track_data := fun t l v => t ++ [(l, v)];
     base_record_transition := fun t _ _ _ _ _ _ _ _ _ => t |}.

Definition hyper : hyperparameters :=
  {| _learning_epochs := 1;
     _mini_batches := 2;
     _rollouts := 16;
     _grad_norm_clip := 0.5;
     _ratio_clip := 0.2;
     _value_clip := 0.2;
     _clip_predicted_values := false;
     _value_loss_scale := 1;
     _entropy_loss_scale := 0;
     _kl_threshold := 0.5;
     _learning_rate_scheduler := Some KLAdaptiveRL;
     _discount_factor := 0.99;
     _lambda := 0.95;
     _random_timesteps := 10;
     _learning_starts := 0;
     _rewards_shaper := None;
     _jax := true |}.

(** An agent before its first stochastic action: nothing is cached. *)
Definition agent : ppo :=
  {| policy := 0%R;
     value := 0%R;
     policy_optimizer := 0;
     value_optimizer := 0;
     scheduler := Some 0.001%R;
     memory := Some [];
     secondary_memories := [[]; []];
     _state_preprocessor := None;
     _value_preprocessor := None;
     _current_log_prob := None;
     _current_next_states := None;
     tracker := [] |}.

End Demo.

(** ** Invariant of the loop of [compute_gae] *)

Section GAE_Invariant.
Context {F : Type} `{Num F}.
Variables (rewards : list F) (dones : list bool) (values : list F).
Variables (discount_factor lambda_coefficient bootstrap : F).

(** The right-hand side of line 100. *)
Definition gae_line_100 (r : F) (d : bool) (v nv a : F) : F :=
  num_add (num_sub r v)
    (num_mul (num_mul discount_factor (of_bool (negb d)))
       (num_add nv (num_mul lambda_coefficient a))).

(** What the entry [i] of [advs] has to be: computed from the bootstrap
    value and 0 at the last index, and from the value and the entry of the
    index that follows anywhere else. *)
Definition gae_step_ok (advs : list F) (i : nat) : Prop :=
  forall r d v,
    rewards !! i = Some r -> dones !! i = Some d -> values !! i = Some v ->
    (S i = length rewards ->
     advs !! i = Some (gae_line_100 r d v bootstrap num_zero)) /\
    (forall v' a',
        values !! S i = Some v' -> advs !! S i = Some a' ->
        advs !! i = Some (gae_line_100 r d v v' a')).

(** The state of the loop once the indices [k], ..., [T - 1] have been
    visited. *)
Definition gae_invariant (k : nat) (st : gae_state) : Prop :=
  length (gs_advantages st) = length rewards /\
  (k = length rewards ->
   gs_next_values st = bootstrap /\ gs_advantage st = num_zero) /\
  (k < length rewards -> gs_advantages st !! k = Some (gs_advantage st)) /\
  (forall i, k <= i < length rewards -> gae_step_ok (gs_advantages st) i).
End GAE_Invariant.

(** ** Statements about the losses *)

Section LossStatements.
Context `{Collaborators}.

(** A policy whose log-probabilities are those of [policy_act] plus [c]. *)
Definition shifted_policy (c : R)
    (policy_act : ModelParams -> States -> Actions -> Actions * list R * Outputs)
  : ModelParams -> States -> Actions -> Actions * list R * Outputs :=
  fun params states actions =>
    let '(a, log_prob, outputs) := policy_act params states actions in
    (a, map (fun x => (x + c)%R) log_prob, outputs).

(** The loss among the results of [_update_policy]. *)
Definition policy_loss_of (r : result (Grad * R * R)) : result R :=
  let? '(_, policy_loss, _) := r in Ok policy_loss.
End LossStatements.

(** ** Statements about the agent *)

Section AgentStatements.
Context `{Collaborators}.

(** The same hyperparameters with another [grad_norm_clip]. *)
Definition set__grad_norm_clip (x : R) (h : hyperparameters) : hyperparameters :=
  {| _learning_epochs := _learning_epochs h;
     _mini_batches := _mini_batches h;
     _rollouts := _rollouts h;
     _grad_norm_clip := x;
     _ratio_clip := _ratio_clip h;
     _value_clip := _value_clip h;
     _clip_predicted_values := _clip_predicted_values h;
     _value_loss_scale := _value_loss_scale h;
     _entropy_loss_scale := _entropy_loss_scale h;
     _kl_threshold := _kl_threshold h;
     _learning_rate_scheduler := _learning_rate_scheduler h;
     _discount_factor := _discount_factor h;
     _lambda := _lambda h;
     _random_timesteps := _random_timesteps h;
     _learning_starts := _learning_starts h;
     _rewards_shaper := _rewards_shaper h;
     _jax := _jax h |}.

(** Optimizer steps in a log of calls. *)
Definition is_policy_step (c : call) : bool :=
  match c with
  | PolicyOptimizerStep _ _ => true
  | _ => false
  end.

Definition is_value_step (c : call) : bool :=
  match c with
  | ValueOptimizerStep _ _ => true
  | _ => false
  end.

(** The local variables of [_update] with another list of KL divergences. *)
Definition with_kl_divergences (kls : list R) (u : update_state)
  : update_state :=
  {| us_agent := us_agent u;
     us_kl_divergences := kls;
     us_cumulative_policy_loss := us_cumulative_policy_loss u;
     us_cumulative_entropy_loss := us_cumulative_entropy_loss u;
     us_cumulative_value_loss := us_cumulative_value_loss u;
     us_calls := us_calls u |}.

Definition policy_steps (calls : list call) : nat :=
  length (List.filter is_policy_step calls).

Definition value_steps (calls : list call) : nat :=
  length (List.filter is_value_step calls).
End AgentStatements.

Module DemoRun.
Import Demo.

(** The local variables of [_update] before the first epoch. *)
Definition start : update_state :=
  {| us_agent := agent;
     us_kl_divergences := [];
     us_cumulative_policy_loss := 0;
     us_cumulative_entropy_loss := 0;
     us_cumulative_value_loss := 0;
     us_calls := [] |}.

(** Three mini-batches of one sample each. The constant policy gives every
    action the log-probability 2: the first mini-batch was sampled with that
    log-probability, the other two with the log-probability 0. *)
Definition batch0 : States * Actions * list R * list R * list R * list R :=
  (0, tt, [2%R], [0%R], [0%R], [1%R]).
Definition batch1 : States * Actions * list R * list R * list R * list R :=
  (1, tt, [0%R], [0%R], [0%R], [1%R]).
Definition batch2 : States * Actions * list R * list R * list R * list R :=
  (2, tt, [0%R], [0%R], [0%R], [1%R]).

End DemoRun.

(** ** Statements about the estimator on tensors *)

(** The tensor of one environment that holds a trajectory: one row of a
    single entry for each time step. *)
Definition column {A : Type} (xs : list A) : list (list A) :=
  map (fun x => [x]) xs.

(** The trajectory of environment [j] in a tensor: the entry [j] of every
    row that has one. *)
Definition environment {A : Type} (j : nat) (xss : list (list A)) : list A :=
  omap (fun row => row !! j) xss.

(** Every row of a tensor has [n] entries. *)
Definition rows_of {A : Type} (n : nat) (xss : list (list A)) : Prop :=
  Forall (fun row => length row = n) xss.

(** [f] applied to the value a computation returns. *)
Definition result_map {A B : Type} (f : A -> B) (r : result A) : result B :=
  let? x := r in Ok (f x).

(** The state of the loop on one trajectory, as a state of the loop on
    tensors. *)
Definition lift_state {F : Type} (st : @gae_state F) : @Rollout.gae_state F :=
  {| Rollout.gs_next_values := [gs_next_values st];
     Rollout.gs_advantage := [gs_advantage st];
     Rollout.gs_advantages := column (gs_advantages st) |}.

(** An operand of a broadcast operation among rows of [n] entries: a row of
    [n] entries, or a single entry that is stretched. *)
Definition fits {A : Type} (n : nat) (xs : list A) : Prop :=
  length xs = n \/ length xs = 1.

(** The entry such an operand contributes to environment [j]. *)
Definition stretched {A : Type} (n j : nat) (xs : list A) : option A :=
  if decide (length xs = n) then xs !! j else xs !! 0.

(** The shape of the state of the loop on tensors of [T] rows of [n]
    entries. *)
Definition rollout_shape {F : Type} (n T : nat) (st : @Rollout.gae_state F)
  : Prop :=
  length (Rollout.gs_next_values st) = n
  /\ fits n (Rollout.gs_advantage st)
  /\ length (Rollout.gs_advantages st) = T
  /\ rows_of n (Rollout.gs_advantages st).

(** The state of the loop on the trajectory of environment [j], read off
    the state of the loop on tensors. *)
Definition tracks {F : Type} (n j : nat) (st : @Rollout.gae_state F)
    (st_j : @gae_state F) : Prop :=
  Rollout.gs_next_values st !! j = Some (gs_next_values st_j)
  /\ stretched n j (Rollout.gs_advantage st) = Some (gs_advantage st_j)
  /\ environment j (Rollout.gs_advantages st) = gs_advantages st_j.

(** ** An instance with two environments

    As [Demo], with states that are one observation for each environment, a
    value model that returns one value for each environment, and a memory
    that is sampled into one mini-batch. *)

Module DemoTwo.

#[export] Instance collaborators : Collaborators :=
  {| States := list R;
     Actions := unit;
     Outputs := unit;
     ModelParams := R;
     Grad := unit;
     RandomActions := nat;
     PolicyModel := R;
     ValueModel := R;
     Optimizer := nat;
     Scheduler := R;
     StatePreprocessor := unit;
     ValuePreprocessor := unit;
     Memory := list (samples (list R) unit);
     policy_act := fun _ _ s _ => (tt, map (fun _ => 2%R) s, tt);
     policy_random_act := fun _ s => length s;
     policy_params := fun m => m;
     policy_get_entropy := fun _ => [];
     value_act := fun _ _ s => s;
     none_states := [];
     value_params := fun m => m;
     value_set_training := fun m _ => m;
     jax_grad := fun _ _ => tt;
     policy_optimizer_step := fun o _ m _ => (S o, m);
     value_optimizer_step := fun o _ m _ => (S o, m);
     scheduler_step := fun _ kl => kl;
     scheduler_lr := fun s => s;
     state_preprocess := fun p x _ => (x, p);
     value_preprocess := fun p x _ _ => (x, p);
     value_preprocess_rollout := fun p x _ _ => (x, p);
     add_samples := fun m s => m ++ [s];
     get_tensor_by_name := fun m name =>
       if String.eqb name "rewards" then map smp_rewards m
       else if String.eqb name "values" then map smp_values m
       else [];
     get_flags_by_name := fun m name =>
       if String.eqb name "terminated" then map smp_terminated m else [];
     set_tensor_by_name := fun m _ _ => m;
     sample_all := fun m _ _ =>
       match m with
       | [] => []
       | s :: _ =>
           [(smp_states s, tt, [2%R; 2%R], smp_values s, smp_values s,
             smp_rewards s)]
       end;
     device_get := fun _ x => x;
     RewardsShaper := unit;
     shape_rewards := fun _ r _ _ => r;
     Infos := unit;
     Tracker := list (string * R);
     track_data := fun t l v => t ++ [(l, v)];
     base_record_transition := fun t _ _ _ _ _ _ _ _ _ => t |}.

Definition hyper : hyperparameters :=
  {| _learning_epochs := 1;
     _mini_batches := 1;
     _rollouts := 2;
     _grad_norm_clip := 0.5;
     _ratio_clip := 0.2;
     _value_clip := 0.2;
     _clip_predicted_values := false;
     _value_loss_scale := 1;
     _entropy_loss_scale := 0;
     _kl_threshold := 0.5;
     _learning_rate_scheduler := Some KLAdaptiveRL;
     _discount_factor := 0.99;
     _lambda := 0.95;
     _random_timesteps := 0;
     _learning_starts := 0;
     _rewards_shaper := None;
     _jax := true |}.

(** An agent with an empty memory. *)
Definition agent : ppo :=
  {| policy := 0%R;
     value := 0%R;
     policy_optimizer := 0;
     value_optimizer := 0;
     scheduler := Some 0.001%R;
     memory := Some [];
     secondary_memories := [];
     _state_preprocessor := None;
     _value_preprocessor := None;
     _current_log_prob := Some [2%R; 2%R];
     _current_next_states := None;
     tracker := [] |}.

(** The agent after two transitions of two environments. *)
Definition rollout : ppo :=
  let a :=
    record_transition hyper agent [1; 2]%R tt [1; 0]%R [3; 4]%R
      [false; false] [false; false] tt 0 2 in
  record_transition hyper a [3; 4]%R tt [0; 1]%R [5; 6]%R
    [false; true] [false; false] tt 1 2.

(** The memory and the attributes of that agent. *)
Definition rollout_memory : Memory :=
  [{| smp_states := [1; 2]%R; smp_actions := tt; smp_rewards := [1; 0]%R;
      smp_next_states := [3; 4]%R; smp_terminated := [false; false];
      smp_truncated := [false; false]; smp_log_prob := Some [2; 2]%R;
      smp_values := [1; 2]%R |};
   {| smp_states := [3; 4]%R; smp_actions := tt; smp_rewards := [0; 1]%R;
      smp_next_states := [5; 6]%R; smp_terminated := [false; true];
      smp_truncated := [false; false]; smp_log_prob := Some [2; 2]%R;
      smp_values := [3; 4]%R |}].

Definition rollout_agent : ppo :=
  {| policy := 0%R;
     value := 0%R;
     policy_optimizer := 0;
     value_optimizer := 0;
     scheduler := Some 0.001%R;
     memory := Some rollout_memory;
     secondary_memories := [];
     _state_preprocessor := None;
     _value_preprocessor := None;
     _current_log_prob := Some [2%R; 2%R];
     _current_next_states := Some [5; 6]%R;
     tracker := [] |}.

(** The local variables of [_update] before the first epoch. *)
Definition start : update_state :=
  {| us_agent := rollout_agent;
     us_kl_divergences := [];
     us_cumulative_policy_loss := 0;
     us_cumulative_entropy_loss := 0;
     us_cumulative_value_loss := 0;
     us_calls := [] |}.

(** The same before the first epoch of an agent without a scheduler. *)
Definition start_no_scheduler : update_state :=
  {| us_agent := set_scheduler None rollout_agent;
     us_kl_divergences := [];
     us_cumulative_policy_loss := 0;
     us_cumulative_entropy_loss := 0;
     us_cumulative_value_loss := 0;
     us_calls := [] |}.

(** The hyperparameters with no learning epoch. *)
Definition hyper_no_epochs : hyperparameters :=
  {| _learning_epochs := 0;
     _mini_batches := 1;
     _rollouts := 2;
     _grad_norm_clip := 0.5;
     _ratio_clip := 0.2;
     _value_clip := 0.2;
     _clip_predicted_values := false;
     _value_loss_scale := 1;
     _entropy_loss_scale := 0;
     _kl_threshold := 0.5;
     _learning_rate_scheduler := Some KLAdaptiveRL;
     _discount_factor := 0.99;
     _lambda := 0.95;
     _random_timesteps := 0;
     _learning_starts := 0;
     _rewards_shaper := None;
     _jax := true |}.

End DemoTwo.

(** ** Further statements about the update cycle *)

Section UpdateStatements.
Context `{Collaborators}.

(** Scheduler steps in a log of calls. *)
Definition is_scheduler_step (c : call) : bool :=
  match c with
  | SchedulerStep _ => true
  | _ => false
  end.

Definition scheduler_steps (calls : list call) : nat :=
  length (List.filter is_scheduler_step calls).

(** The learning-rate argument of an optimizer step. *)
Definition step_lr (c : call) : option (option R) :=
  match c with
  | PolicyOptimizerStep _ lr => Some lr
  | ValueOptimizerStep _ lr => Some lr
  | SchedulerStep _ => None
  end.

(** The same hyperparameters with another [entropy_loss_scale]. *)
Definition set__entropy_loss_scale (x : R) (h : hyperparameters)
  : hyperparameters :=
  {| _learning_epochs := _learning_epochs h;
     _mini_batches := _mini_batches h;
     _rollouts := _rollouts h;
     _grad_norm_clip := _grad_norm_clip h;
     _ratio_clip := _ratio_clip h;
     _value_clip := _value_clip h;
     _clip_predicted_values := _clip_predicted_values h;
     _value_loss_scale := _value_loss_scale h;
     _entropy_loss_scale := x;
     _kl_threshold := _kl_threshold h;
     _learning_rate_scheduler := _learning_rate_scheduler h;
     _discount_factor := _discount_factor h;
     _lambda := _lambda h;
     _random_timesteps := _random_timesteps h;
     _learning_starts := _learning_starts h;
     _rewards_shaper := _rewards_shaper h;
     _jax := _jax h |}.

(** The local variables of [_update] but for [cumulative_entropy_loss]. *)
Definition without_entropy_loss (u : update_state)
  : ppo * list R * R * R * list call :=
  (us_agent u, us_kl_divergences u, us_cumulative_policy_loss u,
   us_cumulative_value_loss u, us_calls u).

(** Lines 468-533: the loop over the learning epochs. *)
Definition learning_epochs_loop (h : hyperparameters)
    (sampled_batches :
       list (States * Actions * list R * list R * list R * list R))
    (u : update_state) : result update_state :=
  for_each (learning_epoch h sampled_batches)
    (seq 0 (Z.to_nat (_learning_epochs h))) u.
End UpdateStatements.

(** ** Statements about the gradient of the value loss *)

(** The value loss as a function of the prediction for sample [i], the
    other predictions being fixed (0 where the loss raises). *)
Definition value_loss_along
    (sampled_values sampled_returns : list R) (value_loss_scale : R)
    (clip_predicted_values : bool) (value_clip : R)
    (predicted_values : list R) (i : nat) (t : R) : R :=
  match value_loss_of sampled_values sampled_returns value_loss_scale
          clip_predicted_values value_clip (<[i := t]> predicted_values) with
  | Ok loss => loss
  | Raise _ => 0%R
  end.

(** The prediction that enters the loss for a sampled value [o] and a
    prediction [p] of the model. *)
Definition entering (clip_predicted_values : bool) (value_clip o p : R) : R :=
  if clip_predicted_values
  then (o + clip (p - o) (- value_clip) value_clip)%R
  else p.

(** * Properties *)

(** ** The advantage estimator *)

Lemma index_ok {A : Type} (a : list A) (i : nat) (x : A) :
  a !! i = Some x -> index a i = Ok x.
Proof. unfold index. intros ->. reflexivity. Qed.

Lemma of_bool_negb {F : Type} `{Num F} (d : bool) :
  num_sub num_one num_one = num_zero ->
  num_sub num_one num_zero = num_one ->
  of_bool (negb d) = num_sub num_one (of_bool d).
Proof. intros H1 H0. destruct d; simpl; symmetry; assumption. Qed.

Section GAE_Correct.
Context {F : Type} `{Num F}.
Variables (rewards : list F) (dones : list bool) (values : list F).
Variables (discount_factor lambda_coefficient bootstrap : F).
Hypothesis dones_length : length dones = length rewards.
Hypothesis values_length : length values = length rewards.

Local Abbreviation T := (length rewards).
Local Abbreviation step_ok :=
  (gae_step_ok rewards dones values discount_factor lambda_coefficient bootstrap).
Local Abbreviation gae_inv :=
  (gae_invariant rewards dones values discount_factor lambda_coefficient
     bootstrap).

Lemma gae_step_inv (k : nat) (st : gae_state) :
  S k <= T -> gae_inv (S k) st ->
  exists st', gae_step rewards dones values discount_factor lambda_coefficient k st = Ok st'
              /\ gae_inv k st'.
Proof.
  intros Hk (Hlen & Hlast & Hacc & Hdone).
  destruct (lookup_lt_is_Some_2 rewards k) as [r Hr]; [fold T; lia|].
  destruct (lookup_lt_is_Some_2 values k) as [v Hv]; [rewrite values_length; fold T; lia|].
  destruct (lookup_lt_is_Some_2 dones k) as [d Hd]; [rewrite dones_length; fold T; lia|].
  assert (Hnd : not_dones dones !! k = Some (negb d)).
  { unfold not_dones. rewrite list_lookup_fmap, Hd. reflexivity. }
  assert (Hstep : forall nv,
    (k < T - 1 -> values !! S k = Some nv) ->
    (S k = T -> nv = bootstrap) ->
    gae_inv k
      {| gs_next_values := nv;
         gs_advantage :=
           num_add (num_sub r v)
             (num_mul (num_mul discount_factor (of_bool (negb d)))
                (num_add nv (num_mul lambda_coefficient (gs_advantage st))));
         gs_advantages :=
           <[k := num_add (num_sub r v)
             (num_mul (num_mul discount_factor (of_bool (negb d)))
                (num_add nv (num_mul lambda_coefficient (gs_advantage st))))]>
             (gs_advantages st) |}).
  { intros nv Hnv1 Hnv2. unfold gae_invariant, gae_step_ok, gae_line_100; simpl.
    split; [rewrite length_insert; exact Hlen|].
    split; [intros ->; lia|].
    split; [intros _; apply list_lookup_insert_eq; lia|].
    intros i Hi r0 d0 v0 Hr0 Hd0 Hv0.
    destruct (decide (i = k)) as [->|Hne].
    - assert (r0 = r) as -> by congruence.
      assert (d0 = d) as -> by congruence.
      assert (v0 = v) as -> by congruence.
      rewrite list_lookup_insert_eq by lia.
      split.
      + intros Hk'. destruct (Hlast Hk') as [_ Hadv].
        rewrite Hadv, (Hnv2 Hk'). reflexivity.
      + intros v' a' Hv' Ha'.
        rewrite list_lookup_insert_ne in Ha' by lia.
        assert (HSk : S k < T).
        { apply lookup_lt_Some in Hv'. rewrite values_length in Hv'. exact Hv'. }
        rewrite (Hacc HSk) in Ha'.
        rewrite (Hnv1 ltac:(lia)) in Hv'.
        assert (nv = v') as -> by congruence.
        assert (gs_advantage st = a') as -> by congruence.
        reflexivity.
    - rewrite !list_lookup_insert_ne by lia.
      apply (Hdone i ltac:(lia) r0 d0 v0); assumption. }
  unfold gae_step, memory_size. fold T.
  destruct (Nat.ltb_spec k (T - 1)) as [Hlt|Hge].
  - destruct (lookup_lt_is_Some_2 values (k + 1)) as [v' Hv'];
      [rewrite values_length; fold T; lia|].
    rewrite (index_ok _ _ _ Hv'). simpl.
    rewrite (index_ok _ _ _ Hr), (index_ok _ _ _ Hv), (index_ok _ _ _ Hnd).
    simpl. eexists. split; [reflexivity|].
    apply Hstep; [|lia].
    intros _. rewrite <- Hv'. f_equal. lia.
  - simpl.
    rewrite (index_ok _ _ _ Hr), (index_ok _ _ _ Hv), (index_ok _ _ _ Hnd).
    simpl. eexists. split; [reflexivity|].
    apply Hstep; [lia|].
    intros Hk'. apply (Hlast Hk').
Qed.

Lemma gae_loop_inv (k : nat) (st : gae_state) :
  k <= T -> gae_inv k st ->
  exists st',
    for_each (gae_step rewards dones values discount_factor lambda_coefficient)
      (rev (seq 0 k)) st = Ok st'
    /\ gae_inv 0 st'.
Proof.
  induction k as [|k IH] in st |- *; intros Hk Hinv.
  - exists st. split; [reflexivity | exact Hinv].
  - rewrite seq_S, rev_app_distr. simpl.
    destruct (gae_step_inv k st Hk Hinv) as (st1 & Hst1 & Hinv1).
    rewrite Hst1. simpl. apply IH; [lia | exact Hinv1].
Qed.

Lemma gae_inv_init :
  gae_inv T
    {| gs_next_values := bootstrap;
       gs_advantage := num_zero;
       gs_advantages := replicate T num_zero |}.
Proof.
  unfold gae_invariant, gae_step_ok, gae_line_100; simpl.
  split; [apply length_replicate|].
  split; [auto|].
  split; [lia|].
  intros i Hi; lia.
Qed.

Lemma gae_loop_ok :
  exists st,
    gae_loop rewards dones values discount_factor lambda_coefficient bootstrap
    = Ok st
    /\ gae_inv 0 st.
Proof.
  unfold gae_loop, memory_size. fold T.
  apply gae_loop_inv; [lia | apply gae_inv_init].
Qed.

Lemma gae_loop_advantages :
  exists st,
    gae_loop rewards dones values discount_factor lambda_coefficient bootstrap
    = Ok st
    /\ length (gs_advantages st) = length rewards
    /\ forall i, i < length rewards -> step_ok (gs_advantages st) i.
Proof.
  destruct gae_loop_ok as (st & Hst & Hlen & _ & _ & Hall).
  exists st. split; [exact Hst|]. split; [exact Hlen|].
  intros i Hi. apply Hall. fold T. lia.
Qed.
End GAE_Correct.

(** C1. The loop of [compute_gae] succeeds on arrays of equal length, and
    the array [advantages] it leaves satisfies the backward recurrence: the
    entry of the last step is computed from the bootstrap value and the
    accumulator 0, the entry of any other step [i] from [values[i + 1]] and
    the entry [i + 1], by
    [reward - value + discount * (1 - done) * (next_value + lambda * advantage)]. *)
Theorem gae_backward_pass {F : Type} `{Num F}
    (rewards : list F) (dones : list bool) (values : list F)
    (discount_factor lambda_coefficient next_values : F) :
  length dones = length rewards ->
  length values = length rewards ->
  num_sub num_one num_one = num_zero ->
  num_sub num_one num_zero = num_one ->
  exists st,
    gae_loop rewards dones values discount_factor lambda_coefficient
      next_values = Ok st
    /\ length (gs_advantages st) = length rewards
    /\ forall i reward done value,
         rewards !! i = Some reward ->
         dones !! i = Some done ->
         values !! i = Some value ->
         (S i = length rewards ->
          gs_advantages st !! i
          = Some (gae_recurrence discount_factor lambda_coefficient
                    reward done value next_values num_zero))
         /\ (forall next_value advantage,
               values !! S i = Some next_value ->
               gs_advantages st !! S i = Some advantage ->
               gs_advantages st !! i
               = Some (gae_recurrence discount_factor lambda_coefficient
                         reward done value next_value advantage)).
Proof.
  intros Hd Hv H1 H0.
  destruct (gae_loop_advantages rewards dones values discount_factor
              lambda_coefficient next_values Hd Hv)
    as (st & Hst & Hlen & Hall).
  exists st. split; [exact Hst|]. split; [exact Hlen|].
  intros i r d v Hr Hdn Hvl.
  assert (Hi : i < length rewards) by (eapply lookup_lt_Some; exact Hr).
  unfold gae_recurrence. rewrite <- (of_bool_negb d H1 H0).
  exact (Hall i Hi r d v Hr Hdn Hvl).
Qed.

Lemma gae_backward_pass_witness :
  exists st,
    gae_loop [1; 2; 3]%Z [false; false; true] [10; 20; 30]%Z 2%Z 3%Z 100%Z
    = Ok st
    /\ length (gs_advantages st) = 3
    /\ forall i reward done value,
         [1; 2; 3]%Z !! i = Some reward ->
         [false; false; true] !! i = Some done ->
         [10; 20; 30]%Z !! i = Some value ->
         (S i = 3 ->
          gs_advantages st !! i
          = Some (gae_recurrence 2%Z 3%Z reward done value 100%Z 0%Z))
         /\ (forall next_value advantage,
               [10; 20; 30]%Z !! S i = Some next_value ->
               gs_advantages st !! S i = Some advantage ->
               gs_advantages st !! i
               = Some (gae_recurrence 2%Z 3%Z reward done value next_value
                         advantage)).
Proof.
  exact (gae_backward_pass (F := Z)
           [1; 2; 3]%Z [false; false; true] [10; 20; 30]%Z 2%Z 3%Z 100%Z
           eq_refl eq_refl eq_refl eq_refl).
Defined.


(** The four-step trajectory with rewards 1, values 0.5, bootstrap 0.5 and
    the last step terminal, at discount 0.99 and lambda 0.95: the last
    advantage is [1 - 0.5], the continuation being masked, and the others
    follow the recurrence backwards (3.2268701013125, 2.373067625, 1.46525
    and 0.5, in lowest terms). *)
Example gae_four_steps :
  gae_loop (F := Q) [1; 1; 1; 1]%Q [false; false; false; true]
    [0.5; 0.5; 0.5; 0.5]%Q 0.99%Q 0.95%Q 0.5%Q
  = Ok {| gs_next_values := 0.5%Q;
          gs_advantage := (51629921621 # 16000000000)%Q;
          gs_advantages :=
            [51629921621 # 16000000000; 18984541 # 8000000; 5861 # 4000;
             1 # 2]%Q |}.
Proof. vm_compute. reflexivity. Qed.

(** ** Returns *)

Lemma lookup_map {A B : Type} (f : A -> B) (l : list A) (i : nat) :
  map f l !! i = f <$> (l !! i).
Proof. exact (list_lookup_fmap f l i). Qed.

Lemma broadcast_lookup {A : Type} (f : A -> A -> A) (xs ys zs : list A) :
  broadcast f xs ys = Ok zs ->
  forall i x y, xs !! i = Some x -> ys !! i = Some y -> zs !! i = Some (f x y).
Proof.
  unfold broadcast. intros Hb i x y Hx Hy.
  destruct (decide (length xs = length ys)) as [Hlen|Hlen].
  - injection Hb as <-. rewrite lookup_zip_with, Hx. simpl. rewrite Hy. reflexivity.
  - destruct xs as [|x0 [|x1 xs]].
    + discriminate Hx.
    + injection Hb as <-. destruct i as [|i]; [|discriminate Hx].
      injection Hx as ->. rewrite lookup_map, Hy. reflexivity.
    + destruct ys as [|y0 [|y1 ys]]; try discriminate Hb.
      injection Hb as <-. destruct i as [|i]; [|discriminate Hy].
      injection Hy as ->. simpl in Hx |- *. congruence.
Qed.

Lemma broadcast_same_length {A : Type} (f : A -> A -> A) (xs ys : list A) :
  length xs = length ys -> broadcast f xs ys = Ok (zip_with f xs ys).
Proof. intros Hlen. unfold broadcast. rewrite decide_True by exact Hlen. reflexivity. Qed.

(** C6. Whenever [compute_gae] returns, on any input, the returned advantages
    are the normalised entries of the array left by the loop, and every
    entry of [returns] is the entry of that array, before normalisation,
    plus the value of the same step; on arrays of equal length it does
    return, and [returns] has that length. *)
Theorem compute_gae_returns {F : Type} `{NumStats F}
    (rewards : list F) (dones : list bool) (values : list F)
    (discount_factor lambda_coefficient next_values : F) :
  (forall returns advantages,
      compute_gae rewards dones values next_values discount_factor
        lambda_coefficient = Ok (returns, advantages) ->
      exists st,
        gae_loop rewards dones values discount_factor lambda_coefficient
          next_values = Ok st
        /\ advantages
           = map (fun x =>
                    num_div (num_sub x (np_mean (gs_advantages st)))
                      (num_add (np_std (gs_advantages st)) num_1e_8))
               (gs_advantages st)
        /\ forall i advantage value,
             gs_advantages st !! i = Some advantage ->
             values !! i = Some value ->
             returns !! i = Some (num_add advantage value))
  /\ (length dones = length rewards ->
      length values = length rewards ->
      exists returns advantages,
        compute_gae rewards dones values next_values discount_factor
          lambda_coefficient = Ok (returns, advantages)
        /\ length returns = length rewards).
Proof.
  split.
  - intros returns advantages. unfold compute_gae.
    destruct (gae_loop rewards dones values discount_factor lambda_coefficient
                next_values) as [st|e]; simpl; [|discriminate].
    destruct (broadcast num_add (gs_advantages st) values) as [rs|e] eqn:Hb;
      simpl; [|discriminate].
    intros [= <- <-]. exists st. split; [reflexivity|]. split; [reflexivity|].
    apply (broadcast_lookup _ _ _ _ Hb).
  - intros Hd Hv.
    destruct (gae_loop_advantages rewards dones values discount_factor
                lambda_coefficient next_values Hd Hv) as (st & Hst & Hlen & _).
    unfold compute_gae. rewrite Hst. simpl.
    rewrite broadcast_same_length by congruence. simpl.
    eexists _, _. split; [reflexivity|].
    rewrite length_zip_with. lia.
Qed.

Lemma compute_gae_returns_witness :
  exists returns advantages,
    compute_gae (F := R) [1; 1]%R [false; true] [0.5; 0.5]%R 0.5%R 0.99%R
      0.95%R = Ok (returns, advantages)
    /\ (exists st,
          gae_loop (F := R) [1; 1]%R [false; true] [0.5; 0.5]%R 0.99%R 0.95%R
            0.5%R = Ok st
          /\ advantages
             = map (fun x =>
                      num_div (num_sub x (np_mean (gs_advantages st)))
                        (num_add (np_std (gs_advantages st)) num_1e_8))
                 (gs_advantages st)
          /\ forall i advantage value,
               gs_advantages st !! i = Some advantage ->
               [0.5; 0.5]%R !! i = Some value ->
               returns !! i = Some (num_add advantage value))
    /\ length returns = 2.
Proof.
  destruct (compute_gae_returns (F := R) [1; 1]%R [false; true] [0.5; 0.5]%R
              0.99%R 0.95%R 0.5%R) as [Hany Hsame].
  destruct (Hsame eq_refl eq_refl) as (returns & advantages & Heq & Hlen).
  exists returns, advantages.
  split; [exact Heq|]. split; [exact (Hany _ _ Heq) | exact Hlen].
Defined.

(** C2. On a one-step trajectory the eager estimator returns a pair of
    arrays, whereas the jitted variant raises [NotImplementedError]: the
    two do not agree. *)
Theorem compiled_gae_not_implemented :
  _compute_gae (F := R) [1%R] [true] [0%R] 0%R 0.99%R 0.95%R
  = Raise NotImplementedError
  /\ exists returns advantages,
       compute_gae (F := R) [1%R] [true] [0%R] 0%R 0.99%R 0.95%R
       = Ok (returns, advantages).
Proof.
  split; [reflexivity|].
  eexists _, _. reflexivity.
Qed.

(** ** Normalisation of the advantages *)

Section Normalisation.
Local Open Scope R_scope.

Lemma Rsum_map_affine (m c : R) (xs : list R) :
  Rsum (map (fun x => (x - m) / c) xs) = (Rsum xs - INR (length xs) * m) / c.
Proof.
  induction xs as [|x xs IH].
  - simpl. unfold Rdiv. ring.
  - change (Rsum (map (fun x => (x - m) / c) (x :: xs)))
      with ((x - m) / c + Rsum (map (fun x => (x - m) / c) xs)).
    change (Rsum (x :: xs)) with (x + Rsum xs).
    rewrite IH. change (length (x :: xs)) with (S (length xs)).
    rewrite S_INR. unfold Rdiv. ring.
Qed.

Lemma Rsum_map_scale (g : R -> R) (c : R) (xs : list R) :
  Rsum (map (fun x => g x / c) xs) = Rsum (map g xs) / c.
Proof.
  induction xs as [|x xs IH].
  - simpl. unfold Rdiv. ring.
  - change (Rsum (map (fun x => g x / c) (x :: xs)))
      with (g x / c + Rsum (map (fun x => g x / c) xs)).
    change (Rsum (map g (x :: xs))) with (g x + Rsum (map g xs)).
    rewrite IH. unfold Rdiv. ring.
Qed.

Lemma INR_length_pos {A : Type} (xs : list A) : xs <> [] -> 0 < INR (length xs).
Proof.
  destruct xs as [|x xs]; [congruence|]. intros _.
  apply lt_0_INR. simpl. lia.
Qed.

Lemma Rstd_nonneg (xs : list R) : 0 <= Rstd xs.
Proof. apply sqrt_pos. Qed.

(** The divisor of line 105 is never zero. *)
Lemma divisor_pos (xs : list R) : 0 < Rstd xs + 1e-8.
Proof. pose proof (Rstd_nonneg xs). lra. Qed.

Lemma Rmean_normalised (c : R) (xs : list R) :
  xs <> [] -> Rmean (map (fun x => (x - Rmean xs) / c) xs) = 0.
Proof.
  intros Hne. pose proof (INR_length_pos xs Hne) as Hn.
  unfold Rmean at 1. rewrite Rsum_map_affine, length_map.
  unfold Rmean. unfold Rdiv.
  replace (Rsum xs - INR (length xs) * (Rsum xs * / INR (length xs)))
    with 0 by (field; lra).
  ring.
Qed.

Lemma Rstd_normalised (c : R) (xs : list R) :
  xs <> [] -> 0 < c ->
  Rstd (map (fun x => (x - Rmean xs) / c) xs) = Rstd xs / c.
Proof.
  intros Hne Hc. unfold Rstd at 1.
  rewrite (Rmean_normalised c xs Hne), map_map.
  replace (map (fun x => Rsqr ((x - Rmean xs) / c - 0)) xs)
    with (map (fun x => Rsqr (x - Rmean xs) / Rsqr c) xs).
  2:{ apply map_ext. intros x. unfold Rsqr. field; lra. }
  unfold Rmean at 1. rewrite Rsum_map_scale, length_map.
  replace (Rsum (map (fun x => Rsqr (x - Rmean xs)) xs) / Rsqr c
           / INR (length xs))
    with (Rmean (map (fun x => Rsqr (x - Rmean xs)) xs) / Rsqr c).
  2:{ unfold Rmean. rewrite length_map.
      pose proof (INR_length_pos xs Hne). unfold Rsqr. field. split; nra. }
  rewrite sqrt_div_alt by (unfold Rsqr; nra).
  rewrite (sqrt_Rsqr c) by lra. reflexivity.
Qed.

Lemma Rmean_constant (k : R) (xs : list R) :
  xs <> [] -> (forall x, In x xs -> x = k) -> Rmean xs = k.
Proof.
  intros Hne Hall. pose proof (INR_length_pos xs Hne) as Hn.
  assert (Hsum : Rsum xs = INR (length xs) * k).
  { clear Hne Hn. induction xs as [|x xs IH]; [simpl; ring|].
    change (Rsum (x :: xs)) with (x + Rsum xs).
    change (length (x :: xs)) with (S (length xs)).
    rewrite S_INR, IH by (intros y Hy; apply Hall; right; exact Hy).
    rewrite (Hall x) by (left; reflexivity). ring. }
  unfold Rmean. rewrite Hsum. field. lra.
Qed.

Lemma Rstd_constant (k : R) (xs : list R) :
  xs <> [] -> (forall x, In x xs -> x = k) -> Rstd xs = 0.
Proof.
  intros Hne Hall. unfold Rstd.
  rewrite (Rmean_constant k xs Hne Hall).
  rewrite (Rmean_constant 0 (map (fun x => Rsqr (x - k)) xs)).
  - apply sqrt_0.
  - destruct xs; [congruence | discriminate].
  - intros y Hy. apply in_map_iff in Hy as (x & <- & Hx).
    rewrite (Hall x Hx). unfold Rsqr. ring.
Qed.
End Normalisation.

(** C5, as the code has it. On non-empty arrays of equal length
    [compute_gae] returns [(x - mean) / (std + 1e-8)] for every raw
    advantage [x], with a divisor that is positive. Over the reals the
    returned advantages have mean 0 and standard deviation
    [std / (std + 1e-8)], where [std] is the standard deviation of the raw
    advantages; when the raw advantages are all equal, [std] is 0 and every
    returned advantage is 0. *)
Theorem compute_gae_normalisation
    (rewards : list R) (dones : list bool) (values : list R)
    (next_values discount_factor lambda_coefficient : R) :
  length dones = length rewards ->
  length values = length rewards ->
  rewards <> [] ->
  exists st returns advantages,
    gae_loop rewards dones values discount_factor lambda_coefficient
      next_values = Ok st
    /\ compute_gae rewards dones values next_values discount_factor
         lambda_coefficient = Ok (returns, advantages)
    /\ (0 < Rstd (gs_advantages st) + 1e-8)%R
    /\ advantages
       = map (fun x =>
                ((x - Rmean (gs_advantages st))
                 / (Rstd (gs_advantages st) + 1e-8))%R)
           (gs_advantages st)
    /\ Rmean advantages = 0%R
    /\ Rstd advantages
       = (Rstd (gs_advantages st) / (Rstd (gs_advantages st) + 1e-8))%R
    /\ ((forall x y, In x (gs_advantages st) -> In y (gs_advantages st) -> x = y) ->
        Rstd (gs_advantages st) = 0%R
        /\ forall x, In x advantages -> x = 0%R).
Proof.
  intros Hd Hv Hne.
  destruct (gae_loop_advantages rewards dones values discount_factor
              lambda_coefficient next_values Hd Hv) as (st & Hst & Hlen & _).
  exists st.
  assert (Hgae : compute_gae rewards dones values next_values discount_factor
                   lambda_coefficient
                 = Ok (zip_with Rplus (gs_advantages st) values,
                       map (fun x =>
                              ((x - Rmean (gs_advantages st))
                               / (Rstd (gs_advantages st) + 1e-8))%R)
                         (gs_advantages st))).
  { unfold compute_gae. rewrite Hst. simpl.
    rewrite broadcast_same_length by congruence. reflexivity. }
  revert Hlen Hgae. generalize (gs_advantages st) as raw. intros raw Hlen Hgae.
  assert (Hraw : raw <> []).
  { intros Hnil. rewrite Hnil in Hlen. destruct rewards; [congruence | discriminate]. }
  pose proof (divisor_pos raw) as Hdiv.
  eexists _, _. split; [exact Hst|]. split; [exact Hgae|].
  split; [exact Hdiv|].
  split; [reflexivity|].
  split; [apply Rmean_normalised; exact Hraw|].
  split; [apply Rstd_normalised; assumption|].
  intros Hconst.
  destruct raw as [|k raw']; [congruence|].
  assert (Hall : forall x, In x (k :: raw') -> x = k).
  { intros x Hx. apply Hconst; [exact Hx | left; reflexivity]. }
  split; [apply (Rstd_constant k); assumption|].
  intros x Hx. apply in_map_iff in Hx as (y & <- & Hy).
  rewrite (Rmean_constant k (k :: raw') Hraw Hall), (Hall y Hy).
  unfold Rdiv. ring.
Qed.

Lemma compute_gae_normalisation_witness :
  exists st returns advantages,
    gae_loop [1; 1]%R [false; true] [0.5; 0.5]%R 0.99%R 0.95%R 0.5%R = Ok st
    /\ compute_gae [1; 1]%R [false; true] [0.5; 0.5]%R 0.5%R 0.99%R 0.95%R
       = Ok (returns, advantages)
    /\ (0 < Rstd (gs_advantages st) + 1e-8)%R
    /\ advantages
       = map (fun x =>
                ((x - Rmean (gs_advantages st))
                 / (Rstd (gs_advantages st) + 1e-8))%R)
           (gs_advantages st)
    /\ Rmean advantages = 0%R
    /\ Rstd advantages
       = (Rstd (gs_advantages st) / (Rstd (gs_advantages st) + 1e-8))%R
    /\ ((forall x y, In x (gs_advantages st) -> In y (gs_advantages st) -> x = y) ->
        Rstd (gs_advantages st) = 0%R
        /\ forall x, In x advantages -> x = 0%R).
Proof.
  apply (compute_gae_normalisation [1; 1]%R [false; true] [0.5; 0.5]%R
           0.5%R 0.99%R 0.95%R);
    [reflexivity | reflexivity | discriminate].
Defined.

Lemma Rstd_two_point : Rstd [2e-8; 0]%R = 1e-8%R.
Proof.
  unfold Rstd.
  assert (Hm : Rmean [2e-8; 0]%R = 1e-8%R).
  { unfold Rmean, Rsum. simpl. lra. }
  rewrite Hm.
  replace (Rmean (map (fun x => Rsqr (x - 1e-8)) [2e-8; 0]%R))
    with (Rsqr 1e-8).
  - apply sqrt_Rsqr. lra.
  - unfold Rmean, Rsum, Rsqr. simpl. lra.
Qed.

Lemma gae_loop_two_point :
  gae_loop [2e-8; 0]%R [true; true] [0; 0]%R 0.99%R 0.95%R 0%R
  = Ok {| gs_next_values := 0%R;
          gs_advantage := 2e-8%R;
          gs_advantages := [2e-8; 0]%R |}.
Proof.
  unfold gae_loop, memory_size. simpl.
  f_equal. f_equal; [lra|]. f_equal; [lra|]. f_equal. lra.
Qed.

(** C5 as stated fails: two rewards of variance [1e-16] give raw advantages
    of standard deviation [1e-8], which is not zero, and returned
    advantages of standard deviation 1/2. *)
Lemma normalised_std_counterexample :
  exists st returns advantages,
    gae_loop [2e-8; 0]%R [true; true] [0; 0]%R 0.99%R 0.95%R 0%R = Ok st
    /\ compute_gae [2e-8; 0]%R [true; true] [0; 0]%R 0%R 0.99%R 0.95%R
       = Ok (returns, advantages)
    /\ Rstd (gs_advantages st) = 1e-8%R
    /\ Rstd (gs_advantages st) <> 0%R
    /\ Rstd advantages = (1 / 2)%R
    /\ Rabs (Rstd advantages - 1) = (1 / 2)%R.
Proof.
  assert (Hhalf :
    Rstd (map (fun x => ((x - Rmean [2e-8; 0]) / (Rstd [2e-8; 0] + 1e-8))%R)
            [2e-8; 0]%R) = (1 / 2)%R).
  { rewrite Rstd_normalised by (try discriminate; apply divisor_pos).
    rewrite Rstd_two_point. lra. }
  eexists _, _, _. split; [exact gae_loop_two_point|].
  split.
  { unfold compute_gae. rewrite gae_loop_two_point. reflexivity. }
  cbn [gs_advantages]. rewrite Rstd_two_point.
  split; [reflexivity|]. split; [lra|].
  change (Rstd (map (fun x => ((x - Rmean [2e-8; 0]) / (Rstd [2e-8; 0] + 1e-8))%R)
            [2e-8; 0]%R) = (1 / 2)%R
          /\ Rabs (Rstd (map (fun x =>
                               ((x - Rmean [2e-8; 0]) / (Rstd [2e-8; 0] + 1e-8))%R)
                          [2e-8; 0]%R) - 1) = (1 / 2)%R).
  rewrite Hhalf. split; [reflexivity|].
  replace (1 / 2 - 1)%R with (- (1 / 2))%R by lra.
  rewrite Rabs_Ropp. apply Rabs_pos_eq. lra.
Qed.

(** ** Policy loss *)

Section PolicyLoss.
Context `{Collaborators}.
Local Open Scope R_scope.

Lemma zip_with_shift (c : R) (xs ys : list R) :
  zip_with Rminus (map (fun x => x + c) xs) (map (fun x => x + c) ys)
  = zip_with Rminus xs ys.
Proof.
  revert ys. induction xs as [|x xs IH]; intros [|y ys]; simpl; try reflexivity.
  rewrite IH. f_equal. lra.
Qed.

Lemma broadcast_shift (c : R) (xs ys : list R) :
  broadcast Rminus (map (fun x => x + c) xs) (map (fun x => x + c) ys)
  = broadcast Rminus xs ys.
Proof.
  unfold broadcast. rewrite !length_map.
  destruct (decide (length xs = length ys)) as [_|_].
  - rewrite zip_with_shift. reflexivity.
  - destruct xs as [|x [|x' xs]]; simpl.
    + destruct ys as [|y [|y' ys]]; reflexivity.
    + rewrite map_map. f_equal. apply map_ext. intros y. lra.
    + destruct ys as [|y [|y' ys]]; simpl; try reflexivity.
      f_equal. f_equal; [lra|]. f_equal; [lra|].
      rewrite map_map. apply map_ext. intros z. lra.
Qed.

(** C7. Adding one constant to every old log-probability and to every
    log-probability the policy returns changes neither the loss nor the
    approximate KL divergence computed by [_policy_loss], whatever the
    parameters, and so leaves the loss returned by [_update_policy]
    unchanged. *)
Theorem policy_loss_shift_invariant
    (policy_act : ModelParams -> States -> Actions -> Actions * list R * Outputs)
    (policy_state_dict : ModelParams)
    (sampled_states : States) (sampled_actions : Actions)
    (sampled_log_prob sampled_advantages : list R) (ratio_clip c : R) :
  (forall params,
      _policy_loss (shifted_policy c policy_act) sampled_states sampled_actions
        (map (fun x => x + c) sampled_log_prob) sampled_advantages ratio_clip
        params
      = _policy_loss policy_act sampled_states sampled_actions
          sampled_log_prob sampled_advantages ratio_clip params)
  /\ policy_loss_of
       (_update_policy (shifted_policy c policy_act) policy_state_dict
          sampled_states sampled_actions
          (map (fun x => x + c) sampled_log_prob) sampled_advantages
          ratio_clip)
     = policy_loss_of
         (_update_policy policy_act policy_state_dict sampled_states
            sampled_actions sampled_log_prob sampled_advantages ratio_clip).
Proof.
  assert (Hloss : forall params,
      _policy_loss (shifted_policy c policy_act) sampled_states sampled_actions
        (map (fun x => x + c) sampled_log_prob) sampled_advantages ratio_clip
        params
      = _policy_loss policy_act sampled_states sampled_actions
          sampled_log_prob sampled_advantages ratio_clip params).
  { intros params. unfold _policy_loss, shifted_policy.
    destruct (policy_act params sampled_states sampled_actions)
      as [[a next_log_prob] outputs].
    rewrite broadcast_shift. reflexivity. }
  split; [exact Hloss|].
  unfold _update_policy, policy_loss_of. rewrite Hloss.
  destruct (_policy_loss policy_act sampled_states sampled_actions
              sampled_log_prob sampled_advantages ratio_clip
              policy_state_dict) as [[l kl]|e]; reflexivity.
Qed.
End PolicyLoss.

(** ** Value loss *)

Section ValueLoss.
Context `{Collaborators}.
Local Open Scope R_scope.

Lemma clip_zero (d : R) : clip d (- 0) 0 = 0.
Proof.
  unfold clip, Rmin, Rmax.
  destruct (Rle_dec (- 0) d); destruct (Rle_dec 0 _); lra.
Qed.

Lemma zip_with_zero_r (xs ds : list R) :
  length ds = length xs ->
  zip_with Rplus xs (map (fun d => clip d (- 0) 0) ds) = xs.
Proof.
  revert ds. induction xs as [|x xs IH]; intros [|d ds] Hlen;
    simpl in *; try reflexivity; try discriminate.
  rewrite clip_zero, IH by lia. f_equal. lra.
Qed.

Lemma clip_predicted_same_length (value_clip : R) (old predicted : list R) :
  length predicted = length old ->
  clip_predicted value_clip old predicted
  = Ok (zip_with (fun o p => o + clip (p - o) (- value_clip) value_clip)
          old predicted).
Proof.
  intros Hlen. unfold clip_predicted.
  rewrite broadcast_same_length by exact Hlen. simpl.
  rewrite broadcast_same_length by (rewrite length_map, length_zip_with; lia).
  f_equal. clear Hlen. revert predicted.
  induction old as [|o old IH]; intros [|p predicted]; simpl; try reflexivity.
  rewrite IH. reflexivity.
Qed.

Lemma clip_predicted_zero (old predicted : list R) :
  length predicted = length old ->
  clip_predicted 0 old predicted = Ok old.
Proof.
  intros Hlen. unfold clip_predicted.
  rewrite broadcast_same_length by exact Hlen. simpl.
  rewrite broadcast_same_length by (rewrite length_map, length_zip_with; lia).
  rewrite zip_with_zero_r by (rewrite length_zip_with; lia).
  reflexivity.
Qed.

Lemma value_loss_of_pinned
    (old returns : list R) (scale : R) (predicted : list R) :
  length predicted = length old ->
  length returns = length old ->
  value_loss_of old returns scale true 0 predicted
  = Ok (scale * Rmean (map (fun e => e ^ 2) (zip_with Rminus returns old))).
Proof.
  intros Hp Hr. unfold value_loss_of.
  rewrite clip_predicted_zero by exact Hp. simpl.
  rewrite broadcast_same_length by exact Hr. reflexivity.
Qed.

Lemma clip_grad_zero_tie : clip_grad 0 (- 0) 0 = 1 / 4.
Proof.
  unfold clip_grad, minimum_grad, maximum_grad, Rmax.
  destruct (Rle_dec (- 0) 0); repeat destruct (Rlt_dec _ _); lra.
Qed.

Lemma clip_grad_zero_off (d : R) : d <> 0 -> clip_grad d (- 0) 0 = 0.
Proof.
  intros Hd. unfold clip_grad, minimum_grad, maximum_grad, Rmax.
  destruct (Rle_dec (- 0) d); repeat destruct (Rlt_dec _ _); lra.
Qed.

Lemma unbroadcast_same (n : nat) (g : list R) :
  length g = n -> unbroadcast n g = g.
Proof.
  intros Hn. unfold unbroadcast. destruct (decide (length g = n)); [reflexivity|].
  contradiction.
Qed.

(** On arrays of one shape the cotangent of a prediction is the derivative
    of its squared error, times the derivative of the clipping. *)
Lemma value_loss_prediction_grad_clipped
    (old returns : list R) (scale value_clip : R) (predicted : list R) :
  length predicted = length old ->
  length returns = length old ->
  exists g,
    value_loss_prediction_grad old returns scale true value_clip predicted
    = Ok g
    /\ length g = length old
    /\ forall i o r p,
         old !! i = Some o -> returns !! i = Some r ->
         predicted !! i = Some p ->
         g !! i
         = Some (- (scale
                    * (2 * (r - (o + clip (p - o) (- value_clip) value_clip))
                       / INR (length old)))
                 * clip_grad (p - o) (- value_clip) value_clip).
Proof.
  intros Hp Hr. unfold value_loss_prediction_grad.
  rewrite clip_predicted_same_length by exact Hp. simpl.
  rewrite broadcast_same_length by (rewrite length_zip_with; lia). simpl.
  rewrite (broadcast_same_length Rminus predicted old) by exact Hp. simpl.
  rewrite (unbroadcast_same _ (map Ropp _))
    by (rewrite !length_map, !length_zip_with; lia).
  rewrite unbroadcast_same
    by (rewrite length_zip_with, !length_map, !length_zip_with; lia).
  eexists. split; [reflexivity|].
  split; [rewrite length_zip_with, !length_map, !length_zip_with; lia|].
  intros i o r p Ho Hret Hpred.
  rewrite lookup_zip_with, !lookup_map, !lookup_zip_with, Hret, Ho, Hpred.
  simpl. rewrite length_zip_with, length_zip_with.
  replace (length returns `min` (length old `min` length predicted))%nat
    with (length old) by lia.
  reflexivity.
Qed.

Lemma value_loss_prediction_grad_unclipped
    (old returns : list R) (scale value_clip : R) (predicted : list R) :
  length returns = length predicted ->
  exists g,
    value_loss_prediction_grad old returns scale false value_clip predicted
    = Ok g
    /\ length g = length predicted
    /\ forall i r p,
         returns !! i = Some r -> predicted !! i = Some p ->
         g !! i = Some (- (scale * (2 * (r - p) / INR (length predicted)))).
Proof.
  intros Hr. unfold value_loss_prediction_grad. simpl.
  rewrite broadcast_same_length by exact Hr. simpl.
  rewrite unbroadcast_same by (rewrite length_map, length_map, length_zip_with; lia).
  eexists. split; [reflexivity|].
  split; [rewrite !length_map, length_zip_with; lia|].
  intros i r p Hret Hpred.
  rewrite !lookup_map, lookup_zip_with, Hret, Hpred. simpl.
  rewrite length_zip_with.
  replace (length returns `min` length predicted)%nat
    with (length predicted) by lia.
  reflexivity.
Qed.
(** C8. With clipping enabled and predictions shaped like the sampled
    values, the prediction that enters the loss is
    [old + clip(predicted - old, -value_clip, value_clip)] and
    [_update_value] returns [value_loss_scale * mean((return - predicted)^2)].
    With [value_clip = 0] that prediction is the sampled value itself and
    the loss is [value_loss_scale * mean((return - old)^2)] whatever the
    model predicts. The gradient that reaches a prediction is the derivative
    of its squared error times the derivative of the clipping: with
    [value_clip = 0] it is 0 where the prediction differs from the sampled
    value, and a quarter of the gradient of the loss without clipping where
    the two are equal. *)
Theorem value_loss_clipped
    (value_act : ModelParams -> States -> list R) (value_state_dict : ModelParams)
    (sampled_states : States) (sampled_values sampled_returns : list R)
    (value_loss_scale value_clip : R) :
  length (value_act value_state_dict sampled_states) = length sampled_values ->
  length sampled_returns = length sampled_values ->
  let predicted := value_act value_state_dict sampled_states in
  let clipped :=
    zip_with (fun o p => o + clip (p - o) (- value_clip) value_clip)
      sampled_values predicted in
  let n := INR (length sampled_values) in
  clip_predicted value_clip sampled_values predicted = Ok clipped
  /\ _update_value value_act value_state_dict sampled_states sampled_values
       sampled_returns value_loss_scale true value_clip
     = Ok (jax_grad
             (_value_loss value_act sampled_states sampled_values
                sampled_returns value_loss_scale true value_clip)
             value_state_dict,
           value_loss_scale
           * Rmean (map (fun e => e ^ 2)
                      (zip_with Rminus sampled_returns clipped)))
  /\ clip_predicted 0 sampled_values predicted = Ok sampled_values
  /\ _update_value value_act value_state_dict sampled_states sampled_values
       sampled_returns value_loss_scale true 0
     = Ok (jax_grad
             (_value_loss value_act sampled_states sampled_values
                sampled_returns value_loss_scale true 0)
             value_state_dict,
           value_loss_scale
           * Rmean (map (fun e => e ^ 2)
                      (zip_with Rminus sampled_returns sampled_values)))
  /\ (exists g,
        value_loss_prediction_grad sampled_values sampled_returns
          value_loss_scale true value_clip predicted = Ok g
        /\ length g = length sampled_values
        /\ forall i o r p,
             sampled_values !! i = Some o -> sampled_returns !! i = Some r ->
             predicted !! i = Some p ->
             g !! i
             = Some (- (value_loss_scale
                        * (2 * (r - (o + clip (p - o) (- value_clip) value_clip))
                           / n))
                     * clip_grad (p - o) (- value_clip) value_clip))
  /\ (exists g g',
        value_loss_prediction_grad sampled_values sampled_returns
          value_loss_scale true 0 predicted = Ok g
        /\ value_loss_prediction_grad sampled_values sampled_returns
             value_loss_scale false 0 predicted = Ok g'
        /\ forall i o r p,
             sampled_values !! i = Some o -> sampled_returns !! i = Some r ->
             predicted !! i = Some p ->
             g' !! i = Some (- (value_loss_scale * (2 * (r - p) / n)))
             /\ (p <> o -> g !! i = Some 0)
             /\ (p = o ->
                 g !! i
                 = Some (- (value_loss_scale * (2 * (r - p) / n)) / 4))).
Proof.
  intros Hp Hr predicted clipped n. subst predicted clipped n.
  split; [apply clip_predicted_same_length; exact Hp|].
  split.
  { unfold _update_value, _value_loss, value_loss_of.
    rewrite clip_predicted_same_length by exact Hp. simpl.
    rewrite broadcast_same_length by (rewrite length_zip_with; lia).
    reflexivity. }
  split; [apply clip_predicted_zero; exact Hp|].
  split.
  { unfold _update_value, _value_loss.
    rewrite value_loss_of_pinned by assumption. reflexivity. }
  split; [apply value_loss_prediction_grad_clipped; assumption|].
  destruct (value_loss_prediction_grad_clipped sampled_values sampled_returns
              value_loss_scale 0 _ Hp Hr) as (g & Hg & _ & Hgi).
  destruct (value_loss_prediction_grad_unclipped sampled_values
              sampled_returns value_loss_scale 0
              (value_act value_state_dict sampled_states)
              ltac:(congruence)) as (g' & Hg' & _ & Hgi').
  exists g, g'. split; [exact Hg|]. split; [exact Hg'|].
  intros i o r p Ho Hret Hpred.
  split; [rewrite (Hgi' i r p Hret Hpred), Hp; reflexivity|].
  rewrite (Hgi i o r p Ho Hret Hpred). split.
  - intros Hne. rewrite clip_grad_zero_off by lra. f_equal. ring.
  - intros ->. replace (o - o) with 0 by ring.
    rewrite clip_zero, clip_grad_zero_tie. f_equal. unfold Rdiv. ring.
Qed.
End ValueLoss.

(** With [value_clip = 0], a sampled value 0, a return 1 and a prediction
    equal to the sampled value, the gradient that reaches the prediction is
    -1/2: it is not 0. *)
Lemma value_clip_zero_gradient_counterexample :
  value_loss_prediction_grad [0%R] [1%R] 1%R true 0%R [0%R]
  = Ok [(- (1 / 2))%R]
  /\ value_loss_prediction_grad [0%R] [1%R] 1%R true 0%R [0%R] <> Ok [0%R].
Proof.
  destruct (value_loss_prediction_grad_clipped [0%R] [1%R] 1%R 0%R [0%R]
              eq_refl eq_refl) as (g & Hg & Hlen & Hi).
  specialize (Hi 0%nat 0%R 1%R 0%R eq_refl eq_refl eq_refl).
  destruct g as [|x [|y g]]; try discriminate Hlen.
  simpl in Hi. injection Hi as Hx.
  replace (0 - 0)%R with 0%R in Hx by ring.
  rewrite clip_zero, clip_grad_zero_tie in Hx.
  assert (Hval : x = (- (1 / 2))%R) by (rewrite Hx; field).
  rewrite Hg, Hval. split; [reflexivity|].
  intros [= Heq]. lra.
Qed.

(** ** Acting and recording *)

Section Acting.
Context `{Collaborators}.

(** The state preprocessor touches no other attribute. *)
Lemma apply_state_preprocessor_frame (a : ppo) (x : States) (train : bool) :
  let a' := (apply_state_preprocessor a x train).2 in
  policy a' = policy a /\ value a' = value a
  /\ memory a' = memory a /\ secondary_memories a' = secondary_memories a
  /\ _current_log_prob a' = _current_log_prob a
  /\ scheduler a' = scheduler a
  /\ policy_optimizer a' = policy_optimizer a
  /\ value_optimizer a' = value_optimizer a
  /\ _value_preprocessor a' = _value_preprocessor a.
Proof.
  unfold apply_state_preprocessor.
  destruct (_state_preprocessor a) as [p|]; simpl; [|tauto].
  destruct (state_preprocess p x train) as [y p']. simpl. tauto.
Qed.

Lemma apply_value_preprocessor_frame (a : ppo) (x : list R) (train inverse : bool) :
  let a' := (apply_value_preprocessor a x train inverse).2 in
  policy a' = policy a /\ value a' = value a
  /\ memory a' = memory a /\ secondary_memories a' = secondary_memories a
  /\ _current_log_prob a' = _current_log_prob a
  /\ scheduler a' = scheduler a
  /\ policy_optimizer a' = policy_optimizer a
  /\ value_optimizer a' = value_optimizer a
  /\ _state_preprocessor a' = _state_preprocessor a.
Proof.
  unfold apply_value_preprocessor.
  destruct (_value_preprocessor a) as [p|]; simpl; [|tauto].
  destruct (value_preprocess p x train inverse) as [y p']. simpl. tauto.
Qed.

(** C9. While [timestep < random_timesteps], [act] returns what the
    policy's [random_act] returns on the preprocessed states and leaves the
    cached log-probability as it was; a [record_transition] that follows
    adds to the memory and to every secondary memory one and the same
    sample, whose log-probability is that earlier cached value. *)
Theorem random_act_keeps_log_prob
    (h : hyperparameters) (a : ppo) (states : States) (timestep timesteps : Z) :
  (timestep < _random_timesteps h)%Z ->
  exists a',
    act h a states timestep timesteps
    = (RandomAct
         (policy_random_act (policy a)
            (apply_state_preprocessor a states false).1), a')
    /\ _current_log_prob a' = _current_log_prob a
    /\ forall mem states' actions rewards next_states terminated truncated
              infos timestep' timesteps',
         memory a = Some mem ->
         let recorded :=
           record_transition h a' states' actions rewards next_states
             terminated truncated infos timestep' timesteps' in
         exists smp,
           smp_log_prob smp = _current_log_prob a
           /\ memory recorded = Some (add_samples mem smp)
           /\ secondary_memories recorded
              = map (fun memory => add_samples memory smp)
                  (secondary_memories a).
Proof.
  intros Hlt. apply Z.ltb_lt in Hlt.
  unfold act. rewrite Hlt.
  pose proof (apply_state_preprocessor_frame a states false) as Hframe.
  destruct (apply_state_preprocessor a states false) as [st a'].
  simpl in Hframe. destruct Hframe as (Hpol & _ & Hmem & Hsec & Hlp & _).
  exists a'. simpl. rewrite Hpol. split; [reflexivity|]. split; [exact Hlp|].
  intros mem states' actions rewards next_states terminated truncated infos
    timestep' timesteps' Hm.
  unfold record_transition. simpl. rewrite Hmem, Hm.
  match goal with
  | |- context [apply_state_preprocessor ?b ?x ?t] =>
      pose proof (apply_state_preprocessor_frame b x t) as Hf1;
      destruct (apply_state_preprocessor b x t) as [pre a1]
  end.
  simpl in Hf1. destruct Hf1 as (_ & _ & _ & Hsec1 & Hlp1 & _).
  match goal with
  | |- context [apply_value_preprocessor ?b ?x ?t ?i] =>
      pose proof (apply_value_preprocessor_frame b x t i) as Hf2;
      destruct (apply_value_preprocessor b x t i) as [vals a2]
  end.
  simpl in Hf2. destruct Hf2 as (_ & _ & _ & Hsec2 & Hlp2 & _).
  simpl. eexists. split; [|split; [reflexivity|]].
  - simpl. rewrite Hlp2, Hlp1. simpl. exact Hlp.
  - rewrite Hsec2, Hsec1. simpl. rewrite Hsec. reflexivity.
Qed.
End Acting.

(** ** The update cycle *)

Lemma for_each_ext {A S : Type} (f g : A -> S -> result S) (xs : list A) (s : S) :
  (forall x s, f x s = g x s) -> for_each f xs s = for_each g xs s.
Proof.
  intros Hfg. revert s. induction xs as [|x xs IH]; intros s; simpl; [reflexivity|].
  rewrite Hfg. destruct (g x s) as [s'|e]; simpl; [apply IH | reflexivity].
Qed.

Section UpdateCycle.
Context `{Collaborators}.
Local Open Scope R_scope.

Lemma mini_batches_loop_grad_norm_clip
    (g : R) (h : hyperparameters) (epoch : nat)
    (batches : list (States * Actions * list R * list R * list R * list R))
    (u : update_state) :
  mini_batches_loop (set__grad_norm_clip g h) epoch batches u
  = mini_batches_loop h epoch batches u.
Proof.
  revert u. induction batches as [|[[[[[s ac] lp] v] r] adv] rest IH]; intros u.
  - reflexivity.
  - simpl.
    change (mini_batch_policy (set__grad_norm_clip g h) epoch s ac lp adv u)
      with (mini_batch_policy h epoch s ac lp adv u).
    destruct (mini_batch_policy h epoch s ac lp adv u)
      as [[[[[u1 grad] loss] st] stop]|e]; simpl; [|reflexivity].
    destruct stop; [reflexivity|].
    change (mini_batch_rest (set__grad_norm_clip g h) grad loss st v r u1)
      with (mini_batch_rest h grad loss st v r u1).
    destruct (mini_batch_rest h grad loss st v r u1) as [u2|e]; simpl;
      [apply IH | reflexivity].
Qed.

(** C10. [_update] does not read [grad_norm_clip]: with any other value of
    it, and everything else the same, the update returns the same agent
    (models, optimizers, scheduler, memory, tracked metrics) and the same
    sequence of optimizer and scheduler calls, or raises the same
    exception. *)
Theorem grad_norm_clip_unused
    (h : hyperparameters) (a : ppo) (timestep timesteps : Z) (g : R) :
  _update (set__grad_norm_clip g h) a timestep timesteps
  = _update h a timestep timesteps.
Proof.
  unfold _update.
  change (compute_returns_and_advantages (set__grad_norm_clip g h) a)
    with (compute_returns_and_advantages h a).
  destruct (compute_returns_and_advantages h a) as [[a1 mem]|e]; simpl;
    [|reflexivity].
  rewrite (for_each_ext
             (learning_epoch (set__grad_norm_clip g h)
                (sample_all mem _tensors_names (_mini_batches h)))
             (learning_epoch h
                (sample_all mem _tensors_names (_mini_batches h)))).
  - reflexivity.
  - intros epoch u. unfold learning_epoch.
    rewrite mini_batches_loop_grad_norm_clip. reflexivity.
Qed.

(** *** Early stopping *)

Lemma Rgtb_true (x y : R) : x > y -> Rgtb x y = true.
Proof. intros Hxy. unfold Rgtb. destruct (Rgt_dec x y); [reflexivity | contradiction]. Qed.

Lemma Rgtb_false (x y : R) : ~ x > y -> Rgtb x y = false.
Proof. intros Hxy. unfold Rgtb. destruct (Rgt_dec x y); [contradiction | reflexivity]. Qed.

Lemma truthy_pos (x : R) : 0 < x -> truthy x = true.
Proof. intros Hx. unfold truthy. destruct (Req_dec_T x 0); [lra | reflexivity]. Qed.

(** Lines 474-489 append one KL divergence, decide on it whether to stop,
    and touch nothing but the state preprocessor. *)
Lemma mini_batch_policy_inv
    (h : hyperparameters) (epoch : nat) (s : States) (ac : Actions)
    (lp adv : list R) (u u' : update_state) (grad : Grad) (loss : R)
    (st : States) (stop : bool) :
  mini_batch_policy h epoch s ac lp adv u = Ok (u', grad, loss, st, stop) ->
  exists kl,
    us_kl_divergences u' = us_kl_divergences u ++ [kl]
    /\ stop = truthy (_kl_threshold h) && Rgtb kl (_kl_threshold h)
    /\ us_calls u' = us_calls u
    /\ policy (us_agent u') = policy (us_agent u)
    /\ value (us_agent u') = value (us_agent u)
    /\ policy_optimizer (us_agent u') = policy_optimizer (us_agent u)
    /\ value_optimizer (us_agent u') = value_optimizer (us_agent u)
    /\ scheduler (us_agent u') = scheduler (us_agent u).
Proof.
  unfold mini_batch_policy.
  pose proof (apply_state_preprocessor_frame (us_agent u) s (epoch =? 0)%nat)
    as Hframe.
  destruct (apply_state_preprocessor (us_agent u) s (epoch =? 0)%nat)
    as [s' a']. simpl in Hframe.
  destruct Hframe as (Hp & Hv & _ & _ & _ & Hs & Hpo & Hvo & _).
  destruct (_update_policy _ _ _ _ _ _ _) as [[[g l] kl]|e]; simpl;
    [|discriminate].
  intros [= <- <- <- <- <-]. exists kl. simpl. tauto.
Qed.

(** Lines 491-528 take one step of each optimizer and leave the list of KL
    divergences and the scheduler alone. *)
Lemma mini_batch_rest_inv
    (h : hyperparameters) (grad : Grad) (loss : R) (st : States)
    (v r : list R) (u u' : update_state) :
  mini_batch_rest h grad loss st v r u = Ok u' ->
  us_kl_divergences u' = us_kl_divergences u
  /\ scheduler (us_agent u') = scheduler (us_agent u)
  /\ exists grad' lr lr',
       us_calls u'
       = us_calls u ++ [PolicyOptimizerStep grad lr; ValueOptimizerStep grad' lr'].
Proof.
  unfold mini_batch_rest.
  destruct (policy_optimizer_step _ _ _ _) as [opt model].
  destruct (_update_value _ _ _ _ _ _ _ _) as [[g vl]|e]; simpl; [|discriminate].
  destruct (value_optimizer_step _ _ _ _) as [opt' model'].
  intros [= <-]. simpl. split; [reflexivity|]. split; [reflexivity|].
  eexists _, _, _. rewrite <- app_assoc. reflexivity.
Qed.

Lemma policy_steps_app (xs ys : list call) :
  policy_steps (xs ++ ys) = (policy_steps xs + policy_steps ys)%nat.
Proof. unfold policy_steps. rewrite List.filter_app, length_app. reflexivity. Qed.

Lemma value_steps_app (xs ys : list call) :
  value_steps (xs ++ ys) = (value_steps xs + value_steps ys)%nat.
Proof. unfold value_steps. rewrite List.filter_app, length_app. reflexivity. Qed.

(** When no KL divergence it collected exceeds the threshold, the loop ran
    every mini-batch: it took one step of each optimizer per mini-batch,
    left the scheduler alone, appended one KL divergence per mini-batch, and
    would go on with further mini-batches. *)
Lemma mini_batches_loop_complete
    (h : hyperparameters) (epoch : nat)
    (pre rest : list (States * Actions * list R * list R * list R * list R))
    (u u1 : update_state) :
  mini_batches_loop h epoch pre u = Ok u1 ->
  Forall (fun kl => ~ kl > _kl_threshold h) (us_kl_divergences u1) ->
  mini_batches_loop h epoch (pre ++ rest) u = mini_batches_loop h epoch rest u1
  /\ policy_steps (us_calls u1) = (policy_steps (us_calls u) + length pre)%nat
  /\ value_steps (us_calls u1) = (value_steps (us_calls u) + length pre)%nat
  /\ scheduler (us_agent u1) = scheduler (us_agent u)
  /\ length (us_kl_divergences u1)
     = (length (us_kl_divergences u) + length pre)%nat.
Proof.
  revert u. induction pre as [|[[[[[s ac] lp] v] r] adv] pre IH]; intros u.
  - intros [= <-] _. simpl. repeat split; lia.
  - simpl.
    destruct (mini_batch_policy h epoch s ac lp adv u)
      as [[[[[u' grad] loss] st] stop]|e] eqn:Hpol; simpl; [|discriminate].
    destruct (mini_batch_policy_inv _ _ _ _ _ _ _ _ _ _ _ _ Hpol)
      as (kl & Hkl & Hstop & Hcalls & _ & _ & _ & _ & Hsch).
    destruct stop.
    + intros [= <-] Hall.
      rewrite Hkl, Forall_app, Forall_singleton in Hall.
      destruct Hall as [_ Hall].
      rewrite (Rgtb_false _ _ Hall), andb_false_r in Hstop. discriminate Hstop.
    + destruct (mini_batch_rest h grad loss st v r u') as [u''|e] eqn:Hrest;
        simpl; [|discriminate].
      destruct (mini_batch_rest_inv _ _ _ _ _ _ _ _ Hrest)
        as (Hkl' & Hsch' & g' & lr & lr' & Hcalls').
      intros Hloop Hall.
      destruct (IH _ Hloop Hall) as (Happ & Hps & Hvs & Hs1 & Hlen).
      split; [exact Happ|].
      rewrite Hps, Hvs, Hs1, Hlen, Hkl', Hkl, length_app, Hcalls', Hcalls,
        policy_steps_app, value_steps_app, Hsch', Hsch.
      unfold policy_steps, value_steps. simpl. repeat split; lia.
Qed.

(** C4. Let the mini-batches before one mini-batch of an epoch run with KL
    divergences that do not exceed a positive [kl_threshold], and let the KL
    divergence of that mini-batch exceed it. Then the loop ends there,
    whatever mini-batches follow: in the whole epoch each optimizer has
    stepped once per earlier mini-batch and not again, models and
    optimizers are as the earlier mini-batches left them, and the list of
    KL divergences is the earlier ones followed by the one that stopped the
    loop. That list holds the KL divergences of this epoch only: one for
    each earlier mini-batch and one for the mini-batch that stopped the
    loop, whatever list the epoch started from. With a KL-adaptive
    scheduler the epoch ends by one call of its [step] on the mean of that
    list. *)
Theorem kl_early_stopping
    (h : hyperparameters) (epoch : nat)
    (pre post : list (States * Actions * list R * list R * list R * list R))
    (sampled_states : States) (sampled_actions : Actions)
    (sampled_log_prob sampled_values sampled_returns sampled_advantages : list R)
    (u u1 u2 : update_state) (grad : Grad) (policy_loss : R)
    (states : States) (stop : bool) (kl_divergence : R) :
  0 < _kl_threshold h ->
  mini_batches_loop h epoch pre (start_epoch u) = Ok u1 ->
  Forall (fun kl => ~ kl > _kl_threshold h) (us_kl_divergences u1) ->
  mini_batch_policy h epoch sampled_states sampled_actions sampled_log_prob
    sampled_advantages u1 = Ok (u2, grad, policy_loss, states, stop) ->
  last (us_kl_divergences u2) = Some kl_divergence ->
  kl_divergence > _kl_threshold h ->
  let batches :=
    pre ++ (sampled_states, sampled_actions, sampled_log_prob, sampled_values,
            sampled_returns, sampled_advantages) :: post in
  mini_batches_loop h epoch batches (start_epoch u) = Ok u2
  /\ us_kl_divergences u2 = us_kl_divergences u1 ++ [kl_divergence]
  /\ length (us_kl_divergences u1) = length pre
  /\ length (us_kl_divergences u2) = S (length pre)
  /\ (forall kls,
        learning_epoch h batches epoch (with_kl_divergences kls u)
        = Ok (update_learning_rate h u2))
  /\ us_calls u2 = us_calls u1
  /\ policy_steps (us_calls u2) = (policy_steps (us_calls u) + length pre)%nat
  /\ value_steps (us_calls u2) = (value_steps (us_calls u) + length pre)%nat
  /\ policy (us_agent u2) = policy (us_agent u1)
  /\ value (us_agent u2) = value (us_agent u1)
  /\ policy_optimizer (us_agent u2) = policy_optimizer (us_agent u1)
  /\ value_optimizer (us_agent u2) = value_optimizer (us_agent u1)
  /\ learning_epoch h batches epoch u = Ok (update_learning_rate h u2)
  /\ forall (c : scheduler_class) (s : Scheduler),
       _learning_rate_scheduler h = Some c ->
       scheduler (us_agent u) = Some s ->
       let kl := Rmean (us_kl_divergences u1 ++ [kl_divergence]) in
       scheduler (us_agent (update_learning_rate h u2))
       = Some (scheduler_step s kl)
       /\ us_calls (update_learning_rate h u2)
          = us_calls u1 ++ [SchedulerStep kl].
Proof.
  intros Hthr Hpre Hall Hpol Hlast Hkl batches. subst batches.
  destruct (mini_batch_policy_inv _ _ _ _ _ _ _ _ _ _ _ _ Hpol)
    as (kl & Hkls & Hstop & Hcalls & Hp & Hv & Hpo & Hvo & Hsch).
  assert (kl = kl_divergence) as ->.
  { rewrite Hkls, last_snoc in Hlast. congruence. }
  rewrite (truthy_pos _ Hthr), (Rgtb_true _ _ Hkl) in Hstop. simpl in Hstop.
  subst stop.
  destruct (mini_batches_loop_complete h epoch pre
              ((sampled_states, sampled_actions, sampled_log_prob,
                sampled_values, sampled_returns, sampled_advantages) :: post)
              _ _ Hpre Hall) as (Happ & Hps & Hvs & Hs1 & Hlen).
  simpl in Hlen.
  assert (Hloop :
    mini_batches_loop h epoch
      (pre ++ (sampled_states, sampled_actions, sampled_log_prob,
               sampled_values, sampled_returns, sampled_advantages) :: post)
      (start_epoch u) = Ok u2).
  { rewrite Happ. simpl. rewrite Hpol. reflexivity. }
  split; [exact Hloop|].
  split; [exact Hkls|].
  split; [exact Hlen|].
  split; [rewrite Hkls, length_app, Hlen; simpl; lia|].
  split.
  { intros kls. unfold learning_epoch.
    change (start_epoch (with_kl_divergences kls u)) with (start_epoch u).
    rewrite Hloop. reflexivity. }
  split; [exact Hcalls|].
  split; [rewrite Hcalls; exact Hps|].
  split; [rewrite Hcalls; exact Hvs|].
  split; [exact Hp|]. split; [exact Hv|].
  split; [exact Hpo|]. split; [exact Hvo|].
  split.
  { unfold learning_epoch. rewrite Hloop. reflexivity. }
  intros c s Hc Hs kl'. subst kl'.
  unfold update_learning_rate.
  rewrite Hc, Hsch, Hs1. simpl. rewrite Hs. simpl.
  rewrite Hkls, Hcalls. split; reflexivity.
Qed.
End UpdateCycle.

Module DemoFacts.
Import Demo DemoRun.
Local Open Scope R_scope.

Lemma exp_2_gt_4 : 4 < exp 2.
Proof.
  replace 2 with (1 + 1) by lra. rewrite exp_plus.
  assert (H1 : 2 < exp 1) by (pose proof (exp_ineq1 1 ltac:(lra)); lra).
  nra.
Qed.

Lemma Rmean_singleton (x : R) : Rmean [x] = x.
Proof. unfold Rmean, Rsum. simpl. lra. Qed.

Lemma first_batch_runs :
  exists u1,
    mini_batches_loop hyper 0 [batch0] (start_epoch start) = Ok u1
    /\ Forall (fun kl => ~ kl > _kl_threshold hyper) (us_kl_divergences u1)
    /\ length (us_kl_divergences u1) = 1%nat
    /\ exists u2 grad policy_loss states stop kl_divergence,
         mini_batch_policy hyper 0 1%nat tt [0] [1] u1
         = Ok (u2, grad, policy_loss, states, stop)
         /\ last (us_kl_divergences u2) = Some kl_divergence
         /\ kl_divergence > _kl_threshold hyper.
Proof.
  assert (Hkl0 : Rmean [exp (2 - 2) - 1 - (2 - 2)] = 0).
  { rewrite Rmean_singleton. replace (2 - 2) with 0 by lra.
    rewrite exp_0. lra. }
  eexists. split.
  { unfold batch0. simpl. unfold mini_batch_policy. simpl.
    unfold _update_policy, _policy_loss. simpl.
    rewrite Rgtb_false by (rewrite Hkl0; simpl; lra).
    rewrite andb_false_r. simpl.
    unfold mini_batch_rest. simpl. unfold _update_value, _value_loss, value_loss_of.
    simpl. reflexivity. }
  simpl. split.
  { apply Forall_singleton. rewrite Hkl0. lra. }
  split; [reflexivity|].
  unfold mini_batch_policy. simpl. unfold _update_policy, _policy_loss. simpl.
  eexists _, _, _, _, _, _. split; [reflexivity|]. simpl.
  split; [reflexivity|].
  rewrite Rmean_singleton. replace (2 - 0) with 2 by lra.
  pose proof exp_2_gt_4. lra.
Qed.
End DemoFacts.

Module Witnesses.
Import Demo DemoRun.

Lemma kl_early_stopping_witness :
  exists u2,
    learning_epoch hyper [batch0; batch1; batch2] 0 start
    = Ok (update_learning_rate hyper u2)
    /\ learning_epoch hyper [batch0; batch1; batch2] 0
         (with_kl_divergences [7%R; 7%R; 7%R] start)
       = Ok (update_learning_rate hyper u2)
    /\ policy_steps (us_calls u2) = 1
    /\ value_steps (us_calls u2) = 1
    /\ exists kls,
         length kls = 2
         /\ us_calls (update_learning_rate hyper u2)
            = us_calls u2 ++ [SchedulerStep (Rmean kls)].
Proof.
  destruct DemoFacts.first_batch_runs
    as (u1 & Hpre & Hall & Hlen & u2 & grad & policy_loss & states & stop & kl
        & Hpol & Hlast & Hkl).
  assert (Hthr : (0 < _kl_threshold hyper)%R) by (simpl; lra).
  destruct (kl_early_stopping hyper 0 [batch0] [batch2] 1%nat tt
              [0%R] [0%R] [0%R] [1%R] start u1 u2 grad policy_loss states stop
              kl Hthr Hpre Hall Hpol Hlast Hkl)
    as (_ & Hkls & _ & Hlen2 & Hfresh & Hcalls & Hps & Hvs & _ & _ & _ & _
        & Hepoch & Hsched).
  exists u2. split; [exact Hepoch|]. split; [exact (Hfresh _)|].
  split; [exact Hps|]. split; [exact Hvs|].
  destruct (Hsched KLAdaptiveRL 0.001%R eq_refl eq_refl) as [_ Hstep].
  exists (us_kl_divergences u1 ++ [kl]). split.
  - rewrite <- Hkls. exact Hlen2.
  - rewrite Hcalls. exact Hstep.
Defined.

Lemma random_act_keeps_log_prob_witness :
  exists a',
    act hyper agent 7%nat 0 100 = (RandomAct 7%nat, a')
    /\ _current_log_prob a' = None
    /\ forall mem states' actions rewards next_states terminated truncated
              infos timestep' timesteps',
         memory agent = Some mem ->
         let recorded :=
           record_transition hyper a' states' actions rewards next_states
             terminated truncated infos timestep' timesteps' in
         exists smp,
           smp_log_prob smp = None
           /\ memory recorded = Some (add_samples mem smp)
           /\ secondary_memories recorded
              = map (fun memory => add_samples memory smp) [[]; []].
Proof.
  exact (random_act_keeps_log_prob hyper agent 7%nat 0 100 eq_refl).
Defined.

Lemma value_loss_clipped_witness :
  clip_predicted 0.2 [0; 0]%R [0; 2]%R
  = Ok (zip_with (fun o p => (o + clip (p - o) (- (0.2)) 0.2)%R)
          [0; 0]%R [0; 2]%R)
  /\ clip_predicted 0 [0; 0]%R [0; 2]%R = Ok [0; 0]%R
  /\ exists g,
       value_loss_prediction_grad [0; 0]%R [1; 1]%R 1 true 0 [0; 2]%R = Ok g
       /\ g !! 0%nat = Some (- (1 * (2 * (1 - 0) / INR 2)) / 4)%R
       /\ g !! 1%nat = Some 0%R.
Proof.
  destruct (@value_loss_clipped collaborators
              (fun _ _ => [0; 2]%R) 0%R 0%nat [0; 0]%R
              [1; 1]%R 1%R 0.2%R eq_refl eq_refl)
    as (Hclip & _ & Hpin & _ & _ & g & g' & Hg & _ & Hi).
  split; [exact Hclip|]. split; [exact Hpin|].
  exists g. split; [exact Hg|]. split.
  - destruct (Hi 0%nat 0%R 1%R 0%R eq_refl eq_refl eq_refl) as (_ & _ & Htie).
    exact (Htie eq_refl).
  - destruct (Hi 1%nat 0%R 1%R 2%R eq_refl eq_refl eq_refl) as (_ & Hoff & _).
    apply Hoff. lra.
Defined.
End Witnesses.

(** ** Configuration *)

Module ConfigFacts.
Import Config.

(** Whatever the caller overrides is written into the object that
    [PPO_DEFAULT_CONFIG] names. *)
Lemma PPO_init_writes_defaults
    (cfg d : gmap string pyval) (σ : store) (key : string) (v : pyval) :
  σ !! PPO_DEFAULT_CONFIG = Some d ->
  cfg !! key = Some v ->
  getitem (PPO_init (Some cfg) σ).2 PPO_DEFAULT_CONFIG key = Some v.
Proof.
  intros Hd Hv. unfold PPO_init, dict_update, getitem, store in *. simpl.
  rewrite Hd. rewrite lookup_insert_eq.
  apply lookup_union_Some_l. exact Hv.
Qed.

(** C3. Constructing an agent with [cfg = {"rollouts": 32}] hands the very
    object named [PPO_DEFAULT_CONFIG] to the base class and changes its
    entry ["rollouts"] from 16 to 32; an agent constructed next without any
    configuration is given 32 rollouts. *)
Theorem PPO_init_mutates_default_config :
  let overrides : gmap string pyval := {[ "rollouts"%string := VInt 32 ]} in
  let first := PPO_init (Some overrides) module_store in
  let second := PPO_init None first.2 in
  getitem module_store PPO_DEFAULT_CONFIG "rollouts" = Some (VInt 16)
  /\ first.1 = PPO_DEFAULT_CONFIG
  /\ getitem first.2 PPO_DEFAULT_CONFIG "rollouts" = Some (VInt 32)
  /\ second.1 = PPO_DEFAULT_CONFIG
  /\ getitem second.2 second.1 "rollouts" = Some (VInt 32).
Proof.
  cbv zeta. repeat split; vm_compute; reflexivity.
Qed.
End ConfigFacts.

(** ** The estimator on tensors *)

Section RolloutSingle.
Context {F : Type} `{Num F}.

Lemma broadcast_singletons (f : F -> F -> F) (x y : F) :
  broadcast f [x] [y] = Ok [f x y].
Proof. reflexivity. Qed.

Lemma index_column {A : Type} (xs : list A) (i : nat) :
  index (column xs) i = result_map (fun x => [x]) (index xs i).
Proof.
  unfold index, column, result_map. rewrite lookup_map.
  destruct (xs !! i); reflexivity.
Qed.

Lemma length_column {A : Type} (xs : list A) : length (column xs) = length xs.
Proof. apply length_map. Qed.

Lemma column_insert {A : Type} (xs : list A) (i : nat) (x : A) :
  <[i := [x]]> (column xs) = column (<[i := x]> xs).
Proof. unfold column. rewrite list_fmap_insert. reflexivity. Qed.

Section Loop.
Variables (rewards : list F) (dones : list bool) (values : list F).
Variables (discount_factor lambda_coefficient : F).

Lemma rollout_gae_step_column (i : nat) (st : gae_state) :
  length (gs_advantages st) = length rewards ->
  Rollout.gae_step (column rewards) (column dones) (column values)
    discount_factor lambda_coefficient i (lift_state st)
  = result_map lift_state
      (gae_step rewards dones values discount_factor lambda_coefficient i st).
Proof.
  intros Hlen. unfold Rollout.gae_step, gae_step, Rollout.memory_size,
    memory_size, Rollout.not_dones, not_dones.
  rewrite length_column.
  assert (Hnd : map (map negb) (column dones) = column (map negb dones)).
  { unfold column. rewrite !map_map. reflexivity. }
  rewrite Hnd, !index_column.
  destruct (i <? length rewards - 1)%nat.
  - destruct (index values (i + 1)) as [nv|e]; simpl; [|reflexivity].
    destruct (index rewards i) as [r|e] eqn:Hr; simpl; [|reflexivity].
    destruct (index values i) as [v|e]; simpl; [|reflexivity].
    destruct (index (map negb dones) i) as [nd|e]; simpl; [|reflexivity].
    rewrite index_column. unfold index in Hr |- *.
    destruct (rewards !! i) as [r'|] eqn:Hri; [|discriminate].
    apply lookup_lt_Some in Hri. rewrite <- Hlen in Hri.
    apply lookup_lt_is_Some_2 in Hri. destruct Hri as [a Ha].
    rewrite Ha. simpl. unfold lift_state. simpl.
    rewrite column_insert. reflexivity.
  - simpl.
    destruct (index rewards i) as [r|e] eqn:Hr; simpl; [|reflexivity].
    destruct (index values i) as [v|e]; simpl; [|reflexivity].
    destruct (index (map negb dones) i) as [nd|e]; simpl; [|reflexivity].
    rewrite index_column. unfold index in Hr |- *.
    destruct (rewards !! i) as [r'|] eqn:Hri; [|discriminate].
    apply lookup_lt_Some in Hri. rewrite <- Hlen in Hri.
    apply lookup_lt_is_Some_2 in Hri. destruct Hri as [a Ha].
    rewrite Ha. simpl. unfold lift_state. simpl.
    rewrite column_insert. reflexivity.
Qed.

Lemma gae_step_length (i : nat) (st st' : gae_state) :
  gae_step rewards dones values discount_factor lambda_coefficient i st
  = Ok st' ->
  length (gs_advantages st') = length (gs_advantages st).
Proof.
  unfold gae_step.
  destruct (if (i <? _)%nat then _ else _) as [nv|e]; simpl; [|discriminate].
  destruct (index rewards i); simpl; [|discriminate].
  destruct (index values i); simpl; [|discriminate].
  destruct (index _ i); simpl; [|discriminate].
  intros [= <-]. simpl. apply length_insert.
Qed.

Lemma rollout_for_each_column (indices : list nat) (st : gae_state) :
  length (gs_advantages st) = length rewards ->
  for_each
    (Rollout.gae_step (column rewards) (column dones) (column values)
       discount_factor lambda_coefficient) indices (lift_state st)
  = result_map lift_state
      (for_each
         (gae_step rewards dones values discount_factor lambda_coefficient)
         indices st).
Proof.
  revert st. induction indices as [|i indices IH]; intros st Hlen; simpl;
    [reflexivity|].
  rewrite rollout_gae_step_column by exact Hlen.
  destruct (gae_step _ _ _ _ _ i st) as [st'|e] eqn:Hstep; simpl;
    [|reflexivity].
  apply IH. rewrite (gae_step_length _ _ _ Hstep). exact Hlen.
Qed.

Lemma rollout_gae_loop_column (next_values : F) :
  Rollout.gae_loop (column rewards) (column dones) (column values)
    discount_factor lambda_coefficient [next_values]
  = result_map lift_state
      (gae_loop rewards dones values discount_factor lambda_coefficient
         next_values).
Proof.
  unfold Rollout.gae_loop, gae_loop, Rollout.memory_size, memory_size.
  rewrite length_column.
  rewrite <- rollout_for_each_column by (simpl; apply length_replicate).
  unfold lift_state. simpl. do 3 f_equal.
  unfold column. rewrite map_map. simpl.
  induction rewards as [|r rs IH]; simpl; [reflexivity|].
  f_equal. exact IH.
Qed.
End Loop.

Lemma collect_zip_columns (f : F -> F -> F) (xs ys : list F) :
  Rollout.collect (zip_with (broadcast f) (column xs) (column ys))
  = Ok (column (zip_with f xs ys)).
Proof.
  revert ys. induction xs as [|x xs IH]; intros [|y ys]; simpl;
    try reflexivity.
  rewrite IH. reflexivity.
Qed.

Lemma collect_map_l (f : F -> F -> F) (x : F) (ys : list F) :
  Rollout.collect (map (broadcast f [x]) (column ys))
  = Ok (column (map (f x) ys)).
Proof.
  induction ys as [|y ys IH]; simpl; [reflexivity|].
  rewrite IH. reflexivity.
Qed.

Lemma collect_map_r (f : F -> F -> F) (xs : list F) (y : F) :
  Rollout.collect (map (fun row => broadcast f row [y]) (column xs))
  = Ok (column (map (fun x => f x y) xs)).
Proof.
  induction xs as [|x xs IH]; simpl; [reflexivity|].
  rewrite IH. reflexivity.
Qed.

Lemma broadcast_rows_column (f : F -> F -> F) (xs ys : list F) :
  Rollout.broadcast_rows f (column xs) (column ys)
  = result_map column (broadcast f xs ys).
Proof.
  unfold Rollout.broadcast_rows. rewrite !length_column.
  destruct (decide (length xs = length ys)) as [e|n].
  - rewrite collect_zip_columns, broadcast_same_length by exact e.
    reflexivity.
  - destruct xs as [|x [|x' xs]]; destruct ys as [|y [|y' ys]];
      try reflexivity; try (simpl in n; congruence).
    + etransitivity; [exact (collect_map_l f x (y :: y' :: ys))|reflexivity].
    + etransitivity; [exact (collect_map_r f (x :: x' :: xs) y)|reflexivity].
    + unfold broadcast.
      destruct (decide (length (x :: x' :: xs) = length (y :: y' :: ys)));
        [contradiction | reflexivity].
Qed.

Lemma concat_column {A : Type} (xs : list A) : concat (column xs) = xs.
Proof. induction xs as [|x xs IH]; simpl; [reflexivity|]. f_equal. exact IH. Qed.

(** On the tensors of a single environment the estimator is the estimator
    on the trajectory of that environment: the same returns and advantages,
    or the same exception. *)
Theorem rollout_gae_single_environment `{!NumStats F}
    (rewards : list F) (dones : list bool) (values : list F) (next_values : F)
    (discount_factor lambda_coefficient : F) :
  Rollout.compute_gae (column rewards) (column dones) (column values)
    [next_values] discount_factor lambda_coefficient
  = result_map (fun '(returns, advantages) => (column returns, column advantages))
      (compute_gae rewards dones values next_values discount_factor
         lambda_coefficient).
Proof.
  unfold Rollout.compute_gae, compute_gae.
  rewrite rollout_gae_loop_column.
  destruct (gae_loop _ _ _ _ _ _) as [st|e]; simpl; [|reflexivity].
  rewrite broadcast_rows_column.
  destruct (broadcast num_add _ _) as [returns|e]; simpl; [|reflexivity].
  rewrite concat_column. unfold column. rewrite !map_map. reflexivity.
Qed.
End RolloutSingle.

(** ** An update on two environments *)

Lemma truthy_zero : truthy 0%R = false.
Proof. unfold truthy. destruct (Req_dec_T 0 0); [reflexivity | lra]. Qed.

Module DemoTwoFacts.
Import DemoTwo.
Local Open Scope R_scope.

Lemma kl_zero :
  Rmean [exp (2 - 2) - 1 - (2 - 2); exp (2 - 2) - 1 - (2 - 2)] = 0.
Proof.
  unfold Rmean, Rsum. simpl. replace (2 - 2) with 0 by lra. rewrite exp_0. lra.
Qed.



Lemma rollout_epoch :
  exists u,
    learning_epoch hyper (sample_all rollout_memory _tensors_names 1) 0 start
    = Ok u
    /\ policy_steps (us_calls u) = 1%nat
    /\ value_steps (us_calls u) = 1%nat
    /\ policy_optimizer (us_agent u) = 1%nat
    /\ value_optimizer (us_agent u) = 1%nat
    /\ (exists s, scheduler (us_agent u) = Some s).
Proof.
  unfold learning_epoch. simpl.
  unfold mini_batch_policy. simpl. unfold _update_policy, _policy_loss. simpl.
  rewrite Rgtb_false by (rewrite kl_zero; lra).
  rewrite andb_false_r. simpl.
  unfold mini_batch_rest. simpl.
  unfold _update_value, _value_loss, value_loss_of. simpl.
  eexists. split; [reflexivity|]. simpl.
  split; [reflexivity|]. split; [reflexivity|]. split; [reflexivity|].
  split; [reflexivity|]. eexists. reflexivity.
Qed.

End DemoTwoFacts.

(** ** The advantage estimator: mismatched and empty arrays *)

Section GAE_Errors.
Context {F : Type} `{NumStats F}.

Lemma gae_first_step_short
    (rewards : list F) (dones : list bool) (values : list F)
    (discount_factor lambda_coefficient : F) (st : gae_state) (n : nat) :
  length rewards = S n ->
  length values < S n \/ length dones < S n ->
  gae_step rewards dones values discount_factor lambda_coefficient n st
  = Raise IndexError.
Proof.
  intros Hr Hshort. unfold gae_step, memory_size. rewrite Hr.
  replace (n <? S n - 1)%nat with false
    by (symmetry; apply Nat.ltb_ge; lia).
  simpl.
  destruct (lookup_lt_is_Some_2 rewards n) as [r Hrn]; [lia|].
  rewrite (index_ok _ _ _ Hrn). simpl.
  unfold index.
  destruct (values !! n) as [v|] eqn:Hv; simpl; [|reflexivity].
  apply lookup_lt_Some in Hv.
  destruct (not_dones dones !! n) as [d|] eqn:Hd; simpl; [|reflexivity].
  apply lookup_lt_Some in Hd. unfold not_dones in Hd.
  rewrite length_map in Hd. lia.
Qed.

(** With fewer values or fewer termination flags than rewards, the first
    iteration of the loop, at the last index, reads past the end of an
    array: [compute_gae] raises [IndexError]. *)
Theorem compute_gae_short_arrays
    (rewards : list F) (dones : list bool) (values : list F)
    (next_values discount_factor lambda_coefficient : F) :
  length values < length rewards \/ length dones < length rewards ->
  compute_gae rewards dones values next_values discount_factor
    lambda_coefficient = Raise IndexError.
Proof.
  intros Hshort.
  destruct (length rewards) as [|n] eqn:Hr; [lia|].
  unfold compute_gae, gae_loop, memory_size. rewrite Hr.
  rewrite seq_S, rev_app_distr. simpl.
  rewrite (gae_first_step_short rewards dones values discount_factor
             lambda_coefficient _ n Hr Hshort).
  reflexivity.
Qed.

(** On an empty rollout the loop does nothing and no statistic is divided
    by: the result is a pair of empty arrays when [values] has at most one
    entry, and the sum [advantages + values] is a [ValueError] otherwise. *)
Theorem compute_gae_empty
    (dones : list bool) (values : list F)
    (next_values discount_factor lambda_coefficient : F) :
  compute_gae [] dones values next_values discount_factor lambda_coefficient
  = if decide (length values <= 1) then Ok ([], []) else Raise ValueError.
Proof.
  unfold compute_gae, gae_loop, memory_size. simpl.
  destruct values as [|v [|v' values]]; reflexivity.
Qed.
End GAE_Errors.

Lemma for_each_ext_in {A S : Type} (f g : A -> S -> result S) (xs : list A) (s : S) :
  (forall x, In x xs -> forall s, f x s = g x s) ->
  for_each f xs s = for_each g xs s.
Proof.
  revert s. induction xs as [|x xs IH]; intros s Hfg; simpl; [reflexivity|].
  rewrite (Hfg x) by (left; reflexivity).
  destruct (g x s) as [s'|e]; simpl; [|reflexivity].
  apply IH. intros y Hy. apply Hfg. right. exact Hy.
Qed.

Section GAE_Prefix.
Context {F : Type} `{Num F}.

(** The loop reads [dones] and [values] at the indices of [rewards] only:
    whatever follows the first [len(rewards)] entries of either array has
    no effect on the advantages. *)
Lemma gae_loop_reads_prefix
    (rewards : list F) (dones : list bool) (values : list F)
    (discount_factor lambda_coefficient next_values : F) :
  gae_loop rewards dones values discount_factor lambda_coefficient next_values
  = gae_loop rewards (take (length rewards) dones)
      (take (length rewards) values) discount_factor lambda_coefficient
      next_values.
Proof.
  unfold gae_loop. apply for_each_ext_in.
  intros i Hi st. apply in_rev, in_seq in Hi. unfold memory_size in Hi.
  unfold gae_step, memory_size, index, not_dones.
  rewrite !lookup_map.
  rewrite (lookup_take_lt values (length rewards) i) by lia.
  rewrite (lookup_take_lt dones (length rewards) i) by lia.
  destruct (Nat.ltb_spec i (length rewards - 1)) as [Hlt|Hge]; [|reflexivity].
  rewrite (lookup_take_lt values (length rewards) (i + 1)) by lia.
  reflexivity.
Qed.
End GAE_Prefix.

Section GAE_LongValues.
Context {F : Type} `{NumStats F}.

(** With at least as many termination flags as rewards and more values
    than rewards, the loop succeeds and the sum [advantages + values]
    decides: two or more rewards give a [ValueError]; a single reward is
    broadcast, so that [returns] is as long as [values]. *)
Theorem compute_gae_long_values
    (rewards : list F) (dones : list bool) (values : list F)
    (next_values discount_factor lambda_coefficient : F) :
  length rewards <= length dones ->
  length rewards < length values ->
  (2 <= length rewards ->
   compute_gae rewards dones values next_values discount_factor
     lambda_coefficient = Raise ValueError)
  /\ (length rewards = 1 ->
      exists returns advantages,
        compute_gae rewards dones values next_values discount_factor
          lambda_coefficient = Ok (returns, advantages)
        /\ length returns = length values
        /\ length advantages = 1).
Proof.
  intros Hd Hv.
  destruct (gae_loop_advantages rewards (take (length rewards) dones)
              (take (length rewards) values) discount_factor
              lambda_coefficient next_values)
    as (st & Hst & Hlen & _).
  { rewrite length_take. lia. }
  { rewrite length_take. lia. }
  rewrite <- gae_loop_reads_prefix in Hst.
  unfold compute_gae. rewrite Hst. simpl.
  destruct (gs_advantages st) as [|a0 [|a1 advs]] eqn:Hadv; simpl in Hlen.
  - split; intros; lia.
  - split; [intros; lia|]. intros _.
    unfold broadcast. rewrite decide_False by (simpl; lia). simpl.
    eexists _, _. split; [reflexivity|]. rewrite length_map. split; reflexivity.
  - split; [|intros; lia]. intros _.
    unfold broadcast. rewrite decide_False by (simpl; lia).
    destruct values as [|v0 [|v1 values]]; simpl in Hv; try lia.
    reflexivity.
Qed.
End GAE_LongValues.

(** ** The advantage estimator over the reals *)

Section GAE_Real.
Local Open Scope R_scope.
Variables (rewards : list R) (dones : list bool) (values : list R).
Variables (discount_factor lambda_coefficient : R).
Hypothesis dones_length : length dones = length rewards.
Hypothesis values_length : length values = length rewards.

(** At a terminal step the continuation is masked: the raw advantage is
    [reward - value], whatever follows in the rollout and whatever the
    bootstrap value, and the return is the reward itself. *)
Theorem compute_gae_terminal_step (next_values : R) :
  exists st returns advantages,
    gae_loop rewards dones values discount_factor lambda_coefficient
      next_values = Ok st
    /\ compute_gae rewards dones values next_values discount_factor
         lambda_coefficient = Ok (returns, advantages)
    /\ forall i reward value,
         rewards !! i = Some reward ->
         values !! i = Some value ->
         dones !! i = Some true ->
         gs_advantages st !! i = Some (reward - value)
         /\ returns !! i = Some reward.
Proof.
  destruct (gae_loop_advantages rewards dones values discount_factor
              lambda_coefficient next_values dones_length values_length)
    as (st & Hst & Hlen & Hall).
  exists st. eexists _, _. split; [exact Hst|].
  split.
  { unfold compute_gae. rewrite Hst. simpl.
    rewrite broadcast_same_length by congruence. reflexivity. }
  intros i r v Hr Hv Hd.
  assert (Hi : (i < length rewards)%nat) by (eapply lookup_lt_Some; exact Hr).
  destruct (Hall i Hi r true v Hr Hd Hv) as [Hlast Hnext].
  assert (Hadv : gs_advantages st !! i = Some (r - v)).
  { destruct (decide (S i = length rewards)) as [Heq|Hne].
    - rewrite (Hlast Heq). f_equal. unfold gae_line_100. simpl. ring.
    - destruct (lookup_lt_is_Some_2 values (S i)) as [v' Hv']; [lia|].
      destruct (lookup_lt_is_Some_2 (gs_advantages st) (S i)) as [a' Ha'];
        [lia|].
      rewrite (Hnext v' a' Hv' Ha'). f_equal. unfold gae_line_100. simpl.
      ring. }
  split; [exact Hadv|].
  rewrite lookup_zip_with, Hadv. simpl. rewrite Hv. simpl. f_equal. ring.
Qed.
(** With [lambda_coefficient = 0] the estimator is the one-step temporal
    difference: [reward - value + discount * (1 - done) * next_value],
    where the next value is the bootstrap value at the last step and
    [values[i + 1]] before it. *)
Theorem compute_gae_zero_lambda (next_values : R) :
  lambda_coefficient = 0 ->
  exists st,
    gae_loop rewards dones values discount_factor lambda_coefficient
      next_values = Ok st
    /\ forall i reward done value,
         rewards !! i = Some reward ->
         dones !! i = Some done ->
         values !! i = Some value ->
         (S i = length rewards ->
          gs_advantages st !! i
          = Some (reward - value
                  + discount_factor * (1 - of_bool done) * next_values))
         /\ (forall next_value,
               values !! S i = Some next_value ->
               gs_advantages st !! i
               = Some (reward - value
                       + discount_factor * (1 - of_bool done) * next_value)).
Proof.
  intros Hlam.
  destruct (gae_loop_advantages rewards dones values discount_factor
              lambda_coefficient next_values dones_length values_length)
    as (st & Hst & Hlen & Hall).
  exists st. split; [exact Hst|].
  intros i r d v Hr Hd Hv.
  assert (Hi : (i < length rewards)%nat) by (eapply lookup_lt_Some; exact Hr).
  destruct (Hall i Hi r d v Hr Hd Hv) as [Hlast Hnext].
  split.
  - intros Heq. rewrite (Hlast Heq). f_equal. unfold gae_line_100.
    rewrite Hlam. destruct d; simpl; ring.
  - intros v' Hv'.
    assert (HSi : (S i < length rewards)%nat).
    { apply lookup_lt_Some in Hv'. lia. }
    destruct (lookup_lt_is_Some_2 (gs_advantages st) (S i)) as [a' Ha'];
      [lia|].
    rewrite (Hnext v' a' Hv' Ha'). f_equal. unfold gae_line_100.
    rewrite Hlam. destruct d; simpl; ring.
Qed.

Lemma gae_advantages_agree (bootstrap bootstrap' : R) (advs advs' : list R) :
  last dones = Some true ->
  length advs = length rewards ->
  length advs' = length rewards ->
  (forall i, (i < length rewards)%nat ->
             gae_step_ok rewards dones values discount_factor
               lambda_coefficient bootstrap advs i) ->
  (forall i, (i < length rewards)%nat ->
             gae_step_ok rewards dones values discount_factor
               lambda_coefficient bootstrap' advs' i) ->
  advs = advs'.
Proof.
  intros Hdone Hlen Hlen' Hall Hall'.
  assert (Hback : forall k i,
             (i + k = length rewards)%nat -> (0 < k)%nat ->
             advs !! i = advs' !! i).
  { induction k as [|k IH]; intros i Hik Hk; [lia|].
    assert (Hi : (i < length rewards)%nat) by lia.
    destruct (lookup_lt_is_Some_2 rewards i) as [r Hr]; [lia|].
    destruct (lookup_lt_is_Some_2 dones i) as [d Hd]; [lia|].
    destruct (lookup_lt_is_Some_2 values i) as [v Hv]; [lia|].
    destruct (Hall i Hi r d v Hr Hd Hv) as [Hlast Hnext].
    destruct (Hall' i Hi r d v Hr Hd Hv) as [Hlast' Hnext'].
    destruct k as [|k].
    - assert (Heq : S i = length rewards) by lia.
      rewrite (Hlast Heq), (Hlast' Heq).
      assert (d = true) as ->.
      { rewrite last_lookup in Hdone.
        replace (Init.Nat.pred (length dones)) with i in Hdone by lia.
        congruence. }
      f_equal. unfold gae_line_100. simpl. ring.
    - destruct (lookup_lt_is_Some_2 values (S i)) as [v' Hv']; [lia|].
      destruct (lookup_lt_is_Some_2 advs (S i)) as [a Ha]; [lia|].
      assert (Ha' : advs' !! S i = Some a).
      { rewrite <- Ha. symmetry. apply IH; lia. }
      rewrite (Hnext v' a Hv' Ha), (Hnext' v' a Hv' Ha'). reflexivity. }
  apply list_eq. intros i.
  destruct (decide (i < length rewards)%nat) as [Hi|Hi].
  - apply (Hback (length rewards - i)%nat); lia.
  - rewrite !lookup_ge_None_2 by lia. reflexivity.
Qed.

(** When the last step of the rollout is terminal, the bootstrap value is
    not used: [compute_gae] returns the same arrays for any two of them. *)
Theorem compute_gae_ignores_bootstrap (next_values next_values' : R) :
  last dones = Some true ->
  compute_gae rewards dones values next_values discount_factor
    lambda_coefficient
  = compute_gae rewards dones values next_values' discount_factor
      lambda_coefficient.
Proof.
  intros Hdone.
  destruct (gae_loop_advantages rewards dones values discount_factor
              lambda_coefficient next_values dones_length values_length)
    as (st & Hst & Hlen & Hall).
  destruct (gae_loop_advantages rewards dones values discount_factor
              lambda_coefficient next_values' dones_length values_length)
    as (st' & Hst' & Hlen' & Hall').
  unfold compute_gae. rewrite Hst, Hst'. simpl.
  rewrite (gae_advantages_agree next_values next_values'
             (gs_advantages st) (gs_advantages st') Hdone Hlen Hlen' Hall Hall').
  reflexivity.
Qed.
End GAE_Real.

Module GAEWitnesses.

Lemma compute_gae_short_arrays_witness :
  compute_gae (F := R) [1; 2]%R [true] [1; 2]%R 0%R 0.99%R 0.95%R
  = Raise IndexError.
Proof.
  apply (compute_gae_short_arrays (F := R)). right. simpl. lia.
Defined.

Lemma compute_gae_long_values_witness :
  compute_gae (F := R) [1; 2]%R [true; true] [1; 2; 3]%R 0%R 0.99%R 0.95%R
  = Raise ValueError.
Proof.
  apply (compute_gae_long_values (F := R) [1; 2]%R [true; true] [1; 2; 3]%R);
    simpl; lia.
Defined.

Lemma compute_gae_terminal_step_witness :
  exists st returns advantages,
    gae_loop [1; 1]%R [false; true] [0.5; 0.5]%R 0.99%R 0.95%R 0.5%R = Ok st
    /\ compute_gae [1; 1]%R [false; true] [0.5; 0.5]%R 0.5%R 0.99%R 0.95%R
       = Ok (returns, advantages)
    /\ forall i reward value,
         [1; 1]%R !! i = Some reward ->
         [0.5; 0.5]%R !! i = Some value ->
         [false; true] !! i = Some true ->
         gs_advantages st !! i = Some (reward - value)%R
         /\ returns !! i = Some reward.
Proof.
  exact (compute_gae_terminal_step [1; 1]%R [false; true] [0.5; 0.5]%R
           0.99%R 0.95%R eq_refl eq_refl 0.5%R).
Defined.

Lemma compute_gae_zero_lambda_witness :
  exists st,
    gae_loop [1; 1]%R [false; true] [0.5; 0.5]%R 0.99%R 0%R 0.5%R = Ok st
    /\ forall i reward done value,
         [1; 1]%R !! i = Some reward ->
         [false; true] !! i = Some done ->
         [0.5; 0.5]%R !! i = Some value ->
         (S i = 2 ->
          gs_advantages st !! i
          = Some (reward - value + 0.99 * (1 - of_bool done) * 0.5)%R)
         /\ (forall next_value,
               [0.5; 0.5]%R !! S i = Some next_value ->
               gs_advantages st !! i
               = Some (reward - value
                       + 0.99 * (1 - of_bool done) * next_value)%R).
Proof.
  exact (compute_gae_zero_lambda [1; 1]%R [false; true] [0.5; 0.5]%R
           0.99%R 0%R eq_refl eq_refl 0.5%R eq_refl).
Defined.

Lemma compute_gae_ignores_bootstrap_witness :
  compute_gae [1; 1]%R [false; true] [0.5; 0.5]%R 0.5%R 0.99%R 0.95%R
  = compute_gae [1; 1]%R [false; true] [0.5; 0.5]%R 7%R 0.99%R 0.95%R.
Proof.
  exact (compute_gae_ignores_bootstrap [1; 1]%R [false; true] [0.5; 0.5]%R
           0.99%R 0.95%R eq_refl eq_refl 0.5%R 7%R eq_refl).
Defined.
End GAEWitnesses.

(** ** The losses *)

Section MeanOrder.
Local Open Scope R_scope.

Lemma Rsum_le_lookup (xs ys : list R) :
  length xs = length ys ->
  (forall i x y, xs !! i = Some x -> ys !! i = Some y -> x <= y) ->
  Rsum xs <= Rsum ys.
Proof.
  revert ys. induction xs as [|x xs IH]; intros [|y ys] Hlen Hle;
    simpl in *; try discriminate; [lra|].
  assert (x <= y) by (apply (Hle 0%nat); reflexivity).
  assert (Rsum xs <= Rsum ys).
  { apply IH; [lia|]. intros i a b Ha Hb. apply (Hle (S i)); assumption. }
  lra.
Qed.

Lemma Rmean_le_lookup (xs ys : list R) :
  length xs = length ys ->
  (forall i x y, xs !! i = Some x -> ys !! i = Some y -> x <= y) ->
  Rmean xs <= Rmean ys.
Proof.
  intros Hlen Hle. unfold Rmean. rewrite <- Hlen.
  destruct xs as [|x xs].
  - destruct ys; [|discriminate]. simpl. lra.
  - apply Rmult_le_compat_r.
    + apply Rlt_le, Rinv_0_lt_compat, INR_length_pos. discriminate.
    + apply Rsum_le_lookup; assumption.
Qed.

Lemma Rmean_zero (xs : list R) :
  (forall x, In x xs -> x = 0) -> Rmean xs = 0.
Proof.
  intros Hall. unfold Rmean.
  assert (Hsum : Rsum xs = 0).
  { induction xs as [|x xs IH]; [reflexivity|]. simpl.
    rewrite (Hall x) by (left; reflexivity).
    rewrite IH by (intros y Hy; apply Hall; right; exact Hy). lra. }
  rewrite Hsum. unfold Rdiv. ring.
Qed.

End MeanOrder.

Section PolicyLossFacts.
Context `{Collaborators}.
Local Open Scope R_scope.

Lemma clip_upper (x lo hi : R) : clip x lo hi <= hi.
Proof. unfold clip. apply Rmin_l. Qed.

Lemma clip_lower (x lo hi : R) : lo <= hi -> lo <= clip x lo hi.
Proof. intros Hle. unfold clip. apply Rmin_glb; [exact Hle | apply Rmax_l]. Qed.

Lemma clip_inside (x lo hi : R) : lo <= x <= hi -> clip x lo hi = x.
Proof.
  intros [Hlo Hhi]. unfold clip.
  rewrite (Rmax_right lo x Hlo). apply Rmin_right. exact Hhi.
Qed.

Lemma clip_crossed (x lo hi : R) : hi < lo -> clip x lo hi = hi.
Proof.
  intros Hlt. unfold clip. apply Rmin_left.
  pose proof (Rmax_l lo x). lra.
Qed.

Lemma policy_loss_same_length
    (policy_act : ModelParams -> States -> Actions -> Actions * list R * Outputs)
    (sampled_states : States) (sampled_actions : Actions)
    (sampled_log_prob sampled_advantages : list R) (ratio_clip : R)
    (params : ModelParams) (a : Actions) (next_log_prob : list R)
    (outputs : Outputs) :
  policy_act params sampled_states sampled_actions
  = (a, next_log_prob, outputs) ->
  length next_log_prob = length sampled_log_prob ->
  length sampled_advantages = length sampled_log_prob ->
  let ratio := map exp (zip_with Rminus next_log_prob sampled_log_prob) in
  _policy_loss policy_act sampled_states sampled_actions sampled_log_prob
    sampled_advantages ratio_clip params
  = Ok (- Rmean
            (zip_with Rmin (zip_with Rmult sampled_advantages ratio)
               (zip_with Rmult sampled_advantages
                  (map (fun r => clip r (1 - ratio_clip) (1 + ratio_clip))
                     ratio))),
        Rmean (map (fun r => exp r - 1 - r)
                 (zip_with Rminus next_log_prob sampled_log_prob))).
Proof.
  intros Hact Hnew Hadv ratio. subst ratio. unfold _policy_loss.
  rewrite Hact.
  rewrite broadcast_same_length by exact Hnew. simpl.
  rewrite broadcast_same_length
    by (rewrite length_map, length_zip_with; lia). simpl.
  rewrite broadcast_same_length
    by (rewrite !length_map, length_zip_with; lia). simpl.
  rewrite broadcast_same_length
    by (rewrite !length_zip_with, !length_map, length_zip_with; lia).
  reflexivity.
Qed.


(** On a non-empty mini-batch whose log-probabilities the policy
    reproduces, as before the first optimizer step, the ratio is 1: the
    approximate KL divergence is 0 and, for a clip coefficient that is not
    negative, the loss is minus the mean advantage. *)
Theorem policy_loss_on_policy
    (policy_act : ModelParams -> States -> Actions -> Actions * list R * Outputs)
    (sampled_states : States) (sampled_actions : Actions)
    (sampled_log_prob sampled_advantages : list R) (ratio_clip : R)
    (params : ModelParams) (a : Actions) (outputs : Outputs) :
  policy_act params sampled_states sampled_actions
  = (a, sampled_log_prob, outputs) ->
  sampled_log_prob <> [] ->
  length sampled_advantages = length sampled_log_prob ->
  0 <= ratio_clip ->
  _policy_loss policy_act sampled_states sampled_actions sampled_log_prob
    sampled_advantages ratio_clip params
  = Ok (- Rmean sampled_advantages, 0).
Proof.
  intros Hact _ Hadv Hclip.
  rewrite (policy_loss_same_length _ _ _ _ _ _ _ _ _ _ Hact eq_refl Hadv).
  assert (Hratio : zip_with Rminus sampled_log_prob sampled_log_prob
                   = map (fun _ => 0) sampled_log_prob).
  { clear. induction sampled_log_prob as [|x xs IH]; [reflexivity|].
    simpl. rewrite IH. f_equal. lra. }
  rewrite Hratio, !map_map.
  assert (Hlower :
    zip_with Rmin
      (zip_with Rmult sampled_advantages
         (map (fun _ => exp 0) sampled_log_prob))
      (zip_with Rmult sampled_advantages
         (map (fun _ => clip (exp 0) (1 - ratio_clip) (1 + ratio_clip))
            sampled_log_prob))
    = sampled_advantages).
  { revert sampled_advantages Hadv. clear -Hclip.
    induction sampled_log_prob as [|x xs IH]; intros [|y ys] Hlen;
      simpl in *; try discriminate; [reflexivity|].
    rewrite IH by lia. f_equal.
    rewrite exp_0, clip_inside by lra.
    rewrite Rmult_1_r. apply Rmin_left. lra. }
  rewrite Hlower. f_equal. f_equal.
  apply Rmean_zero. intros x Hx. apply in_map_iff in Hx as (? & <- & _).
  rewrite exp_0. lra.
Qed.

(** The clipped surrogate is pessimistic: on mini-batch arrays of equal,
    non-zero length the loss is at least minus the mean of the unclipped
    surrogate [advantage * ratio] and, for a clip coefficient that is not
    negative, at least minus the mean of
    [advantage + ratio_clip * |advantage|], however far the new policy has
    moved. *)
Theorem policy_loss_lower_bounds
    (policy_act : ModelParams -> States -> Actions -> Actions * list R * Outputs)
    (sampled_states : States) (sampled_actions : Actions)
    (sampled_log_prob sampled_advantages : list R) (ratio_clip : R)
    (params : ModelParams) (a : Actions) (next_log_prob : list R)
    (outputs : Outputs) :
  policy_act params sampled_states sampled_actions
  = (a, next_log_prob, outputs) ->
  sampled_log_prob <> [] ->
  length next_log_prob = length sampled_log_prob ->
  length sampled_advantages = length sampled_log_prob ->
  exists policy_loss kl_divergence,
    _policy_loss policy_act sampled_states sampled_actions sampled_log_prob
      sampled_advantages ratio_clip params = Ok (policy_loss, kl_divergence)
    /\ - Rmean (zip_with Rmult sampled_advantages
                  (map exp (zip_with Rminus next_log_prob sampled_log_prob)))
       <= policy_loss
    /\ (0 <= ratio_clip ->
        - Rmean (map (fun x => x + ratio_clip * Rabs x) sampled_advantages)
        <= policy_loss).
Proof.
  intros Hact _ Hnew Hadv.
  rewrite (policy_loss_same_length _ _ _ _ _ _ _ _ _ _ Hact Hnew Hadv).
  eexists _, _. split; [reflexivity|].
  set (ratio := map exp (zip_with Rminus next_log_prob sampled_log_prob)).
  assert (Hlen : length ratio = length sampled_advantages).
  { unfold ratio. rewrite length_map, length_zip_with. lia. }
  split.
  - apply Ropp_le_contravar. apply Rmean_le_lookup.
    + rewrite !length_zip_with, length_map. lia.
    + intros i x y Hx Hy.
      apply lookup_zip_with_Some in Hx as (s & sc & -> & Hs & _).
      rewrite Hs in Hy. injection Hy as <-. apply Rmin_l.
  - intros Hclip. apply Ropp_le_contravar. apply Rmean_le_lookup.
    + rewrite !length_zip_with, !length_map. lia.
    + intros i x y Hx Hy.
      apply lookup_zip_with_Some in Hx as (s & sc & -> & _ & Hsc).
      apply lookup_zip_with_Some in Hsc as (adv & c & -> & Hadv' & Hc).
      rewrite lookup_map in Hc, Hy. rewrite Hadv' in Hy. injection Hy as <-.
      destruct (ratio !! i) as [r|]; [|discriminate]. injection Hc as <-.
      eapply Rle_trans; [apply Rmin_r|].
      pose proof (clip_upper r (1 - ratio_clip) (1 + ratio_clip)) as Hup.
      pose proof (clip_lower r (1 - ratio_clip) (1 + ratio_clip)
                    ltac:(lra)) as Hlo.
      unfold Rabs. destruct (Rcase_abs adv); nra.
Qed.
End PolicyLossFacts.

Section ValueLossFacts.
Local Open Scope R_scope.

(** With a clip coefficient that is not negative, every clipped prediction
    lies within [value_clip] of the sampled value and a prediction that
    already does is left as it is; if all of them do, clipping changes
    nothing in the loss. *)
Theorem clipped_prediction_range
    (sampled_values sampled_returns predicted_values : list R)
    (value_loss_scale value_clip : R) :
  0 <= value_clip ->
  length predicted_values = length sampled_values ->
  exists clipped,
    clip_predicted value_clip sampled_values predicted_values = Ok clipped
    /\ length clipped = length sampled_values
    /\ (forall i old predicted c,
          sampled_values !! i = Some old ->
          predicted_values !! i = Some predicted ->
          clipped !! i = Some c ->
          Rabs (c - old) <= value_clip
          /\ (Rabs (predicted - old) <= value_clip -> c = predicted))
    /\ ((forall i old predicted,
           sampled_values !! i = Some old ->
           predicted_values !! i = Some predicted ->
           Rabs (predicted - old) <= value_clip) ->
        value_loss_of sampled_values sampled_returns value_loss_scale true
          value_clip predicted_values
        = value_loss_of sampled_values sampled_returns value_loss_scale false
            value_clip predicted_values).
Proof.
  intros Hclip Hlen.
  rewrite (clip_predicted_same_length _ _ _ Hlen).
  eexists. split; [reflexivity|].
  split; [rewrite length_zip_with; lia|].
  assert (Hpoint : forall o p,
             Rabs (o + clip (p - o) (- value_clip) value_clip - o) <= value_clip
             /\ (Rabs (p - o) <= value_clip ->
                 o + clip (p - o) (- value_clip) value_clip = p)).
  { intros o p. split.
    - pose proof (clip_upper (p - o) (- value_clip) value_clip).
      pose proof (clip_lower (p - o) (- value_clip) value_clip ltac:(lra)).
      apply Rabs_le. lra.
    - intros Hin.
      assert (- value_clip <= p - o <= value_clip).
      { unfold Rabs in Hin. destruct (Rcase_abs (p - o)); lra. }
      rewrite clip_inside by assumption. lra. }
  split.
  - intros i o p c Ho Hp Hc.
    rewrite lookup_zip_with, Ho in Hc. simpl in Hc. rewrite Hp in Hc.
    injection Hc as <-. apply Hpoint.
  - intros Hall. unfold value_loss_of.
    rewrite (clip_predicted_same_length _ _ _ Hlen). simpl.
    replace (zip_with (fun o p => o + clip (p - o) (- value_clip) value_clip)
               sampled_values predicted_values) with predicted_values;
      [reflexivity|].
    apply list_eq. intros i. rewrite lookup_zip_with.
    destruct (sampled_values !! i) as [o|] eqn:Ho; simpl.
    + destruct (predicted_values !! i) as [p|] eqn:Hp; simpl; [|reflexivity].
      f_equal. symmetry. apply Hpoint. apply (Hall i); assumption.
    + apply lookup_ge_None. apply lookup_ge_None in Ho. lia.
Qed.

(** A negative clip coefficient crosses the bounds of the clipping, which
    then returns its upper bound: every prediction is replaced by the
    sampled value plus [value_clip], whatever the model predicts. *)
Theorem clipped_prediction_negative_clip
    (sampled_values predicted_values : list R) (value_clip : R) :
  value_clip < 0 ->
  length predicted_values = length sampled_values ->
  clip_predicted value_clip sampled_values predicted_values
  = Ok (map (fun old => old + value_clip) sampled_values).
Proof.
  intros Hneg Hlen.
  rewrite (clip_predicted_same_length _ _ _ Hlen). f_equal.
  revert predicted_values Hlen.
  induction sampled_values as [|o old IH]; intros [|p predicted] Hlen;
    simpl in *; try discriminate; [reflexivity|].
  rewrite IH by lia. f_equal.
  rewrite clip_crossed by lra. reflexivity.
Qed.
End ValueLossFacts.

Module LossWitnesses.
Import Demo.
Local Open Scope R_scope.


Lemma policy_loss_on_policy_witness :
  _policy_loss (fun _ _ _ => (tt, [2; 3], tt)) 0%nat tt [2; 3] [1; -1] 0.2 0
  = Ok (- Rmean [1; -1], 0).
Proof.
  apply (@policy_loss_on_policy collaborators
           (fun _ _ _ => (tt, [2; 3], tt)) 0%nat tt [2; 3] [1; -1] 0.2 0 tt tt);
    [reflexivity | discriminate | reflexivity | lra].
Defined.

Lemma policy_loss_lower_bounds_witness :
  exists policy_loss kl_divergence,
    _policy_loss (fun _ _ _ => (tt, [2; 3], tt)) 0%nat tt [0; 3] [1; -1] 0.2 0
    = Ok (policy_loss, kl_divergence)
    /\ - Rmean (zip_with Rmult [1; -1]
                  (map exp (zip_with Rminus [2; 3] [0; 3])))
       <= policy_loss
    /\ (0 <= 0.2 ->
        - Rmean (map (fun x => x + 0.2 * Rabs x) [1; -1]) <= policy_loss).
Proof.
  apply (@policy_loss_lower_bounds collaborators
           (fun _ _ _ => (tt, [2; 3], tt)) 0%nat tt [0; 3] [1; -1] 0.2 0 tt
           [2; 3] tt);
    [reflexivity | discriminate | reflexivity | reflexivity].
Defined.

Lemma clipped_prediction_range_witness :
  exists clipped,
    clip_predicted 0.2 [0; 1] [0.1; 5] = Ok clipped
    /\ length clipped = 2%nat
    /\ (forall i old predicted c,
          [0; 1] !! i = Some old ->
          [0.1; 5] !! i = Some predicted ->
          clipped !! i = Some c ->
          Rabs (c - old) <= 0.2
          /\ (Rabs (predicted - old) <= 0.2 -> c = predicted))
    /\ ((forall i old predicted,
           [0; 1] !! i = Some old ->
           [0.1; 5] !! i = Some predicted ->
           Rabs (predicted - old) <= 0.2) ->
        value_loss_of [0; 1] [1; 1] 1 true 0.2 [0.1; 5]
        = value_loss_of [0; 1] [1; 1] 1 false 0.2 [0.1; 5]).
Proof.
  apply (clipped_prediction_range [0; 1] [1; 1] [0.1; 5] 1 0.2);
    [lra | reflexivity].
Defined.

Lemma clipped_prediction_negative_clip_witness :
  clip_predicted (- (0.2)) [0; 1] [0.1; 5]
  = Ok (map (fun old => old + - (0.2)) [0; 1]).
Proof.
  apply (clipped_prediction_negative_clip [0; 1] [0.1; 5] (- (0.2)));
    [lra | reflexivity].
Defined.
End LossWitnesses.

(** ** Acting and recording, stochastic actions *)

Section ActingMore.
Context `{Collaborators}.

(** Once [timestep] has reached [random_timesteps], [act] returns the
    actions, log-probabilities and outputs of the policy on the
    preprocessed states (actions and log-probabilities fetched from the
    device on the numpy backend) and caches those log-probabilities; the
    sample a following [record_transition] adds to the memory and to every
    secondary memory carries exactly the log-probabilities [act]
    returned. *)
Theorem act_then_record_stores_log_prob
    (h : hyperparameters) (a : ppo) (states : States) (timestep timesteps : Z) :
  (_random_timesteps h <= timestep)%Z ->
  exists actions log_prob outputs a',
    act h a states timestep timesteps = (PolicyAct actions log_prob outputs, a')
    /\ (exists raw_actions raw,
          policy_act (policy a) None
            (apply_state_preprocessor a states false).1 None
          = (raw_actions, raw, outputs)
          /\ actions = (if _jax h then raw_actions else device_get raw_actions)
          /\ log_prob = if _jax h then raw else device_get raw)
    /\ _current_log_prob a' = Some log_prob
    /\ forall mem states' actions' rewards next_states terminated truncated
              infos timestep' timesteps',
         memory a = Some mem ->
         let recorded :=
           record_transition h a' states' actions' rewards next_states
             terminated truncated infos timestep' timesteps' in
         exists smp,
           smp_log_prob smp = Some log_prob
           /\ memory recorded = Some (add_samples mem smp)
           /\ secondary_memories recorded
              = map (fun memory => add_samples memory smp)
                  (secondary_memories a).
Proof.
  intros Hge. apply Z.ltb_ge in Hge.
  unfold act. rewrite Hge.
  pose proof (apply_state_preprocessor_frame a states false) as Hframe.
  destruct (apply_state_preprocessor a states false) as [st a0].
  simpl in Hframe. destruct Hframe as (Hpol & _ & Hmem & Hsec & _).
  rewrite Hpol.
  destruct (policy_act (policy a) None st None) as [[raw_actions raw] outputs]
    eqn:Hact.
  eexists _, _, outputs, _. split; [reflexivity|].
  split; [exists raw_actions, raw; split; [exact Hact | split; reflexivity]|].
  split; [reflexivity|].
  intros mem states' actions' rewards next_states terminated truncated infos
    timestep' timesteps' Hm.
  unfold record_transition. simpl. rewrite Hmem, Hm.
  match goal with
  | |- context [apply_state_preprocessor ?b ?x ?t] =>
      pose proof (apply_state_preprocessor_frame b x t) as Hf1;
      destruct (apply_state_preprocessor b x t) as [pre a1]
  end.
  simpl in Hf1. destruct Hf1 as (_ & _ & _ & Hsec1 & Hlp1 & _).
  match goal with
  | |- context [apply_value_preprocessor ?b ?x ?t ?i] =>
      pose proof (apply_value_preprocessor_frame b x t i) as Hf2;
      destruct (apply_value_preprocessor b x t i) as [vals a2]
  end.
  simpl in Hf2. destruct Hf2 as (_ & _ & _ & Hsec2 & Hlp2 & _).
  simpl. eexists. split; [|split; [reflexivity|]].
  - simpl. rewrite Hlp2, Hlp1. reflexivity.
  - rewrite Hsec2, Hsec1. simpl. rewrite Hsec. reflexivity.
Qed.

(** With a memory, [record_transition] stores the states, actions, next
    states and flags as they were passed and the rewards as the rewards
    shaper returns them, while the base class is given the rewards as they
    were passed; it remembers the next states for the bootstrap value and
    leaves models, optimizers and scheduler alone. *)
Theorem record_transition_stores
    (h : hyperparameters) (a : ppo) (mem : Memory)
    (states : States) (actions : Actions) (rewards : list R)
    (next_states : States) (terminated truncated : list bool) (infos : Infos)
    (timestep timesteps : Z) :
  memory a = Some mem ->
  let recorded :=
    record_transition h a states actions rewards next_states terminated
      truncated infos timestep timesteps in
  exists smp,
    memory recorded = Some (add_samples mem smp)
    /\ smp_states smp = states
    /\ smp_actions smp = actions
    /\ smp_next_states smp = next_states
    /\ smp_terminated smp = terminated
    /\ smp_truncated smp = truncated
    /\ smp_rewards smp
       = match _rewards_shaper h with
         | Some shaper => shape_rewards shaper rewards timestep timesteps
         | None => rewards
         end
    /\ tracker recorded
       = base_record_transition (tracker a) states actions rewards
           next_states terminated truncated infos timestep timesteps
    /\ _current_next_states recorded = Some next_states
    /\ _current_log_prob recorded = _current_log_prob a
    /\ policy recorded = policy a
    /\ value recorded = value a
    /\ policy_optimizer recorded = policy_optimizer a
    /\ value_optimizer recorded = value_optimizer a
    /\ scheduler recorded = scheduler a.
Proof.
  intros Hm recorded. subst recorded.
  unfold record_transition. simpl. rewrite Hm.
  match goal with
  | |- context [apply_state_preprocessor ?b ?x ?t] =>
      pose proof (apply_state_preprocessor_frame b x t) as Hf1;
      destruct (apply_state_preprocessor b x t) as [pre a1] eqn:E1
  end.
  simpl in Hf1.
  destruct Hf1 as (Hp1 & Hv1 & _ & _ & Hlp1 & Hs1 & Hpo1 & Hvo1 & _).
  match goal with
  | |- context [apply_value_preprocessor ?b ?x ?t ?i] =>
      pose proof (apply_value_preprocessor_frame b x t i) as Hf2;
      destruct (apply_value_preprocessor b x t i) as [vals a2] eqn:E2
  end.
  simpl in Hf2.
  destruct Hf2 as (Hp2 & Hv2 & _ & _ & Hlp2 & Hs2 & Hpo2 & Hvo2 & _).
  simpl. eexists. split; [reflexivity|]. simpl.
  assert (Htr : tracker a2
                = base_record_transition (tracker a) states actions rewards
                    next_states terminated truncated infos timestep timesteps
                /\ _current_next_states a2 = Some next_states).
  { clear -E1 E2.
    unfold apply_value_preprocessor in E2.
    unfold apply_state_preprocessor in E1. simpl in E1.
    destruct (_state_preprocessor a) as [p|].
    - destruct (state_preprocess p states false) as [y p'].
      injection E1 as <- <-. simpl in E2.
      destruct (_value_preprocessor a) as [q|].
      + destruct (value_preprocess q _ false true) as [z q'].
        injection E2 as <- <-. simpl. split; reflexivity.
      + injection E2 as <- <-. simpl. split; reflexivity.
    - injection E1 as <- <-. simpl in E2.
      destruct (_value_preprocessor a) as [q|].
      + destruct (value_preprocess q _ false true) as [z q'].
        injection E2 as <- <-. simpl. split; reflexivity.
      + injection E2 as <- <-. simpl. split; reflexivity. }
  destruct Htr as [Htr Hns].
  rewrite Hp2, Hp1, Hv2, Hv1, Hlp2, Hlp1, Hs2, Hs1, Hpo2, Hpo1, Hvo2, Hvo1.
  simpl. repeat split; try reflexivity; assumption.
Qed.
End ActingMore.

(** ** The learning epochs *)

Section EpochsLoop.
Context `{Collaborators}.
Local Open Scope R_scope.

(** What the learning epochs never touch. *)
Lemma apply_state_preprocessor_frame' (a : ppo) (x : States) (train : bool) :
  let a' := (apply_state_preprocessor a x train).2 in
  _current_next_states a' = _current_next_states a /\ tracker a' = tracker a.
Proof.
  unfold apply_state_preprocessor.
  destruct (_state_preprocessor a) as [p|]; simpl; [|tauto].
  destruct (state_preprocess p x train) as [y p']. simpl. tauto.
Qed.

Lemma mini_batch_policy_frame
    (h : hyperparameters) (epoch : nat) (s : States) (ac : Actions)
    (lp adv : list R) (u u' : update_state) (grad : Grad) (loss : R)
    (st : States) (stop : bool) :
  mini_batch_policy h epoch s ac lp adv u = Ok (u', grad, loss, st, stop) ->
  memory (us_agent u') = memory (us_agent u)
  /\ secondary_memories (us_agent u') = secondary_memories (us_agent u)
  /\ _current_log_prob (us_agent u') = _current_log_prob (us_agent u)
  /\ _current_next_states (us_agent u') = _current_next_states (us_agent u)
  /\ tracker (us_agent u') = tracker (us_agent u)
  /\ us_cumulative_policy_loss u' = us_cumulative_policy_loss u
  /\ us_cumulative_value_loss u' = us_cumulative_value_loss u.
Proof.
  unfold mini_batch_policy.
  pose proof (apply_state_preprocessor_frame (us_agent u) s (epoch =? 0)%nat)
    as Hframe.
  pose proof (apply_state_preprocessor_frame' (us_agent u) s (epoch =? 0)%nat)
    as Hframe'.
  destruct (apply_state_preprocessor (us_agent u) s (epoch =? 0)%nat)
    as [s' a']. simpl in Hframe, Hframe'.
  destruct (_update_policy _ _ _ _ _ _ _) as [[[g l] kl]|e]; simpl;
    [|discriminate].
  intros [= <- <- <- <- <-]. simpl. tauto.
Qed.

Lemma mini_batch_rest_frame
    (h : hyperparameters) (grad : Grad) (loss : R) (st : States)
    (v r : list R) (u u' : update_state) :
  mini_batch_rest h grad loss st v r u = Ok u' ->
  memory (us_agent u') = memory (us_agent u)
  /\ secondary_memories (us_agent u') = secondary_memories (us_agent u)
  /\ _current_log_prob (us_agent u') = _current_log_prob (us_agent u)
  /\ _current_next_states (us_agent u') = _current_next_states (us_agent u)
  /\ tracker (us_agent u') = tracker (us_agent u)
  /\ exists grad',
       us_calls u'
       = us_calls u
         ++ [PolicyOptimizerStep grad (current_lr (us_agent u));
             ValueOptimizerStep grad' (current_lr (us_agent u))].
Proof.
  unfold mini_batch_rest.
  destruct (policy_optimizer_step _ _ _ _) as [opt model].
  destruct (_update_value _ _ _ _ _ _ _ _) as [[g vl]|e]; simpl; [|discriminate].
  destruct (value_optimizer_step _ _ _ _) as [opt' model'].
  intros [= <-]. simpl. repeat split; try reflexivity.
  eexists. rewrite <- app_assoc. reflexivity.
Qed.

Lemma scheduler_steps_app (xs ys : list call) :
  scheduler_steps (xs ++ ys) = (scheduler_steps xs + scheduler_steps ys)%nat.
Proof. unfold scheduler_steps. rewrite List.filter_app, length_app. reflexivity. Qed.

(** One run of the mini-batches loop: the calls it appends are [k] policy
    steps and [k] value steps, for some [k] not above the number of
    mini-batches, all with the learning rate of the scheduler the loop
    started with. *)
Lemma mini_batches_loop_calls
    (h : hyperparameters) (epoch : nat)
    (batches : list (States * Actions * list R * list R * list R * list R))
    (u u1 : update_state) :
  mini_batches_loop h epoch batches u = Ok u1 ->
  exists suffix k,
    us_calls u1 = us_calls u ++ suffix
    /\ policy_steps suffix = k /\ value_steps suffix = k
    /\ scheduler_steps suffix = 0%nat
    /\ (k <= length batches)%nat
    /\ (truthy (_kl_threshold h) = false -> k = length batches)
    /\ Forall (fun c => step_lr c = Some (current_lr (us_agent u))) suffix
    /\ scheduler (us_agent u1) = scheduler (us_agent u)
    /\ memory (us_agent u1) = memory (us_agent u)
    /\ secondary_memories (us_agent u1) = secondary_memories (us_agent u)
    /\ _current_log_prob (us_agent u1) = _current_log_prob (us_agent u)
    /\ _current_next_states (us_agent u1) = _current_next_states (us_agent u)
    /\ tracker (us_agent u1) = tracker (us_agent u).
Proof.
  revert u. induction batches as [|[[[[[s ac] lp] v] r] adv] rest IH]; intros u.
  - intros [= <-]. exists [], 0%nat. rewrite app_nil_r.
    repeat split; auto.
  - simpl.
    destruct (mini_batch_policy h epoch s ac lp adv u)
      as [[[[[u' grad] loss] st] stop]|e] eqn:Hpol; simpl; [|discriminate].
    destruct (mini_batch_policy_inv _ _ _ _ _ _ _ _ _ _ _ _ Hpol)
      as (kl & Hkl & Hstop & Hcalls & _ & _ & _ & _ & Hsch).
    destruct (mini_batch_policy_frame _ _ _ _ _ _ _ _ _ _ _ _ Hpol)
      as (Hm & Hsm & Hlp & Hns & Htr & _).
    destruct stop.
    + intros [= <-]. exists [], 0%nat. rewrite app_nil_r.
      repeat split; auto; try lia.
      intros Hthr. rewrite Hthr in Hstop. discriminate Hstop.
    + destruct (mini_batch_rest h grad loss st v r u') as [u''|e] eqn:Hrest;
        simpl; [|discriminate].
      destruct (mini_batch_rest_inv _ _ _ _ _ _ _ _ Hrest) as (_ & Hsch' & _).
      destruct (mini_batch_rest_frame _ _ _ _ _ _ _ _ Hrest)
        as (Hm' & Hsm' & Hlp' & Hns' & Htr' & g' & Hcalls').
      intros Hloop.
      destruct (IH _ Hloop)
        as (suffix & k & Hsuf & Hps & Hvs & Hss & Hk & Hfull & Hlr & Hs1 & Hm1
            & Hsm1 & Hlp1 & Hns1 & Htr1).
      assert (Hcur : current_lr (us_agent u'') = current_lr (us_agent u)).
      { unfold current_lr. rewrite Hsch', Hsch. reflexivity. }
      assert (Hcur' : current_lr (us_agent u') = current_lr (us_agent u)).
      { unfold current_lr. rewrite Hsch. reflexivity. }
      exists ([PolicyOptimizerStep grad (current_lr (us_agent u));
               ValueOptimizerStep g' (current_lr (us_agent u))] ++ suffix),
        (S k).
      split.
      { rewrite Hsuf, Hcalls', Hcalls, Hcur', <- !app_assoc. reflexivity. }
      rewrite policy_steps_app, value_steps_app, scheduler_steps_app,
        Hps, Hvs, Hss.
      split; [reflexivity|]. split; [reflexivity|]. split; [reflexivity|].
      split; [simpl; lia|].
      split; [intros Hthr; simpl; rewrite (Hfull Hthr); reflexivity|].
      split.
      { apply Forall_app. split.
        - repeat constructor.
        - rewrite Hcur in Hlr. exact Hlr. }
      rewrite Hs1, Hm1, Hsm1, Hlp1, Hns1, Htr1, Hsch', Hm', Hsm', Hlp', Hns',
        Htr', Hsch, Hm, Hsm, Hlp, Hns, Htr.
      repeat split; reflexivity.
Qed.
Lemma update_learning_rate_calls (h : hyperparameters) (u : update_state) :
  memory (us_agent (update_learning_rate h u)) = memory (us_agent u)
  /\ secondary_memories (us_agent (update_learning_rate h u))
     = secondary_memories (us_agent u)
  /\ _current_log_prob (us_agent (update_learning_rate h u))
     = _current_log_prob (us_agent u)
  /\ _current_next_states (us_agent (update_learning_rate h u))
     = _current_next_states (us_agent u)
  /\ tracker (us_agent (update_learning_rate h u)) = tracker (us_agent u)
  /\ (forall c s,
        _learning_rate_scheduler h = Some c ->
        scheduler (us_agent u) = Some s ->
        us_calls (update_learning_rate h u)
        = us_calls u ++ [SchedulerStep (Rmean (us_kl_divergences u))]
        /\ scheduler (us_agent (update_learning_rate h u))
           = Some (scheduler_step s (Rmean (us_kl_divergences u))))
  /\ (_learning_rate_scheduler h = None \/ scheduler (us_agent u) = None ->
      update_learning_rate h u = u).
Proof.
  unfold update_learning_rate.
  destruct (_learning_rate_scheduler h) as [c|].
  - destruct (scheduler (us_agent u)) as [s|] eqn:Hs; simpl.
    + split; [reflexivity|]. split; [reflexivity|]. split; [reflexivity|].
      split; [reflexivity|]. split; [reflexivity|].
      split.
      * intros c' s' _ [= <-]. split; reflexivity.
      * intros [Hc|Hn]; discriminate.
    + split; [reflexivity|]. split; [reflexivity|]. split; [reflexivity|].
      split; [reflexivity|]. split; [reflexivity|].
      split; [intros c' s' _ [=] | reflexivity].
  - split; [reflexivity|]. split; [reflexivity|]. split; [reflexivity|].
    split; [reflexivity|]. split; [reflexivity|].
    split; [intros c' s' [=] | reflexivity].
Qed.

(** The loop over the learning epochs, from any state of the local
    variables and for any list of epoch indices. *)
Lemma learning_epochs_calls
    (h : hyperparameters)
    (batches : list (States * Actions * list R * list R * list R * list R))
    (epochs : list nat) (u u' : update_state) :
  for_each (learning_epoch h batches) epochs u = Ok u' ->
  exists suffix k,
    us_calls u' = us_calls u ++ suffix
    /\ policy_steps suffix = k /\ value_steps suffix = k
    /\ (k <= length epochs * length batches)%nat
    /\ (truthy (_kl_threshold h) = false ->
        k = (length epochs * length batches)%nat)
    /\ (forall c s,
          _learning_rate_scheduler h = Some c ->
          scheduler (us_agent u) = Some s ->
          scheduler_steps suffix = length epochs)
    /\ (_learning_rate_scheduler h = None \/ scheduler (us_agent u) = None ->
        scheduler_steps suffix = 0%nat
        /\ scheduler (us_agent u') = scheduler (us_agent u)
        /\ Forall (fun c => step_lr c = Some (current_lr (us_agent u))) suffix)
    /\ memory (us_agent u') = memory (us_agent u)
    /\ secondary_memories (us_agent u') = secondary_memories (us_agent u)
    /\ _current_log_prob (us_agent u') = _current_log_prob (us_agent u)
    /\ _current_next_states (us_agent u') = _current_next_states (us_agent u)
    /\ tracker (us_agent u') = tracker (us_agent u).
Proof.
  revert u. induction epochs as [|epoch epochs IH]; intros u.
  - intros [= <-]. exists [], 0%nat. rewrite app_nil_r.
    repeat split; auto.
  - simpl. unfold learning_epoch at 1.
    destruct (mini_batches_loop h epoch batches (start_epoch u)) as [u1|e]
      eqn:Hloop; simpl; [|discriminate].
    destruct (mini_batches_loop_calls _ _ _ _ _ Hloop)
      as (suf1 & k1 & Hsuf1 & Hps1 & Hvs1 & Hss1 & Hk1 & Hfull1 & Hlr1 & Hs1
          & Hm1 & Hsm1 & Hlp1 & Hns1 & Htr1).
    simpl in Hsuf1, Hlr1, Hs1, Hm1, Hsm1, Hlp1, Hns1, Htr1.
    destruct (update_learning_rate_calls h u1)
      as (Hm2 & Hsm2 & Hlp2 & Hns2 & Htr2 & Hact & Hinact).
    intros Hrest.
    destruct (IH _ Hrest)
      as (suf & k & Hsuf & Hps & Hvs & Hk & Hfull & Hsched & Hnone & Hm & Hsm
          & Hlp & Hns & Htr).
    destruct (_learning_rate_scheduler h) as [c|] eqn:Hc.
    + destruct (scheduler (us_agent u)) as [s|] eqn:Hs.
      * destruct (Hact c s eq_refl ltac:(congruence)) as [Hcalls2 Hsch2].
        exists (suf1 ++ [SchedulerStep (Rmean (us_kl_divergences u1))] ++ suf),
          (k1 + k)%nat.
        split.
        { rewrite Hsuf, Hcalls2, Hsuf1, <- !app_assoc. reflexivity. }
        rewrite !policy_steps_app, !value_steps_app, Hps1, Hvs1, Hps, Hvs.
        split; [reflexivity|]. split; [reflexivity|].
        split; [simpl; lia|].
        split; [intros Hthr; rewrite (Hfull1 Hthr), (Hfull Hthr); simpl; lia|].
        split.
        { intros c' s' _ _. rewrite !scheduler_steps_app, Hss1.
          rewrite (Hsched c _ eq_refl Hsch2). reflexivity. }
        split; [intros [?|?]; congruence|].
        rewrite Hm, Hsm, Hlp, Hns, Htr, Hm2, Hsm2, Hlp2, Hns2, Htr2, Hm1, Hsm1,
          Hlp1, Hns1, Htr1.
        repeat split; reflexivity.
      * rewrite (Hinact ltac:(right; congruence)) in *.
        destruct (Hnone ltac:(right; congruence)) as (Hss & Hsame & Hlr).
        exists (suf1 ++ suf), (k1 + k)%nat.
        split; [rewrite Hsuf, Hsuf1, <- app_assoc; reflexivity|].
        rewrite !policy_steps_app, !value_steps_app, Hps1, Hvs1, Hps, Hvs.
        split; [reflexivity|]. split; [reflexivity|].
        split; [simpl; lia|].
        split; [intros Hthr; rewrite (Hfull1 Hthr), (Hfull Hthr); simpl; lia|].
        split; [intros c' s' _ [=]|].
        split.
        { intros _. rewrite scheduler_steps_app, Hss1, Hss.
          split; [reflexivity|]. split; [congruence|].
          apply Forall_app. split; [exact Hlr1|].
          unfold current_lr in Hlr |- *. rewrite Hs1 in Hlr. rewrite Hs.
          exact Hlr. }
        rewrite Hm, Hsm, Hlp, Hns, Htr, Hm1, Hsm1, Hlp1, Hns1, Htr1.
        repeat split; reflexivity.
    + rewrite (Hinact ltac:(left; reflexivity)) in *.
      destruct (Hnone ltac:(left; reflexivity)) as (Hss & Hsame & Hlr).
      exists (suf1 ++ suf), (k1 + k)%nat.
      split; [rewrite Hsuf, Hsuf1, <- app_assoc; reflexivity|].
      rewrite !policy_steps_app, !value_steps_app, Hps1, Hvs1, Hps, Hvs.
      split; [reflexivity|]. split; [reflexivity|].
      split; [simpl; lia|].
      split; [intros Hthr; rewrite (Hfull1 Hthr), (Hfull Hthr); simpl; lia|].
      split; [intros c' s' [=]|].
      split.
      { intros _. rewrite scheduler_steps_app, Hss1, Hss.
        split; [reflexivity|]. split; [congruence|].
        apply Forall_app. split; [exact Hlr1|].
        unfold current_lr in Hlr |- *. rewrite Hs1 in Hlr. exact Hlr. }
      rewrite Hm, Hsm, Hlp, Hns, Htr, Hm1, Hsm1, Hlp1, Hns1, Htr1.
      repeat split; reflexivity.
Qed.
(** In the learning epochs every policy step is followed by a value step,
    and there are at most [learning_epochs * len(sampled_batches)] of each;
    with [kl_threshold = 0], which disables early stopping, there are
    exactly that many. *)
Theorem learning_epochs_optimizer_steps
    (h : hyperparameters)
    (batches : list (States * Actions * list R * list R * list R * list R))
    (u u' : update_state) :
  learning_epochs_loop h batches u = Ok u' ->
  exists k,
    policy_steps (us_calls u') = (policy_steps (us_calls u) + k)%nat
    /\ value_steps (us_calls u') = (value_steps (us_calls u) + k)%nat
    /\ (k <= Z.to_nat (_learning_epochs h) * length batches)%nat
    /\ (_kl_threshold h = 0 ->
        k = (Z.to_nat (_learning_epochs h) * length batches)%nat).
Proof.
  unfold learning_epochs_loop. intros Hloop.
  destruct (learning_epochs_calls _ _ _ _ _ Hloop)
    as (suffix & k & Hsuf & Hps & Hvs & Hk & Hfull & _).
  rewrite length_seq in Hk, Hfull.
  exists k. rewrite Hsuf, policy_steps_app, value_steps_app, Hps, Hvs.
  split; [reflexivity|]. split; [reflexivity|]. split; [exact Hk|].
  intros Hthr. apply Hfull. rewrite Hthr. apply truthy_zero.
Qed.

(** With a learning-rate scheduler configured and a scheduler object in
    place, the learning epochs call [scheduler.step] once per epoch,
    whether or not early stopping cut an epoch short. *)
Theorem scheduler_stepped_every_epoch
    (h : hyperparameters)
    (batches : list (States * Actions * list R * list R * list R * list R))
    (u u' : update_state) (c : scheduler_class) (s : Scheduler) :
  _learning_rate_scheduler h = Some c ->
  scheduler (us_agent u) = Some s ->
  learning_epochs_loop h batches u = Ok u' ->
  scheduler_steps (us_calls u')
  = (scheduler_steps (us_calls u) + Z.to_nat (_learning_epochs h))%nat.
Proof.
  unfold learning_epochs_loop. intros Hc Hs Hloop.
  destruct (learning_epochs_calls _ _ _ _ _ Hloop)
    as (suffix & k & Hsuf & _ & _ & _ & _ & Hsched & _).
  rewrite Hsuf, scheduler_steps_app, (Hsched c s Hc Hs), length_seq.
  reflexivity.
Qed.

(** Without a scheduler object the learning epochs never call
    [scheduler.step], and every optimizer step is given [None] as its
    learning rate. *)
Theorem no_scheduler_no_learning_rate
    (h : hyperparameters)
    (batches : list (States * Actions * list R * list R * list R * list R))
    (u u' : update_state) :
  scheduler (us_agent u) = None ->
  learning_epochs_loop h batches u = Ok u' ->
  exists suffix,
    us_calls u' = us_calls u ++ suffix
    /\ scheduler_steps suffix = 0%nat
    /\ Forall (fun c => step_lr c = Some None) suffix
    /\ scheduler (us_agent u') = None.
Proof.
  unfold learning_epochs_loop. intros Hs Hloop.
  destruct (learning_epochs_calls _ _ _ _ _ Hloop)
    as (suffix & k & Hsuf & _ & _ & _ & _ & _ & Hnone & _).
  destruct (Hnone (or_intror Hs)) as (Hss & Hsame & Hlr).
  exists suffix. split; [exact Hsuf|]. split; [exact Hss|].
  split; [|congruence].
  unfold current_lr in Hlr. rewrite Hs in Hlr. exact Hlr.
Qed.

(** The learning epochs leave the memory, the secondary memories, the
    cached log-probabilities and next states, and the tracked data as they
    were. *)
Theorem learning_epochs_frame
    (h : hyperparameters)
    (batches : list (States * Actions * list R * list R * list R * list R))
    (u u' : update_state) :
  learning_epochs_loop h batches u = Ok u' ->
  memory (us_agent u') = memory (us_agent u)
  /\ secondary_memories (us_agent u') = secondary_memories (us_agent u)
  /\ _current_log_prob (us_agent u') = _current_log_prob (us_agent u)
  /\ _current_next_states (us_agent u') = _current_next_states (us_agent u)
  /\ tracker (us_agent u') = tracker (us_agent u).
Proof.
  unfold learning_epochs_loop. intros Hloop.
  destruct (learning_epochs_calls _ _ _ _ _ Hloop)
    as (suffix & k & _ & _ & _ & _ & _ & _ & _ & Hframe).
  exact Hframe.
Qed.
Lemma mini_batches_loop_entropy
    (x : R) (h : hyperparameters) (epoch : nat)
    (batches : list (States * Actions * list R * list R * list R * list R))
    (u v : update_state) :
  without_entropy_loss u = without_entropy_loss v ->
  result_map without_entropy_loss
    (mini_batches_loop (set__entropy_loss_scale x h) epoch batches u)
  = result_map without_entropy_loss (mini_batches_loop h epoch batches v).
Proof.
  revert u v.
  induction batches as [|[[[[[s ac] lp] vs] r] adv] rest IH]; intros u v Huv.
  - simpl. rewrite Huv. reflexivity.
  - destruct u as [ua uk up ue uv uc]. destruct v as [va vk vp ve vv vc].
    unfold without_entropy_loss in Huv. simpl in Huv.
    injection Huv as -> -> -> -> ->.
    simpl. unfold mini_batch_policy. simpl.
    destruct (apply_state_preprocessor va s (epoch =? 0)%nat) as [s' a'].
    destruct (_update_policy _ _ _ _ _ _ _) as [[[g l] kl]|e]; simpl;
      [|reflexivity].
    destruct (truthy (_kl_threshold h) && Rgtb kl (_kl_threshold h));
      [reflexivity|].
    unfold mini_batch_rest. simpl.
    destruct (policy_optimizer_step _ _ _ _) as [opt model].
    destruct (_update_value _ _ _ _ _ _ _ _) as [[g' vl]|e]; simpl;
      [|reflexivity].
    destruct (value_optimizer_step _ _ _ _) as [opt' model'].
    apply IH. reflexivity.
Qed.

(** The entropy loss reaches no optimizer: with any other
    [entropy_loss_scale] the learning epochs make the same calls and leave
    the same agent, KL divergences and cumulative policy and value losses,
    or raise the same exception; only [cumulative_entropy_loss] can
    differ. *)
Theorem entropy_loss_scale_reaches_no_optimizer
    (h : hyperparameters)
    (batches : list (States * Actions * list R * list R * list R * list R))
    (u : update_state) (x : R) :
  result_map without_entropy_loss
    (learning_epochs_loop (set__entropy_loss_scale x h) batches u)
  = result_map without_entropy_loss (learning_epochs_loop h batches u).
Proof.
  unfold learning_epochs_loop.
  change (_learning_epochs (set__entropy_loss_scale x h))
    with (_learning_epochs h).
  generalize (seq 0 (Z.to_nat (_learning_epochs h))) as epochs.
  assert (Hgen : forall epochs u v,
    without_entropy_loss u = without_entropy_loss v ->
    result_map without_entropy_loss
      (for_each (learning_epoch (set__entropy_loss_scale x h) batches)
         epochs u)
    = result_map without_entropy_loss
        (for_each (learning_epoch h batches) epochs v)).
  { induction epochs as [|epoch epochs IH]; intros u0 v0 Huv.
    - simpl. rewrite Huv. reflexivity.
    - simpl. unfold learning_epoch at 1 3.
      assert (Hstart : without_entropy_loss (start_epoch u0)
                       = without_entropy_loss (start_epoch v0)).
      { unfold without_entropy_loss in *. simpl. congruence. }
      pose proof (mini_batches_loop_entropy x h epoch batches _ _ Hstart)
        as Hloop.
      destruct (mini_batches_loop (set__entropy_loss_scale x h) epoch batches
                  (start_epoch u0)) as [u1|e1];
        destruct (mini_batches_loop h epoch batches (start_epoch v0))
          as [v1|e2]; simpl in Hloop; try discriminate.
      + unfold without_entropy_loss in Hloop.
        injection Hloop as Ha Hk Hp Hv Hc. simpl. apply IH.
        unfold without_entropy_loss.
        unfold update_learning_rate.
        change (_learning_rate_scheduler (set__entropy_loss_scale x h))
          with (_learning_rate_scheduler h).
        rewrite Ha, Hk, Hp, Hv, Hc.
        destruct (_learning_rate_scheduler h);
          destruct (scheduler (us_agent v1)); simpl;
          rewrite ?Ha, ?Hk, ?Hp, ?Hv, ?Hc; reflexivity.
      + simpl. exact Hloop. }
  intros epochs. apply Hgen. reflexivity.
Qed.

(** With [learning_epochs * mini_batches = 0] the metrics cannot be
    averaged: [_update] never completes, and when all that comes before
    the division succeeds the exception is [ZeroDivisionError]. *)
Theorem update_zero_division
    (h : hyperparameters) (a : ppo) (timestep timesteps : Z) :
  (_learning_epochs h * _mini_batches h = 0)%Z ->
  (forall r, _update h a timestep timesteps <> Ok r)
  /\ forall a0 mem u,
       compute_returns_and_advantages h a = Ok (a0, mem) ->
       learning_epochs_loop h
         (sample_all mem _tensors_names (_mini_batches h))
         {| us_agent := a0;
            us_kl_divergences := [];
            us_cumulative_policy_loss := 0;
            us_cumulative_entropy_loss := 0;
            us_cumulative_value_loss := 0;
            us_calls := [] |} = Ok u ->
       _update h a timestep timesteps = Raise ZeroDivisionError.
Proof.
  intros Hzero.
  assert (Hlosses : forall u, record_losses h u = Raise ZeroDivisionError).
  { intros u. unfold record_losses, py_div. rewrite Hzero. reflexivity. }
  split.
  - intros r. unfold _update.
    destruct (compute_returns_and_advantages h a) as [[a0 mem]|e]; simpl;
      [|discriminate].
    destruct (for_each _ _ _) as [u|e]; simpl; [|discriminate].
    rewrite Hlosses. discriminate.
  - intros a0 mem u Hpre Hloop. unfold _update. rewrite Hpre. simpl.
    unfold learning_epochs_loop in Hloop. rewrite Hloop. simpl.
    rewrite Hlosses. reflexivity.
Qed.
End EpochsLoop.


Module UpdateWitnesses.
Import DemoTwo.
Local Open Scope R_scope.

Local Abbreviation batches := (sample_all rollout_memory _tensors_names 1).

Lemma epochs_run :
  exists u', learning_epochs_loop hyper batches start = Ok u'.
Proof.
  destruct DemoTwoFacts.rollout_epoch as (u & Hepoch & _).
  exists u. unfold learning_epochs_loop.
  change (Z.to_nat (_learning_epochs hyper)) with 1%nat.
  cbn [seq for_each]. rewrite Hepoch. reflexivity.
Qed.

Lemma epochs_run_no_scheduler :
  exists u', learning_epochs_loop hyper batches start_no_scheduler = Ok u'.
Proof.
  unfold learning_epochs_loop.
  change (Z.to_nat (_learning_epochs hyper)) with 1%nat.
  cbn [seq for_each]. unfold learning_epoch. simpl.
  unfold mini_batch_policy. simpl. unfold _update_policy, _policy_loss. simpl.
  rewrite Rgtb_false by (rewrite DemoTwoFacts.kl_zero; lra).
  rewrite andb_false_r. simpl.
  unfold mini_batch_rest. simpl.
  unfold _update_value, _value_loss, value_loss_of. simpl.
  eexists. reflexivity.
Qed.

Lemma act_then_record_stores_log_prob_witness :
  exists actions log_prob outputs a',
    act hyper agent [1; 2] 0 100 = (PolicyAct actions log_prob outputs, a')
    /\ _current_log_prob a' = Some log_prob.
Proof.
  destruct (act_then_record_stores_log_prob hyper agent [1; 2] 0 100
              ltac:(simpl; lia))
    as (actions & log_prob & outputs & a' & Hact & _ & Hcached & _).
  exists actions, log_prob, outputs, a'. split; assumption.
Defined.

Lemma record_transition_stores_witness :
  exists smp,
    memory (record_transition hyper agent [1; 2] tt [1; 0] [3; 4]
              [false; false] [false; false] tt 0 2)
    = Some (add_samples [] smp)
    /\ smp_rewards smp = [1; 0]
    /\ smp_next_states smp = [3; 4].
Proof.
  destruct (record_transition_stores hyper agent [] [1; 2] tt [1; 0] [3; 4]
              [false; false] [false; false] tt 0 2 eq_refl)
    as (smp & Hmem & _ & _ & Hnext & _ & _ & Hrew & _).
  exists smp. split; [exact Hmem|]. split; [exact Hrew | exact Hnext].
Defined.

Lemma learning_epochs_optimizer_steps_witness :
  exists u' k,
    learning_epochs_loop hyper batches start = Ok u'
    /\ policy_steps (us_calls u') = k
    /\ value_steps (us_calls u') = k
    /\ (k <= 1)%nat.
Proof.
  destruct epochs_run as [u' Hrun].
  destruct (learning_epochs_optimizer_steps hyper batches start u' Hrun)
    as (k & Hps & Hvs & Hk & _).
  exists u', k. split; [exact Hrun|]. split; [exact Hps|].
  split; [exact Hvs | exact Hk].
Defined.

Lemma scheduler_stepped_every_epoch_witness :
  exists u',
    learning_epochs_loop hyper batches start = Ok u'
    /\ scheduler_steps (us_calls u') = 1%nat.
Proof.
  destruct epochs_run as [u' Hrun].
  exists u'. split; [exact Hrun|].
  exact (scheduler_stepped_every_epoch hyper batches start u' KLAdaptiveRL
           0.001 eq_refl eq_refl Hrun).
Defined.

Lemma no_scheduler_no_learning_rate_witness :
  exists u' suffix,
    learning_epochs_loop hyper batches start_no_scheduler = Ok u'
    /\ us_calls u' = suffix
    /\ scheduler_steps suffix = 0%nat
    /\ Forall (fun c => step_lr c = Some None) suffix.
Proof.
  destruct epochs_run_no_scheduler as [u' Hrun].
  destruct (no_scheduler_no_learning_rate hyper batches start_no_scheduler u'
              eq_refl Hrun) as (suffix & Hcalls & Hsteps & Hlr & _).
  exists u', suffix. split; [exact Hrun|]. split; [exact Hcalls|].
  split; [exact Hsteps | exact Hlr].
Defined.

Lemma learning_epochs_frame_witness :
  exists u',
    learning_epochs_loop hyper batches start = Ok u'
    /\ memory (us_agent u') = Some rollout_memory
    /\ _current_next_states (us_agent u') = Some [5; 6].
Proof.
  destruct epochs_run as [u' Hrun].
  destruct (learning_epochs_frame hyper batches start u' Hrun)
    as (Hmem & _ & _ & Hnext & _).
  exists u'. split; [exact Hrun|]. split; [exact Hmem | exact Hnext].
Defined.

Lemma update_zero_division_witness :
  _update hyper_no_epochs rollout 2 2 = Raise ZeroDivisionError.
Proof.
  apply (proj2 (update_zero_division hyper_no_epochs rollout 2 2 eq_refl)
           rollout_agent rollout_memory
           {| us_agent := rollout_agent;
              us_kl_divergences := [];
              us_cumulative_policy_loss := 0;
              us_cumulative_entropy_loss := 0;
              us_cumulative_value_loss := 0;
              us_calls := [] |});
    reflexivity.
Defined.
End UpdateWitnesses.

(** ** The estimator on tensors, environment by environment *)

Lemma environment_lookup {A : Type} (n j : nat) (xss : list (list A)) (i : nat) :
  rows_of n xss -> j < n ->
  environment j xss !! i = xss !! i ≫= (fun row => row !! j).
Proof.
  intros Hrows Hj. revert i. unfold environment.
  induction Hrows as [|row xss Hrow Hrows IH]; intros i; [reflexivity|].
  simpl. destruct (lookup_lt_is_Some_2 row j) as [x Hx]; [lia|].
  rewrite Hx. destruct i as [|i]; simpl; [symmetry; exact Hx | apply IH].
Qed.

Lemma environment_length {A : Type} (n j : nat) (xss : list (list A)) :
  rows_of n xss -> j < n -> length (environment j xss) = length xss.
Proof.
  intros Hrows Hj. unfold environment.
  induction Hrows as [|row xss Hrow Hrows IH]; [reflexivity|].
  simpl. destruct (lookup_lt_is_Some_2 row j) as [x Hx]; [lia|].
  rewrite Hx. simpl. f_equal. exact IH.
Qed.

Lemma rows_of_lookup {A : Type} (n : nat) (xss : list (list A)) (i : nat)
    (row : list A) :
  rows_of n xss -> xss !! i = Some row -> length row = n.
Proof.
  intros Hrows Hi. unfold rows_of in Hrows. rewrite Forall_lookup in Hrows.
  exact (Hrows i row Hi).
Qed.

Lemma rows_of_insert {A : Type} (n : nat) (xss : list (list A)) (i : nat)
    (row : list A) :
  rows_of n xss -> length row = n -> rows_of n (<[i := row]> xss).
Proof. intros Hrows Hrow. apply Forall_insert; assumption. Qed.

Section Broadcast.
Context {A : Type}.
Variable f : A -> A -> A.

Lemma broadcast_fits (n : nat) (xs ys : list A) :
  fits n xs -> fits n ys ->
  exists zs,
    broadcast f xs ys = Ok zs
    /\ fits n zs
    /\ (length xs = n \/ length ys = n -> length zs = n).
Proof.
  intros Hx Hy. unfold broadcast.
  destruct (decide (length xs = length ys)) as [Heq|Hne].
  - eexists. split; [reflexivity|]. unfold fits in *.
    rewrite !length_zip_with. split; lia.
  - destruct xs as [|x [|x' xs]]; destruct ys as [|y [|y' ys]];
      unfold fits in *; simpl in *; try lia;
      (eexists; split; [reflexivity|]; simpl; rewrite ?length_map; simpl;
       split; lia).
Qed.

Lemma broadcast_stretched (n j : nat) (xs ys zs : list A) (x y : A) :
  fits n xs -> fits n ys -> j < n ->
  broadcast f xs ys = Ok zs ->
  stretched n j xs = Some x -> stretched n j ys = Some y ->
  stretched n j zs = Some (f x y).
Proof.
  intros Hx Hy Hj. unfold broadcast, stretched.
  destruct (decide (length xs = length ys)) as [Heq|Hne].
  - intros [= <-]. rewrite length_zip_with, <- Heq, Nat.min_id.
    destruct (decide (length xs = n)); intros Hxj Hyj;
      rewrite lookup_zip_with, Hxj; simpl; rewrite Hyj; reflexivity.
  - destruct xs as [|x0 [|x' xs]]; destruct ys as [|y0 [|y' ys]];
      unfold fits in *; simpl in *; try lia.
    + intros [= <-]. simpl. rewrite length_map.
      destruct (decide (1 = n)); [lia|].
      destruct (decide (S (S (length ys)) = n)); [|lia].
      intros [= ->] Hyj.
      change (map (f x) (y0 :: y' :: ys) !! j = Some (f x y)).
      rewrite lookup_map, Hyj. reflexivity.
    + intros [= <-]. simpl. rewrite length_map.
      destruct (decide (1 = n)); [lia|].
      destruct (decide (S (S (length xs)) = n)); [|lia].
      intros Hxj [= ->].
      change (map (fun x => f x y) (x0 :: x' :: xs) !! j = Some (f x y)).
      rewrite lookup_map, Hxj. reflexivity.
Qed.
End Broadcast.

Lemma environment_insert {A : Type} (n j : nat) (xss : list (list A)) (i : nat)
    (row : list A) (x : A) :
  rows_of n xss -> j < n -> row !! j = Some x ->
  environment j (<[i := row]> xss) = <[i := x]> (environment j xss).
Proof.
  intros Hrows Hj Hx. revert i. unfold environment.
  induction Hrows as [|row' xss Hrow Hrows IH]; intros i; [reflexivity|].
  destruct (lookup_lt_is_Some_2 row' j) as [x' Hx']; [lia|].
  destruct i as [|i]; simpl.
  - rewrite Hx, Hx'. reflexivity.
  - rewrite Hx'. simpl. f_equal. apply IH.
Qed.

Lemma environment_zeros {A B : Type} (n j : nat) (xss : list (list A)) (z : B) :
  rows_of n xss -> j < n ->
  environment j (map (map (fun _ => z)) xss) = replicate (length xss) z.
Proof.
  intros Hrows Hj. unfold environment.
  induction Hrows as [|row xss Hrow Hrows IH]; [reflexivity|].
  simpl. rewrite lookup_map.
  destruct (lookup_lt_is_Some_2 row j) as [x Hx]; [lia|].
  rewrite Hx. simpl. f_equal. exact IH.
Qed.

Section RolloutEnvironments.
Context {F : Type} `{Num F}.
Variables (rewards : list (list F)) (dones : list (list bool)).
Variables (values : list (list F)).
Variables (discount_factor lambda_coefficient : F) (n : nat).
Hypothesis dones_length : length dones = length rewards.
Hypothesis values_length : length values = length rewards.
Hypothesis rewards_rows : rows_of n rewards.
Hypothesis dones_rows : rows_of n dones.
Hypothesis values_rows : rows_of n values.

Local Abbreviation T := (length rewards).

(** One iteration on tensors, spelled out. *)
Lemma rollout_gae_step_runs (i : nat) (st : Rollout.gae_state) :
  i < T -> rollout_shape n T st ->
  exists next_values r v d continuation,
    (if (i <? T - 1)%nat then values !! (i + 1)%nat = Some next_values
     else next_values = Rollout.gs_next_values st)
    /\ length next_values = n
    /\ rewards !! i = Some r /\ values !! i = Some v /\ dones !! i = Some d
    /\ length r = n /\ length v = n /\ length d = n
    /\ broadcast num_add next_values
         (map (fun a => num_mul lambda_coefficient a)
            (Rollout.gs_advantage st)) = Ok continuation
    /\ length continuation = n
    /\ let advantage :=
         zip_with num_add (zip_with num_sub r v)
           (zip_with num_mul
              (map (fun b => num_mul discount_factor (of_bool b))
                 (map negb d))
              continuation) in
       Rollout.gae_step rewards dones values discount_factor
         lambda_coefficient i st
       = Ok {| Rollout.gs_next_values := next_values;
               Rollout.gs_advantage := advantage;
               Rollout.gs_advantages :=
                 <[i := advantage]> (Rollout.gs_advantages st) |}.
Proof.
  intros Hi (Hnv & Hadv & Hlen & Hrows).
  destruct (lookup_lt_is_Some_2 rewards i) as [r Hr]; [lia|].
  destruct (lookup_lt_is_Some_2 values i) as [v Hv]; [lia|].
  destruct (lookup_lt_is_Some_2 dones i) as [d Hd]; [lia|].
  destruct (lookup_lt_is_Some_2 (Rollout.gs_advantages st) i) as [row Hrow];
    [lia|].
  pose proof (rows_of_lookup _ _ _ _ rewards_rows Hr) as Hrn.
  pose proof (rows_of_lookup _ _ _ _ values_rows Hv) as Hvn.
  pose proof (rows_of_lookup _ _ _ _ dones_rows Hd) as Hdn.
  pose proof (rows_of_lookup _ _ _ _ Hrows Hrow) as Hrown.
  assert (Hnext : exists next_values,
             (if (i <? T - 1)%nat then values !! (i + 1)%nat = Some next_values
              else next_values = Rollout.gs_next_values st)
             /\ length next_values = n
             /\ (if (i <? T - 1)%nat then index values (i + 1)%nat
                 else Ok (Rollout.gs_next_values st)) = Ok next_values).
  { destruct (Nat.ltb_spec i (T - 1)) as [Hlt|Hge].
    - destruct (lookup_lt_is_Some_2 values (i + 1)) as [nv Hnv']; [lia|].
      exists nv. split; [exact Hnv'|].
      split; [exact (rows_of_lookup _ _ _ _ values_rows Hnv')|].
      apply index_ok. exact Hnv'.
    - exists (Rollout.gs_next_values st). split; [reflexivity|].
      split; [exact Hnv | reflexivity]. }
  destruct Hnext as (next_values & Hnext & Hnextn & Hindex).
  destruct (broadcast_fits num_add n next_values
              (map (fun a => num_mul lambda_coefficient a)
                 (Rollout.gs_advantage st)))
    as (continuation & Hcont & _ & Hcontn).
  { left. exact Hnextn. }
  { unfold fits in *. rewrite length_map. exact Hadv. }
  specialize (Hcontn (or_introl Hnextn)).
  exists next_values, r, v, d, continuation.
  split; [exact Hnext|]. split; [exact Hnextn|].
  split; [exact Hr|]. split; [exact Hv|]. split; [exact Hd|].
  split; [exact Hrn|]. split; [exact Hvn|]. split; [exact Hdn|].
  split; [exact Hcont|]. split; [exact Hcontn|].
  intros advantage. unfold Rollout.gae_step, Rollout.memory_size.
  rewrite Hindex. simpl.
  rewrite (index_ok _ _ _ Hr), (index_ok _ _ _ Hv). simpl.
  rewrite broadcast_same_length by lia. simpl.
  assert (Hnd : index (Rollout.not_dones dones) i = Ok (map negb d)).
  { apply index_ok. unfold Rollout.not_dones. rewrite lookup_map, Hd.
    reflexivity. }
  rewrite Hnd. simpl. rewrite Hcont. simpl.
  rewrite broadcast_same_length by (rewrite !length_map; lia). simpl.
  rewrite broadcast_same_length
    by (rewrite !length_zip_with, !length_map; lia).
  simpl. rewrite (index_ok _ _ _ Hrow). simpl.
  unfold Rollout.assign_row.
  rewrite decide_True
    by (rewrite !length_zip_with, !length_map; lia).
  reflexivity.
Qed.

Lemma stretched_full {A : Type} (j : nat) (xs : list A) :
  stretched (length xs) j xs = xs !! j.
Proof. unfold stretched. rewrite decide_True by reflexivity. reflexivity. Qed.

Lemma stretched_map {A B : Type} (g : A -> B) (m j : nat) (xs : list A) (x : A) :
  stretched m j xs = Some x -> stretched m j (map g xs) = Some (g x).
Proof.
  unfold stretched. rewrite length_map.
  destruct (decide (length xs = m)); intros Hx; rewrite lookup_map, Hx;
    reflexivity.
Qed.

(** One iteration on tensors keeps the shape of the state, and is one
    iteration on the trajectory of every environment. *)
Lemma rollout_gae_step_environments (i : nat) (st : Rollout.gae_state) :
  i < T -> rollout_shape n T st ->
  exists st',
    Rollout.gae_step rewards dones values discount_factor lambda_coefficient
      i st = Ok st'
    /\ rollout_shape n T st'
    /\ forall j st_j,
         j < n -> tracks n j st st_j ->
         exists st_j',
           gae_step (environment j rewards) (environment j dones)
             (environment j values) discount_factor lambda_coefficient i st_j
           = Ok st_j'
           /\ tracks n j st' st_j'.
Proof.
  intros Hi Hshape.
  destruct (rollout_gae_step_runs i st Hi Hshape)
    as (next_values & r & v & d & continuation & Hnext & Hnextn & Hr & Hv
        & Hd & Hrn & Hvn & Hdn & Hcont & Hcontn & Hstep).
  destruct Hshape as (Hnv & Hadv & Hlen & Hrows).
  eexists. split; [exact Hstep|].
  assert (Hadvn :
    length
      (zip_with num_add (zip_with num_sub r v)
         (zip_with num_mul
            (map (fun b => num_mul discount_factor (of_bool b)) (map negb d))
            continuation)) = n).
  { rewrite !length_zip_with, !length_map. lia. }
  split.
  { unfold rollout_shape. simpl. split; [exact Hnextn|].
    split; [left; exact Hadvn|].
    split; [rewrite length_insert; exact Hlen|].
    apply rows_of_insert; assumption. }
  intros j st_j Hj (Htnv & Htadv & Htadvs).
  destruct (lookup_lt_is_Some_2 r j) as [r_j Hrj]; [lia|].
  destruct (lookup_lt_is_Some_2 v j) as [v_j Hvj]; [lia|].
  destruct (lookup_lt_is_Some_2 d j) as [d_j Hdj]; [lia|].
  destruct (lookup_lt_is_Some_2 next_values j) as [nv_j Hnvj]; [lia|].
  assert (Hcontj :
    continuation !! j
    = Some (num_add nv_j (num_mul lambda_coefficient (gs_advantage st_j)))).
  { rewrite <- (stretched_full j continuation), Hcontn.
    apply (broadcast_stretched num_add n j next_values
             (map (fun a => num_mul lambda_coefficient a)
                (Rollout.gs_advantage st)));
      [left; exact Hnextn
      |unfold fits in *; rewrite length_map; exact Hadv
      |exact Hj
      |exact Hcont
      |rewrite <- Hnextn, stretched_full; exact Hnvj
      |apply stretched_map; exact Htadv]. }
  assert (Hnext_j :
    (if (i <? memory_size (environment j rewards) - 1)%nat
     then index (environment j values) (i + 1)%nat
     else Ok (gs_next_values st_j)) = Ok nv_j).
  { unfold memory_size.
    rewrite (environment_length n j rewards rewards_rows Hj).
    destruct (i <? T - 1)%nat.
    - apply index_ok.
      rewrite (environment_lookup n j values _ values_rows Hj), Hnext.
      exact Hnvj.
    - subst next_values. rewrite Htnv in Hnvj. congruence. }
  unfold gae_step. rewrite Hnext_j. simpl.
  rewrite (index_ok (environment j rewards) i r_j)
    by (rewrite (environment_lookup n j rewards _ rewards_rows Hj), Hr;
        exact Hrj).
  simpl.
  rewrite (index_ok (environment j values) i v_j)
    by (rewrite (environment_lookup n j values _ values_rows Hj), Hv;
        exact Hvj).
  simpl.
  rewrite (index_ok (not_dones (environment j dones)) i (negb d_j))
    by (unfold not_dones;
        rewrite lookup_map,
          (environment_lookup n j dones _ dones_rows Hj), Hd;
        simpl; rewrite Hdj; reflexivity).
  simpl. eexists. split; [reflexivity|].
  assert (Hadvj :
    zip_with num_add (zip_with num_sub r v)
      (zip_with num_mul
         (map (fun b => num_mul discount_factor (of_bool b)) (map negb d))
         continuation) !! j
    = Some (num_add (num_sub r_j v_j)
              (num_mul (num_mul discount_factor (of_bool (negb d_j)))
                 (num_add nv_j
                    (num_mul lambda_coefficient (gs_advantage st_j)))))).
  { rewrite !lookup_zip_with, !lookup_map, Hrj, Hdj, Hcontj. simpl.
    rewrite Hvj. reflexivity. }
  unfold tracks. simpl. split; [exact Hnvj|].
  split.
  - rewrite <- Hadvn at 1. rewrite stretched_full. exact Hadvj.
  - rewrite (environment_insert n j _ i _ _ Hrows Hj Hadvj), Htadvs.
    reflexivity.
Qed.

Lemma rollout_for_each_environments (indices : list nat)
    (st : Rollout.gae_state) :
  Forall (fun i => i < T) indices -> rollout_shape n T st ->
  exists st',
    for_each
      (Rollout.gae_step rewards dones values discount_factor
         lambda_coefficient) indices st = Ok st'
    /\ rollout_shape n T st'
    /\ forall j st_j,
         j < n -> tracks n j st st_j ->
         exists st_j',
           for_each
             (gae_step (environment j rewards) (environment j dones)
                (environment j values) discount_factor lambda_coefficient)
             indices st_j = Ok st_j'
           /\ tracks n j st' st_j'.
Proof.
  intros Hall. revert st.
  induction Hall as [|i indices Hi Hall IH]; intros st Hshape.
  - exists st. split; [reflexivity|]. split; [exact Hshape|].
    intros j st_j _ Htr. exists st_j. split; [reflexivity | exact Htr].
  - destruct (rollout_gae_step_environments i st Hi Hshape)
      as (st1 & Hstep & Hshape1 & Henv1).
    destruct (IH st1 Hshape1) as (st' & Hloop & Hshape' & Henv').
    exists st'. simpl. rewrite Hstep. simpl.
    split; [exact Hloop|]. split; [exact Hshape'|].
    intros j st_j Hj Htr.
    destruct (Henv1 j st_j Hj Htr) as (st_j1 & Hstep_j & Htr1).
    destruct (Henv' j st_j1 Hj Htr1) as (st_j' & Hloop_j & Htr').
    exists st_j'. rewrite Hstep_j. simpl. split; assumption.
Qed.

(** The loop from its initial state. *)
Lemma rollout_gae_loop_shape (next_values : list F) :
  length next_values = n ->
  exists st,
    Rollout.gae_loop rewards dones values discount_factor lambda_coefficient
      next_values = Ok st
    /\ rollout_shape n T st
    /\ forall j st_j,
         j < n ->
         tracks n j
           {| Rollout.gs_next_values := next_values;
              Rollout.gs_advantage := [num_zero];
              Rollout.gs_advantages :=
                map (map (fun _ => num_zero)) rewards |} st_j ->
         exists st_j',
           for_each
             (gae_step (environment j rewards) (environment j dones)
                (environment j values) discount_factor lambda_coefficient)
             (rev (seq 0 T)) st_j = Ok st_j'
           /\ tracks n j st st_j'.
Proof.
  intros Hnv. unfold Rollout.gae_loop, Rollout.memory_size.
  apply rollout_for_each_environments.
  - apply Forall_forall. intros i Hi.
    apply list_elem_of_In, in_rev, in_seq in Hi. lia.
  - unfold rollout_shape. simpl. split; [exact Hnv|].
    split; [right; reflexivity|].
    split; [apply length_map|].
    unfold rows_of in *. rewrite Forall_map.
    eapply Forall_impl; [exact rewards_rows|].
    intros row Hrow. simpl. rewrite length_map. exact Hrow.
Qed.

(** On tensors of [T] rows of [n] entries and [n] bootstrap values, the
    loop of [compute_gae] returns, and the advantages it computes for
    environment [j] are those the loop computes on the trajectory of that
    environment alone. *)
Theorem rollout_gae_environments (next_values : list F) :
  length next_values = n ->
  exists st,
    Rollout.gae_loop rewards dones values discount_factor lambda_coefficient
      next_values = Ok st
    /\ length (Rollout.gs_advantages st) = length rewards
    /\ rows_of n (Rollout.gs_advantages st)
    /\ forall j bootstrap,
         next_values !! j = Some bootstrap ->
         exists st_j,
           gae_loop (environment j rewards) (environment j dones)
             (environment j values) discount_factor lambda_coefficient
             bootstrap = Ok st_j
           /\ environment j (Rollout.gs_advantages st) = gs_advantages st_j.
Proof.
  intros Hnv.
  destruct (rollout_gae_loop_shape next_values Hnv)
    as (st & Hloop & (_ & _ & Hlen & Hrows) & Henv).
  exists st. split; [exact Hloop|]. split; [exact Hlen|].
  split; [exact Hrows|].
  intros j bootstrap Hb.
  assert (Hj : j < n) by (rewrite <- Hnv; eapply lookup_lt_Some; exact Hb).
  destruct (Henv j
              {| gs_next_values := bootstrap;
                 gs_advantage := num_zero;
                 gs_advantages := replicate T num_zero |} Hj)
    as (st_j & Hloop_j & _ & _ & Hadvs).
  { unfold tracks. simpl. split; [exact Hb|]. split.
    - unfold stretched. simpl. destruct (decide (1 = n)) as [Hn|Hn].
      + assert (j = 0) as -> by lia. reflexivity.
      + reflexivity.
    - apply (environment_zeros n); assumption. }
  exists st_j. split; [|exact Hadvs].
  unfold gae_loop, memory_size.
  rewrite (environment_length n j rewards rewards_rows Hj).
  exact Hloop_j.
Qed.

Lemma collect_zip_rows (f : F -> F -> F) (m : nat) (xss yss : list (list F)) :
  rows_of m xss -> rows_of m yss ->
  Rollout.collect (zip_with (broadcast f) xss yss)
  = Ok (zip_with (zip_with f) xss yss).
Proof.
  intros Hx. revert yss.
  induction Hx as [|xs xss Hxs Hx IH]; intros yss Hy; [reflexivity|].
  destruct Hy as [|ys yss Hys Hy]; [reflexivity|].
  simpl. rewrite broadcast_same_length by lia. simpl.
  rewrite (IH yss Hy). reflexivity.
Qed.

(** On such tensors [compute_gae] returns: the returns are the advantages
    of the loop plus the values, entry by entry, and the advantages are
    normalised with the mean and the standard deviation of all the entries
    of the tensor. *)
Theorem rollout_compute_gae_returns `{!NumStats F} (next_values : list F) :
  length next_values = n ->
  exists st,
    Rollout.gae_loop rewards dones values discount_factor lambda_coefficient
      next_values = Ok st
    /\ Rollout.compute_gae rewards dones values next_values discount_factor
         lambda_coefficient
       = Ok (zip_with (zip_with num_add) (Rollout.gs_advantages st) values,
             map (map (fun x =>
                         num_div
                           (num_sub x
                              (np_mean (concat (Rollout.gs_advantages st))))
                           (num_add
                              (np_std (concat (Rollout.gs_advantages st)))
                              num_1e_8)))
               (Rollout.gs_advantages st)).
Proof.
  intros Hnv.
  destruct (rollout_gae_loop_shape next_values Hnv)
    as (st & Hloop & (_ & _ & Hlen & Hrows) & _).
  exists st. split; [exact Hloop|].
  unfold Rollout.compute_gae. rewrite Hloop. simpl.
  unfold Rollout.broadcast_rows.
  rewrite decide_True by congruence.
  rewrite (collect_zip_rows num_add n _ _ Hrows values_rows). reflexivity.
Qed.
End RolloutEnvironments.

Module RolloutWitnesses.
Local Open Scope Z_scope.

Lemma rollout_gae_environments_witness :
  exists st,
    Rollout.gae_loop [[1; 0]; [0; 1]] [[false; false]; [false; true]]
      [[1; 2]; [3; 4]] 1 1 [5; 6] = Ok st
    /\ length (Rollout.gs_advantages st) = 2%nat
    /\ exists st_0 st_1,
         gae_loop [1; 0] [false; false] [1; 3] 1 1 5 = Ok st_0
         /\ gae_loop [0; 1] [false; true] [2; 4] 1 1 6 = Ok st_1
         /\ environment 0 (Rollout.gs_advantages st) = gs_advantages st_0
         /\ environment 1 (Rollout.gs_advantages st) = gs_advantages st_1.
Proof.
  destruct (rollout_gae_environments (F := Z)
              [[1; 0]; [0; 1]] [[false; false]; [false; true]]
              [[1; 2]; [3; 4]] 1 1 2 eq_refl eq_refl
              ltac:(repeat constructor) ltac:(repeat constructor)
              ltac:(repeat constructor) [5; 6] eq_refl)
    as (st & Hloop & Hlen & _ & Henv).
  exists st. split; [exact Hloop|]. split; [exact Hlen|].
  destruct (Henv 0%nat 5 eq_refl) as (st_0 & Hloop_0 & Henv_0).
  destruct (Henv 1%nat 6 eq_refl) as (st_1 & Hloop_1 & Henv_1).
  exists st_0, st_1. repeat split; assumption.
Defined.

Lemma rollout_compute_gae_returns_witness :
  exists st returns advantages,
    Rollout.gae_loop [[1; 0]; [0; 1]]%R [[false; false]; [false; true]]
      [[1; 2]; [3; 4]]%R 0.99%R 0.95%R [5; 6]%R = Ok st
    /\ Rollout.compute_gae [[1; 0]; [0; 1]]%R [[false; false]; [false; true]]
         [[1; 2]; [3; 4]]%R [5; 6]%R 0.99%R 0.95%R = Ok (returns, advantages)
    /\ returns
       = zip_with (zip_with Rplus) (Rollout.gs_advantages st)
           [[1; 2]; [3; 4]]%R.
Proof.
  destruct (rollout_compute_gae_returns (F := R)
              [[1; 0]; [0; 1]]%R [[false; false]; [false; true]]
              [[1; 2]; [3; 4]]%R 0.99%R 0.95%R 2 eq_refl eq_refl
              ltac:(repeat constructor) ltac:(repeat constructor)
              ltac:(repeat constructor) [5; 6]%R eq_refl)
    as (st & Hloop & Hgae).
  exists st. eexists _, _. split; [exact Hloop|]. split; [exact Hgae|].
  reflexivity.
Defined.

(** Two environments over two steps, with integers: the second environment
    ends at the second step. *)
Example rollout_gae_two_environments :
  Rollout.gae_loop [[1; 0]; [0; 1]] [[false; false]; [false; true]]
    [[1; 2]; [3; 4]] 1 1 [5; 6]
  = Ok {| Rollout.gs_next_values := [3; 4];
          Rollout.gs_advantage := [5; -1];
          Rollout.gs_advantages := [[5; -1]; [2; -3]] |}.
Proof. vm_compute. reflexivity. Qed.
End RolloutWitnesses.

(** ** Configuration: what a construction changes *)

Module ConfigMore.
Import Config.

(** Constructing an agent without a configuration leaves every dictionary
    as it was and hands [PPO_DEFAULT_CONFIG] itself to the base class. *)
Theorem PPO_init_without_cfg (σ : store) :
  PPO_init None σ = (PPO_DEFAULT_CONFIG, σ).
Proof.
  unfold PPO_init, dict_update, store in *. f_equal.
  destruct (σ !! PPO_DEFAULT_CONFIG) as [m|] eqn:Hm; [|reflexivity].
  rewrite (left_id_L ∅ (∪) m). apply insert_id. exact Hm.
Qed.

(** A key the caller does not override keeps the value it had in
    [PPO_DEFAULT_CONFIG]. *)
Theorem PPO_init_keeps_other_keys
    (cfg : gmap string pyval) (σ : store) (key : string) :
  cfg !! key = None ->
  getitem (PPO_init (Some cfg) σ).2 PPO_DEFAULT_CONFIG key
  = getitem σ PPO_DEFAULT_CONFIG key.
Proof.
  intros Hkey. unfold PPO_init, dict_update, getitem, store in *. simpl.
  destruct (σ !! PPO_DEFAULT_CONFIG) as [m|] eqn:Hm.
  - rewrite lookup_insert_eq. rewrite lookup_union_r by exact Hkey.
    reflexivity.
  - rewrite Hm. reflexivity.
Qed.

(** The update is shallow: no dictionary other than the one
    [PPO_DEFAULT_CONFIG] names is changed, the nested default dictionaries
    included. *)
Theorem PPO_init_keeps_other_dictionaries
    (cfg : option (gmap string pyval)) (σ : store) (l : loc) :
  l <> PPO_DEFAULT_CONFIG ->
  (PPO_init cfg σ).2 !! l = σ !! l.
Proof.
  intros Hl. unfold PPO_init, dict_update, store in *. simpl.
  destruct (σ !! PPO_DEFAULT_CONFIG) as [m|]; [|reflexivity].
  apply lookup_insert_ne. congruence.
Qed.

(** Overrides accumulate: what one construction overrides is what the next
    construction starts from, unless it overrides the same key again. *)
Theorem PPO_init_overrides_accumulate
    (cfg1 cfg2 d : gmap string pyval) (σ : store) (key : string) (v : pyval) :
  σ !! PPO_DEFAULT_CONFIG = Some d ->
  cfg1 !! key = Some v ->
  cfg2 !! key = None ->
  let first := PPO_init (Some cfg1) σ in
  let second := PPO_init (Some cfg2) first.2 in
  second.2 !! PPO_DEFAULT_CONFIG = Some (cfg2 ∪ (cfg1 ∪ d))
  /\ getitem second.2 second.1 key = Some v.
Proof.
  intros Hd H1 H2 first second. subst first second.
  unfold PPO_init, dict_update, getitem, store in *. simpl.
  rewrite Hd. rewrite !lookup_insert_eq. split; [reflexivity|].
  rewrite lookup_union_r by exact H2.
  apply lookup_union_Some_l. exact H1.
Qed.
End ConfigMore.

Module ConfigWitnesses.
Import Config.

Lemma PPO_init_writes_defaults_witness :
  getitem (PPO_init (Some {[ "rollouts"%string := VInt 32 ]}) module_store).2
    PPO_DEFAULT_CONFIG "rollouts"
  = Some (VInt 32).
Proof.
  apply (ConfigFacts.PPO_init_writes_defaults
           {[ "rollouts"%string := VInt 32 ]} defaults module_store
           "rollouts" (VInt 32)); reflexivity.
Defined.

Lemma PPO_init_keeps_other_keys_witness :
  getitem (PPO_init (Some {[ "rollouts"%string := VInt 32 ]}) module_store).2
    PPO_DEFAULT_CONFIG "mini_batches"
  = getitem module_store PPO_DEFAULT_CONFIG "mini_batches".
Proof.
  apply (ConfigMore.PPO_init_keeps_other_keys
           {[ "rollouts"%string := VInt 32 ]} module_store "mini_batches").
  reflexivity.
Defined.

Lemma PPO_init_keeps_other_dictionaries_witness :
  (PPO_init (Some {[ "rollouts"%string := VInt 32 ]}) module_store).2
    !! experiment
  = module_store !! experiment.
Proof.
  apply (ConfigMore.PPO_init_keeps_other_dictionaries
           (Some {[ "rollouts"%string := VInt 32 ]}) module_store experiment).
  discriminate.
Defined.

Lemma PPO_init_overrides_accumulate_witness :
  let first := PPO_init (Some {[ "rollouts"%string := VInt 32 ]}) module_store in
  let second := PPO_init (Some {[ "mini_batches"%string := VInt 4 ]}) first.2 in
  second.2 !! PPO_DEFAULT_CONFIG
  = Some ({[ "mini_batches"%string := VInt 4 ]}
          ∪ ({[ "rollouts"%string := VInt 32 ]} ∪ defaults))
  /\ getitem second.2 second.1 "rollouts" = Some (VInt 32).
Proof.
  apply (ConfigMore.PPO_init_overrides_accumulate
           {[ "rollouts"%string := VInt 32 ]}
           {[ "mini_batches"%string := VInt 4 ]} defaults module_store
           "rollouts" (VInt 32)); reflexivity.
Defined.
End ConfigWitnesses.

(** ** The gradient of the value loss is its derivative away from ties *)

Section GradientIsDerivative.
Local Open Scope R_scope.

(** A derivative is a local notion. *)
Lemma derivable_pt_lim_local (f g : R -> R) (x l : R) (delta : R) :
  0 < delta ->
  (forall y, Rabs (y - x) < delta -> f y = g y) ->
  derivable_pt_lim g x l -> derivable_pt_lim f x l.
Proof.
  intros Hdelta Hfg Hg eps Heps.
  destruct (Hg eps Heps) as [d Hd].
  assert (Hmin : 0 < Rmin d delta).
  { apply Rmin_glb_lt; [apply cond_pos | exact Hdelta]. }
  exists (mkposreal (Rmin d delta) Hmin). intros h Hh0 Hh. simpl in Hh.
  rewrite (Hfg (x + h)), (Hfg x).
  - apply Hd; [exact Hh0|]. eapply Rlt_le_trans; [exact Hh | apply Rmin_l].
  - replace (x - x) with 0 by ring. rewrite Rabs_R0. exact Hdelta.
  - replace (x + h - x) with h by ring.
    eapply Rlt_le_trans; [exact Hh | apply Rmin_r].
Qed.

Lemma derivable_pt_lim_constant (c x : R) :
  derivable_pt_lim (fun _ => c) x 0.
Proof. exact (derivable_pt_lim_const c x). Qed.

(** The squared error of a prediction that enters the loss as it is. *)
Lemma squared_error_derivative (r p : R) :
  derivable_pt_lim (fun t => (r - t) ^ 2) p (2 * (r - p) * - 1).
Proof.
  intros eps Heps. exists (mkposreal eps Heps). intros h Hh0 Hh.
  simpl in Hh.
  replace (((r - (p + h)) ^ 2 - (r - p) ^ 2) / h - 2 * (r - p) * - 1)
    with h by (field; exact Hh0).
  exact Hh.
Qed.

(** The squared error of a prediction that enters the loss through the
    clipping, away from the two bounds. *)
Lemma clipped_squared_error_derivative (r o value_clip p : R) :
  p - o <> value_clip -> p - o <> - value_clip ->
  derivable_pt_lim
    (fun t => (r - (o + clip (t - o) (- value_clip) value_clip)) ^ 2) p
    (2 * (r - (o + clip (p - o) (- value_clip) value_clip)) * - 1
     * clip_grad (p - o) (- value_clip) value_clip).
Proof.
  intros Hhi Hlo.
  destruct (Rlt_dec value_clip (- value_clip)) as [Hcross|Hord].
  - (* crossed bounds: the clipping is constant *)
    assert (Hgrad : clip_grad (p - o) (- value_clip) value_clip = 0).
    { unfold clip_grad, minimum_grad, maximum_grad, Rmax.
      destruct (Rle_dec (- value_clip) (p - o));
        repeat destruct (Rlt_dec _ _); lra. }
    rewrite Hgrad, Rmult_0_r.
    apply (derivable_pt_lim_local _
             (fun _ => (r - (o + value_clip)) ^ 2) p 0 1);
      [lra | | apply derivable_pt_lim_constant].
    intros y _. rewrite clip_crossed by exact Hcross. reflexivity.
  - destruct (Rlt_dec (p - o) (- value_clip)) as [Hbelow|Hnb].
    + (* below the lower bound *)
      assert (Hgrad : clip_grad (p - o) (- value_clip) value_clip = 0).
      { unfold clip_grad, minimum_grad, maximum_grad, Rmax.
        destruct (Rle_dec (- value_clip) (p - o));
          repeat destruct (Rlt_dec _ _); lra. }
      rewrite Hgrad, Rmult_0_r.
      apply (derivable_pt_lim_local _
               (fun _ => (r - (o + - value_clip)) ^ 2) p 0
               (- value_clip - (p - o)));
        [lra | | apply derivable_pt_lim_constant].
      intros y Hy. f_equal. f_equal. f_equal.
      unfold clip. rewrite Rmax_left.
      * apply Rmin_right. lra.
      * unfold Rabs in Hy. destruct (Rcase_abs (y - p)); lra.
    + destruct (Rlt_dec value_clip (p - o)) as [Habove|Hna].
      * (* above the upper bound *)
        assert (Hgrad : clip_grad (p - o) (- value_clip) value_clip = 0).
        { unfold clip_grad, minimum_grad, maximum_grad, Rmax.
          destruct (Rle_dec (- value_clip) (p - o));
            repeat destruct (Rlt_dec _ _); lra. }
        rewrite Hgrad, Rmult_0_r.
        apply (derivable_pt_lim_local _
                 (fun _ => (r - (o + value_clip)) ^ 2) p 0
                 (p - o - value_clip));
          [lra | | apply derivable_pt_lim_constant].
        intros y Hy. f_equal. f_equal. f_equal.
        unfold clip. apply Rmin_left.
        eapply Rle_trans; [|apply Rmax_r].
        unfold Rabs in Hy. destruct (Rcase_abs (y - p)); lra.
      * (* strictly between the bounds *)
        assert (Hin : - value_clip < p - o < value_clip) by lra.
        assert (Hgrad : clip_grad (p - o) (- value_clip) value_clip = 1).
        { unfold clip_grad, minimum_grad, maximum_grad, Rmax.
          destruct (Rle_dec (- value_clip) (p - o));
            repeat destruct (Rlt_dec _ _); lra. }
        rewrite Hgrad, Rmult_1_r, clip_inside by lra.
        replace (o + (p - o)) with p by ring.
        apply (derivable_pt_lim_local _ (fun t => (r - t) ^ 2) p _
                 (Rmin (value_clip - (p - o)) (p - o - - value_clip)));
          [apply Rmin_glb_lt; lra | | apply squared_error_derivative].
        intros y Hy. rewrite clip_inside.
        -- f_equal. ring.
        -- pose proof (Rmin_l (value_clip - (p - o)) (p - o - - value_clip)).
           pose proof (Rmin_r (value_clip - (p - o)) (p - o - - value_clip)).
           unfold Rabs in Hy. destruct (Rcase_abs (y - p)); lra.
Qed.

(** The squared errors of a mini-batch as a function of one prediction:
    the squared error of that sample, plus what the other samples
    contribute. *)
Lemma Rsum_squared_errors_insert (G : R -> R -> R)
    (returns old predicted : list R) (i : nat) (r o p : R) :
  length predicted = length old ->
  length returns = length old ->
  old !! i = Some o -> returns !! i = Some r -> predicted !! i = Some p ->
  exists C,
    forall t,
      Rsum (map (fun e => e ^ 2)
              (zip_with Rminus returns
                 (zip_with G old (<[i := t]> predicted))))
      = C + (r - G o t) ^ 2.
Proof.
  revert returns predicted i.
  induction old as [|o' old IH]; intros [|r' returns] [|p' predicted] i Hp Hr
    Ho Hret Hpred; simpl in *; try discriminate.
  destruct i as [|i]; simpl in *.
  - injection Ho as ->. injection Hret as ->.
    exists (Rsum (map (fun e => e ^ 2)
                    (zip_with Rminus returns (zip_with G old predicted)))).
    intros t. simpl. ring.
  - destruct (IH returns predicted i ltac:(lia) ltac:(lia) Ho Hret Hpred)
      as [C HC].
    exists ((r' - G o' p') ^ 2 + C). intros t. simpl. rewrite HC. simpl.
    ring.
Qed.

Lemma zip_with_entering_unclipped (value_clip : R) (old predicted : list R) :
  length predicted = length old ->
  zip_with (entering false value_clip) old predicted = predicted.
Proof.
  revert predicted. induction old as [|o old IH]; intros [|p predicted] Hlen;
    simpl in *; try discriminate; [reflexivity|].
  rewrite IH by lia. reflexivity.
Qed.

(** The loss along one prediction, on arrays of one shape. *)
Lemma value_loss_along_same_length
    (old returns : list R) (scale : R) (clipping : bool) (value_clip : R)
    (predicted : list R) (i : nat) (t : R) :
  length predicted = length old ->
  length returns = length old ->
  value_loss_along old returns scale clipping value_clip predicted i t
  = scale
    * (Rsum (map (fun e => e ^ 2)
               (zip_with Rminus returns
                  (zip_with (entering clipping value_clip) old
                     (<[i := t]> predicted))))
       / INR (length old)).
Proof.
  intros Hp Hr. unfold value_loss_along, value_loss_of.
  assert (Hp' : length (<[i := t]> predicted) = length old)
    by (rewrite length_insert; exact Hp).
  destruct clipping.
  - rewrite (clip_predicted_same_length _ _ _ Hp'). cbn [bind].
    rewrite broadcast_same_length by (rewrite length_zip_with; lia).
    cbn [bind]. unfold Rmean, entering.
    rewrite length_map, !length_zip_with.
    replace (length returns `min` (length old `min`
               length (<[i := t]> predicted)))%nat
      with (length old) by lia.
    reflexivity.
  - cbn [bind]. rewrite broadcast_same_length by lia. cbn [bind].
    rewrite (zip_with_entering_unclipped value_clip old _ Hp').
    unfold Rmean. rewrite length_map, length_zip_with.
    replace (length returns `min` length (<[i := t]> predicted))%nat
      with (length old) by lia.
    reflexivity.
Qed.

Lemma entering_squared_error_derivative
    (clipping : bool) (value_clip r o p : R) :
  (clipping = true -> p - o <> value_clip /\ p - o <> - value_clip) ->
  derivable_pt_lim (fun t => (r - entering clipping value_clip o t) ^ 2) p
    (2 * (r - entering clipping value_clip o p) * - 1
     * (if clipping then clip_grad (p - o) (- value_clip) value_clip
        else 1)).
Proof.
  intros Htie. destruct clipping; simpl.
  - destruct (Htie eq_refl) as [Hhi Hlo].
    apply clipped_squared_error_derivative; assumption.
  - rewrite Rmult_1_r. apply squared_error_derivative.
Qed.

(** Away from the two bounds of the clipping, what
    [value_loss_prediction_grad] gives for a prediction is the derivative
    of the value loss with respect to that prediction; without clipping it
    is so everywhere. *)
Theorem value_loss_prediction_grad_is_derivative
    (sampled_values sampled_returns : list R) (value_loss_scale : R)
    (clip_predicted_values : bool) (value_clip : R)
    (predicted_values : list R) (i : nat) (o r p : R) :
  length predicted_values = length sampled_values ->
  length sampled_returns = length sampled_values ->
  sampled_values !! i = Some o ->
  sampled_returns !! i = Some r ->
  predicted_values !! i = Some p ->
  (clip_predicted_values = true ->
   p - o <> value_clip /\ p - o <> - value_clip) ->
  exists g gi,
    value_loss_prediction_grad sampled_values sampled_returns
      value_loss_scale clip_predicted_values value_clip predicted_values
    = Ok g
    /\ g !! i = Some gi
    /\ derivable_pt_lim
         (value_loss_along sampled_values sampled_returns value_loss_scale
            clip_predicted_values value_clip predicted_values i) p gi.
Proof.
  intros Hp Hr Ho Hret Hpred Htie.
  destruct (Rsum_squared_errors_insert
              (entering clip_predicted_values value_clip) sampled_returns
              sampled_values predicted_values i r o p Hp Hr Ho Hret Hpred)
    as [C HC].
  pose proof (entering_squared_error_derivative clip_predicted_values
                value_clip r o p Htie) as He.
  set (a := value_loss_scale * / INR (length sampled_values)).
  assert (Hloss :
    derivable_pt_lim
      (value_loss_along sampled_values sampled_returns value_loss_scale
         clip_predicted_values value_clip predicted_values i) p
      (a * (0 + 2 * (r - entering clip_predicted_values value_clip o p) * - 1
                * (if clip_predicted_values
                   then clip_grad (p - o) (- value_clip) value_clip
                   else 1)))).
  { apply (derivable_pt_lim_local _
             (mult_real_fct a
                (plus_fct (fct_cte C)
                   (fun t =>
                      (r - entering clip_predicted_values value_clip o t) ^ 2)))
             p _ 1); [lra | |].
    - intros t _.
      rewrite (value_loss_along_same_length _ _ _ _ _ _ _ _ Hp Hr), HC.
      unfold mult_real_fct, plus_fct, fct_cte, a, Rdiv. ring.
    - apply derivable_pt_lim_scal. apply derivable_pt_lim_plus.
      + apply derivable_pt_lim_const.
      + exact He. }
  destruct clip_predicted_values.
  - destruct (value_loss_prediction_grad_clipped sampled_values
                sampled_returns value_loss_scale value_clip predicted_values
                Hp Hr) as (g & Hg & _ & Hgi).
    exists g. eexists. split; [exact Hg|].
    split; [exact (Hgi i o r p Ho Hret Hpred)|].
    replace (- (value_loss_scale
                * (2 * (r - (o + clip (p - o) (- value_clip) value_clip))
                   / INR (length sampled_values)))
             * clip_grad (p - o) (- value_clip) value_clip)
      with (a * (0 + 2 * (r - entering true value_clip o p) * - 1
                     * clip_grad (p - o) (- value_clip) value_clip))
      by (unfold a, entering, Rdiv; ring).
    exact Hloss.
  - destruct (value_loss_prediction_grad_unclipped sampled_values
                sampled_returns value_loss_scale value_clip predicted_values
                ltac:(congruence)) as (g & Hg & _ & Hgi).
    exists g. eexists. split; [exact Hg|].
    split; [exact (Hgi i r p Hret Hpred)|].
    replace (- (value_loss_scale
                * (2 * (r - p) / INR (length predicted_values))))
      with (a * (0 + 2 * (r - entering false value_clip o p) * - 1 * 1))
      by (unfold a, entering, Rdiv; rewrite Hp; ring).
    exact Hloss.
Qed.

(** With [value_clip = 0] the loss does not depend on the predictions: as a
    function of any one of them it has derivative 0 everywhere, also where
    the gradient that reaches the prediction is not 0. *)
Theorem value_clip_zero_loss_is_flat
    (sampled_values sampled_returns : list R) (value_loss_scale : R)
    (predicted_values : list R) (i : nat) (t : R) :
  length predicted_values = length sampled_values ->
  length sampled_returns = length sampled_values ->
  derivable_pt_lim
    (value_loss_along sampled_values sampled_returns value_loss_scale true 0
       predicted_values i) t 0.
Proof.
  intros Hp Hr.
  apply (derivable_pt_lim_local _
           (fun _ =>
              value_loss_scale
              * Rmean (map (fun e => e ^ 2)
                         (zip_with Rminus sampled_returns sampled_values)))
           t 0 1); [lra | | apply derivable_pt_lim_constant].
  intros y _. unfold value_loss_along.
  rewrite value_loss_of_pinned by (rewrite ?length_insert; assumption).
  reflexivity.
Qed.
End GradientIsDerivative.

Module GradientWitnesses.
Local Open Scope R_scope.

Lemma value_loss_prediction_grad_is_derivative_witness :
  exists g gi,
    value_loss_prediction_grad [0; 0] [1; 1] 1 true 0.2 [0.1; 5] = Ok g
    /\ g !! 0%nat = Some gi
    /\ derivable_pt_lim
         (value_loss_along [0; 0] [1; 1] 1 true 0.2 [0.1; 5] 0) 0.1 gi.
Proof.
  apply (value_loss_prediction_grad_is_derivative [0; 0] [1; 1] 1 true 0.2
           [0.1; 5] 0 0 1 0.1 eq_refl eq_refl eq_refl eq_refl eq_refl).
  intros _. split; lra.
Defined.

Lemma value_clip_zero_loss_is_flat_witness :
  derivable_pt_lim (value_loss_along [0] [1] 1 true 0 [0] 0) 0 0.
Proof.
  exact (value_clip_zero_loss_is_flat [0] [1] 1 [0] 0 0 eq_refl eq_refl).
Defined.
End GradientWitnesses.
